(** * The Underwriter of [aggregate/underwriter.py]: knowledge store,
      program interpretation, object factory and build orchestration.

    The Python class [Underwriter] is embedded function by function.  Python
    objects live in an explicit heap so that aliasing between the stored
    specification dictionaries and the values handed out by [safe_lookup] is
    visible; exceptions are an explicit result type, and every function that
    can log, allocate or call an external collaborator is written in a
    state-and-error monad whose state survives a raised exception.

    A Python [int] is an unbounded integer, a [float] is an IEEE 754
    binary64 number with its rounding, and NumPy's [int64] wraps around.  A
    bucket size, which the engine only compares with zero and hands on, is
    kept as the exact rational it stands for.  The collaborators that the
    file imports from the rest of the package (lexer, parser, the four domain
    classes, [round_bucket], the [Answer] class) are fields of the record
    [collaborators]. *)

From Stdlib Require Import ZArith QArith String Ascii List Lia SpecFloat.
From stdpp Require Import base gmap strings list fin_maps.
Close Scope Q_scope.

(** ** Numbers

    Floats are the binary64 numbers of the Standard Library's [SpecFloat]:
    53 bits of precision, rounding to nearest with ties to even.  Every float
    of the model is meant to be in the canonical form of [SpecFloat]; the
    constants below are built with [binary_normalize] and the operations keep
    that form. *)

Definition float := spec_float.
Definition prec : Z := 53.
Definition emax : Z := 1024.

(** The float nearest to [m * 2^e]. *)
Definition b64 (m e : Z) : float := binary_normalize prec emax m e false.

Definition float_mul (x y : float) : float := SFmul prec emax x y.
Definition float_add (x y : float) : float := SFadd prec emax x y.

Definition is_nan (f : float) : bool :=
  match f with S754_nan => true | _ => false end.

(** NumPy's 64-bit integers. *)
Definition fits_int64 (z : Z) : bool :=
  ((- 2 ^ 63 <=? z) && (z <? 2 ^ 63))%Z.

Definition wrap_int64 (z : Z) : Z := ((z + 2 ^ 63) mod 2 ^ 64 - 2 ^ 63)%Z.

(** A one-dimensional NumPy array of dtype int64 or float64. *)
Inductive ndarray :=
| ArrInt (zs : list Z)
| ArrFloat (fs : list float).

(** The numbers the engine computes with: a Python [int] (a [bool] counts
    as 0 or 1), a NumPy [int64], or a float (Python's [float] and NumPy's
    [float64] compute alike in every operation used here). *)
Inductive number :=
| PyInt (z : Z)
| Int64 (z : Z)
| Float (f : float).

(** ** Python values and the heap *)

Definition loc := nat.

(** The classes a constructed object can be an instance of. *)
Inductive pyclass := Aggregate | Portfolio | Severity | Distortion.

(** An immediate value, or a reference to a heap object. *)
Inductive value :=
| VNone
| VBool (b : bool)
| VInt (z : Z)
| VFloat (f : float)
| VStr (s : string)
| VRef (l : loc).

(** Heap objects: a [dict] with string keys, a [list] (a tuple is modelled
    as a list), an instance of a domain class with its attributes, or a
    NumPy array. *)
Inductive pyobj :=
| ODict (d : gmap string value)
| OList (xs : list value)
| OInstance (c : pyclass) (attrs : gmap string value)
| OArray (a : ndarray).

Global Instance pyclass_eq_dec : EqDecision pyclass.
Proof. solve_decision. Defined.

(** Allocation picks an address outside the heap's domain. *)
Definition alloc (h : gmap loc pyobj) (o : pyobj) : loc * gmap loc pyobj :=
  let l := fresh (dom h) in (l, <[l := o]> h).

(** The value fully read out of the heap: what a caller sees when it prints
    or compares a specification. *)
#[local] Unset Elimination Schemes.
Inductive tree :=
| TNone
| TBool (b : bool)
| TInt (z : Z)
| TFloat (f : float)
| TStr (s : string)
| TDict (kvs : list (string * tree))
| TList (ts : list tree)
| TInstance (c : pyclass) (kvs : list (string * tree))
| TArray (a : ndarray).
#[local] Set Elimination Schemes.

Fixpoint snapshot (fuel : nat) (h : gmap loc pyobj) (v : value) : option tree :=
  match v with
  | VNone => Some TNone
  | VBool b => Some (TBool b)
  | VInt z => Some (TInt z)
  | VFloat f => Some (TFloat f)
  | VStr s => Some (TStr s)
  | VRef l =>
      match fuel with
      | O => None
      | S fuel' =>
          let field (kv : string * value) :=
            t ← snapshot fuel' h kv.2; Some (kv.1, t) in
          match h !! l with
          | None => None
          | Some (ODict d) => TDict <$> mapM field (map_to_list d)
          | Some (OList xs) => TList <$> mapM (snapshot fuel' h) xs
          | Some (OInstance c d) => TInstance c <$> mapM field (map_to_list d)
          | Some (OArray a) => Some (TArray a)
          end
      end
  end.

(** ** Exceptions *)

(** Argument of [Underwriter.__getitem__]: a bare name, a (kind, name)
    tuple, or something of another type. *)
Inductive item :=
| IStr (name : string)
| ITuple (kind name : string)
| IOther.

Inductive exn :=
| KeyError_not_found (i : item)
    (* KeyError(f'Item {item} not found.') *)
| KeyError_not_unique (i : item) (found : nat)
    (* KeyError(f'Error: no unique object found matching {item}. Found {n} objects.') *)
| KeyError_key (k : string)
    (* d[k] on a dict without key k; a label missing from the DataFrame *)
| KeyError_type_error (i : item)
    (* KeyError(f'getitem TypeError looking for {item}, {e}') *)
| ValueError_item_type
    (* ValueError('item must be a str ... or tuple ...') *)
| ValueError_unpack (got : nat)
    (* unpacking a sequence of the wrong length *)
| ValueError_kind (name found_kind kind : string)
    (* ValueError(f'Error: type of {name} is  {found_kind}, not expected {kind}') *)
| ValueError_msg (msg : string)
    (* a parser ValueError whose args[0] is a str *)
| ValueError_token (tok_type tok_value : string) (index : nat)
    (* a parser ValueError whose args[0] is the unexpected token *)
| ValueError_empty
    (* max of an empty sequence *)
| TypeError (msg : string)
| AttributeError (msg : string)
| IndexError
    (* xs[i] with i out of range *)
| ZeroDivisionError
| OtherError (cls : string).

Definition is_LookupError (e : exn) : bool :=
  match e with
  | KeyError_not_found _ | KeyError_not_unique _ _ | KeyError_key _
  | KeyError_type_error _ | IndexError => true
  | _ => false
  end.

Definition is_ValueError (e : exn) : bool :=
  match e with
  | ValueError_item_type | ValueError_unpack _ | ValueError_kind _ _ _
  | ValueError_msg _ | ValueError_token _ _ _ | ValueError_empty => true
  | _ => false
  end.

Definition is_TypeError (e : exn) : bool :=
  match e with TypeError _ => true | _ => false end.

Inductive result (A : Type) :=
| Ok (a : A)
| Raise (e : exn).
Arguments Ok {A} a.
Arguments Raise {A} e.

(** ** State-and-error monad

    A computation returns its result together with the state it leaves
    behind, also when it raises: side effects made before the exception
    stay. *)

Definition SE (S A : Type) : Type := S → result A * S.

Definition ret {S A} (a : A) : SE S A := λ s, (Ok a, s).
Definition raise {S A} (e : exn) : SE S A := λ s, (Raise e, s).
Definition bind {S A B} (m : SE S A) (k : A → SE S B) : SE S B :=
  λ s, match m s with
       | (Ok a, s') => k a s'
       | (Raise e, s') => (Raise e, s')
       end.
Definition gets {S A} (f : S → A) : SE S A := λ s, (Ok (f s), s).
Definition modify {S} (f : S → S) : SE S unit := λ s, (Ok tt, f s).
Definition of_result {S A} (r : result A) : SE S A := λ s, (r, s).

(** [try m handle]: run [m]; on an exception run [handle e] in the state the
    exception left. *)
Definition try_catch {S A} (m : SE S A) (handle : exn → SE S A) : SE S A :=
  λ s, match m s with
       | (Ok a, s') => (Ok a, s')
       | (Raise e, s') => handle e s'
       end.

Declare Scope se_scope.
Delimit Scope se_scope with se.
Notation "x <- m ;; k" := (bind m (λ x, k))
  (at level 100, m at next level, right associativity) : se_scope.
Notation "m ;; k" := (bind m (λ _, k))
  (at level 100, right associativity) : se_scope.

(** ** Strings *)

(** [s.split(sep)] for a one-character separator. *)
Fixpoint split_on (sep : ascii) (s : string) : list string :=
  match s with
  | EmptyString => [EmptyString]
  | String c s' =>
      if Ascii.eqb c sep then EmptyString :: split_on sep s'
      else match split_on sep s' with
           | [] => [String c EmptyString]
           | w :: ws => String c w :: ws
           end
  end.

Fixpoint has_char (c : ascii) (s : string) : bool :=
  match s with
  | EmptyString => false
  | String c' s' => Ascii.eqb c' c || has_char c s'
  end.

Definition dot : ascii := "."%char.

(** [bin(n)] for a Python int: sign, the prefix 0b, binary digits. *)
Fixpoint pos_digits (p : positive) (acc : string) : string :=
  match p with
  | xH => String "1" acc
  | xO p' => pos_digits p' (String "0" acc)
  | xI p' => pos_digits p' (String "1" acc)
  end.

Definition bin (n : Z) : string :=
  match n with
  | Z0 => "0b0"
  | Zpos p => "0b" +:+ pos_digits p EmptyString
  | Zneg p => "-0b" +:+ pos_digits p EmptyString
  end.

(** ** Arithmetic *)

Definition OverflowError : exn := OtherError "OverflowError".

Fixpoint mapR {A B} (f : A → result B) (l : list A) : result (list B) :=
  match l with
  | [] => Ok []
  | x :: l' =>
      match f x, mapR f l' with
      | Ok y, Ok ys => Ok (y :: ys)
      | Raise e, _ => Raise e
      | _, Raise e => Raise e
      end
  end.

(** [int(f)]: truncation toward zero; an infinity or a NaN has no integer. *)
Definition float_trunc (f : float) : result Z :=
  match f with
  | S754_zero _ => Ok 0%Z
  | S754_finite s m e =>
      let a := Z.shiftl (Z.pos m) e in Ok (if s then (- a)%Z else a)
  | S754_infinity _ => Raise OverflowError
  | S754_nan => Raise (ValueError_msg "cannot convert float NaN to integer")
  end.

(** [float(z)] for a Python int: the nearest float, OverflowError when the
    int is too large. *)
Definition float_of_int (z : Z) : result float :=
  match b64 z 0 with
  | S754_infinity _ => Raise OverflowError
  | f => Ok f
  end.

(** [int(x)] *)
Definition int_of (x : number) : result Z :=
  match x with
  | PyInt z | Int64 z => Ok z
  | Float f => float_trunc f
  end.

(** The operand types of [x op y] and how the operation is carried out: on
    Python ints exactly, on int64 with wrap-around, on floats with rounding.
    An int next to a float is converted to a float first; a Python int next
    to an int64 is converted to int64, with OverflowError when it does not
    fit (as NumPy 2 does). *)
Definition arith (int_op : Z → Z → Z) (float_op : float → float → float)
    (x y : number) : result number :=
  match x, y with
  | PyInt a, PyInt b => Ok (PyInt (int_op a b))
  | Int64 a, Int64 b => Ok (Int64 (wrap_int64 (int_op a b)))
  | Int64 a, PyInt b =>
      if fits_int64 b then Ok (Int64 (wrap_int64 (int_op a b)))
      else Raise OverflowError
  | PyInt a, Int64 b =>
      if fits_int64 a then Ok (Int64 (wrap_int64 (int_op a b)))
      else Raise OverflowError
  | Float a, Float b => Ok (Float (float_op a b))
  | Float a, Int64 b => Ok (Float (float_op a (b64 b 0)))
  | Int64 a, Float b => Ok (Float (float_op (b64 a 0) b))
  | Float a, PyInt b =>
      match float_of_int b with
      | Ok f => Ok (Float (float_op a f))
      | Raise e => Raise e
      end
  | PyInt a, Float b =>
      match float_of_int a with
      | Ok f => Ok (Float (float_op f b))
      | Raise e => Raise e
      end
  end.

(** [x * y] and [x + y] *)
Definition mul : number → number → result number := arith Z.mul float_mul.
Definition add : number → number → result number := arith Z.add float_add.

(** [z < f] and [f < z], exact: Python compares an int with a float
    without rounding the int. *)
Definition int_lt_float (z : Z) (f : float) : bool :=
  match f with
  | S754_nan => false
  | S754_infinity s => negb s
  | S754_zero _ => (z <? 0)%Z
  | S754_finite s m e =>
      let v := if s then Z.neg m else Z.pos m in
      if (0 <=? e)%Z then (z <? v * 2 ^ e)%Z else (z * 2 ^ (- e) <? v)%Z
  end.

Definition float_lt_int (f : float) (z : Z) : bool :=
  match f with
  | S754_nan => false
  | S754_infinity s => s
  | S754_zero _ => (0 <? z)%Z
  | S754_finite s m e =>
      let v := if s then Z.neg m else Z.pos m in
      if (0 <=? e)%Z then (v * 2 ^ e <? z)%Z else (v <? z * 2 ^ (- e))%Z
  end.

(** [x < y]; an int64 next to a float is converted to a float, as NumPy
    does. *)
Definition lt (x y : number) : bool :=
  match x, y with
  | PyInt a, PyInt b | PyInt a, Int64 b | Int64 a, PyInt b | Int64 a, Int64 b =>
      (a <? b)%Z
  | Float a, Float b => SFltb a b
  | PyInt a, Float b => int_lt_float a b
  | Float a, PyInt b => float_lt_int a b
  | Int64 a, Float b => SFltb (b64 a 0) b
  | Float a, Int64 b => SFltb a (b64 b 0)
  end.

(** The builtin [max] of the items of an iterable: the first item that no
    later item is greater than. *)
Definition max_of (xs : list number) : result number :=
  match xs with
  | [] => Raise ValueError_empty
  | x :: xs' => Ok (fold_left (λ acc y, if lt acc y then y else acc) xs' x)
  end.

(** [np.maximum] of two floats: a NaN wins. *)
Definition float_maximum (a b : float) : float :=
  if is_nan a then a else if is_nan b then b else if SFltb a b then b else a.

(** [np.max] of an array. *)
Definition amax (a : ndarray) : result number :=
  match a with
  | ArrInt [] | ArrFloat [] => Raise ValueError_empty
  | ArrInt (z :: zs) => Ok (Int64 (fold_left Z.max zs z))
  | ArrFloat (f :: fs) => Ok (Float (fold_left float_maximum fs f))
  end.

(** ** Engine state *)

Inductive level := DEBUG | INFO | WARNING | ERROR.

(** One constructor per logger call of the embedded methods. *)
Inductive log_msg :=
| Msg_surprising_obj
    (* factory: 'Surprising: obj from Answer not None ... It will be overwritten.' *)
| Msg_mixed_severity (sev_wt : value)
    (* factory: 'Mixed severity cannot be created, returning spec. You had ..., expected 1' *)
| Msg_processing_as_program
    (* write: 'object not found, processing as a program.' *)
| Msg_object_found (kind : string)
    (* write: '{answer.kind} object found.' *)
| Msg_that_failed
    (* write: 'OK THAT FAILED' * 20 *)
| Msg_program_created (n : nat)
    (* write: 'Program created {len(rv)} objects.' *)
| Msg_program_line (line : string)
    (* interpret_program: logger.debug(program_line) *)
| Msg_exception (e : exn)
    (* logger.error(e) *)
| Msg_parse_error (txt2 tok_value tok_type : string)
    (* interpret_program: 'Parse error in input "{txt2}" ...' *)
| Msg_answer_out (kind name : string)
    (* interpret_program: 'answer out: {kind} object {name} parsed successfully...' *)
| Msg_id_not_found (kind name : string)
    (* safe_lookup: 'ERROR id {kind}.{name} not found in the knowledge.' *)
| Msg_retrieved (kind name found_kind found_name : string)
    (* safe_lookup: 'retrieved {kind}.{name} as type {found_kind}.{found_name}' *)
| Msg_no_output
    (* build: 'build produced no output' *)
| Msg_returned_as_spec (name kind : string)
    (* build: 'Object {name} of kind {kind} returned as a spec; no further processing.' *)
| Msg_discrete_mode (kind name : string)
    (* build: '({kind}, {name}): Discrete mode, using bs=1 and log2={log2_}' *)
| Msg_normal_mode (kind name : string) (bs : Q) (log2 : Z)
    (* build: '({kind}, {name}): Normal mode, using bs={bs_} (1/{1/bs_}) and log2={log2_}' *)
| Msg_port_updating (log2 : Z) (bs : Q)
    (* build: 'updating with {log2}, bs=1/{1 / bs_}' *)
| Msg_port_params (kind name : string) (bs : Q) (log2 : Z)
    (* build: '({kind}, {name}): bs={bs_} and log2={log2_}' *)
| Msg_unexpected_kind
    (* build: 'Unexpected: output kind is ... (expr/number?)' *).

(** The part of the engine's surroundings that collaborators can change:
    the object heap and the log. *)
Record world := World {
  heap : gmap loc pyobj;
  log : list (level * log_msg);
}.

Definition W := SE world.

Definition logger (lvl : level) (m : log_msg) : W unit :=
  modify (λ w, World (heap w) (log w ++ [(lvl, m)])).

(** One row of the [_knowledge] DataFrame: index (kind, name), columns spec
    and program. *)
Record row := Row {
  row_kind : string;
  row_name : string;
  row_spec : value;
  row_program : string;
}.

Definition row_key (r : row) : string * string := (row_kind r, row_name r).

(** The mutable [Answer] of utilities.py, as built by this file. *)
Record Answer := MkAnswer {
  kind : string;
  name : string;
  spec : value;
  program : string;
  object : value;
}.

(** Keyword arguments of an [update] call. *)
Record update_args := UpdateArgs {
  ua_log2 : Z;
  ua_bs : Q;
  ua_kwargs : list (string * value);
}.

(** Calls that leave the engine, in the order they are made. *)
Inductive ext_call :=
| Call_parse (line : string)
| Call_update (obj : loc) (args : update_args).

Record state := State {
  knowledge : list row;
  world_of : world;
  calls : list ext_call;
}.

Definition M := SE state.

Definition liftW {A} (m : W A) : M A :=
  λ st, let '(r, w) := m (world_of st) in (r, State (knowledge st) w (calls st)).

Definition record_call (c : ext_call) : M unit :=
  modify (λ st, State (knowledge st) (world_of st) (calls st ++ [c])).

(** Settings kept on the Underwriter instance. *)
Record config := Config {
  self_log2 : Z;
  self_debug : bool;
  self_update : bool;
}.

(** ** Operations on heap objects *)

Inductive key :=
| KStr (s : string)
| KIdx (i : nat).

Definition type_error {S A} (msg : string) : SE S A := raise (TypeError msg).

(** The items of an array, read as values (an int64 item reads as an
    int). *)
Definition array_items (a : ndarray) : list value :=
  match a with
  | ArrInt zs => VInt <$> zs
  | ArrFloat fs => VFloat <$> fs
  end.

(** [a[i] = v] on the items of an array: the value is converted to the
    array's type.  A float stored in an integer array is truncated, and
    refused when it has no integer or none that fits. *)
Definition array_store (a : ndarray) (i : nat) (v : value) : result ndarray :=
  match a with
  | ArrInt zs =>
      match v with
      | VInt z =>
          if fits_int64 z then Ok (ArrInt (<[i := z]> zs))
          else Raise OverflowError
      | VBool b => Ok (ArrInt (<[i := if b then 1%Z else 0%Z]> zs))
      | VFloat f =>
          match float_trunc f with
          | Ok z => if fits_int64 z then Ok (ArrInt (<[i := z]> zs))
                    else Raise OverflowError
          | Raise e => Raise e
          end
      | _ => Raise (TypeError "array item assignment")
      end
  | ArrFloat fs =>
      match v with
      | VFloat f => Ok (ArrFloat (<[i := f]> fs))
      | VInt z =>
          match float_of_int z with
          | Ok f => Ok (ArrFloat (<[i := f]> fs))
          | Raise e => Raise e
          end
      | VBool b => Ok (ArrFloat (<[i := b64 (if b then 1 else 0) 0]> fs))
      | _ => Raise (TypeError "array item assignment")
      end
  end.

(** [target[k]] *)
Definition subscript (target : value) (k : key) : W value :=
  λ w,
    match target with
    | VRef l =>
        match heap w !! l, k with
        | Some (ODict d), KStr s =>
            match d !! s with
            | Some v => (Ok v, w)
            | None => (Raise (KeyError_key s), w)
            end
        | Some (OList xs), KIdx i =>
            match xs !! i with
            | Some v => (Ok v, w)
            | None => (Raise IndexError, w)
            end
        | Some (OArray a), KIdx i =>
            match array_items a !! i with
            | Some v => (Ok v, w)
            | None => (Raise IndexError, w)
            end
        | _, _ => (Raise (TypeError "subscript"), w)
        end
    | _ => (Raise (TypeError "subscript"), w)
    end.

(** [target[k] = v] *)
Definition store_subscript (target : value) (k : key) (v : value) : W unit :=
  λ w,
    match target with
    | VRef l =>
        match heap w !! l, k with
        | Some (ODict d), KStr s =>
            (Ok tt, World (<[l := ODict (<[s := v]> d)]> (heap w)) (log w))
        | Some (OList xs), KIdx i =>
            if decide (i < length xs)
            then (Ok tt, World (<[l := OList (<[i := v]> xs)]> (heap w)) (log w))
            else (Raise IndexError, w)
        | Some (OArray a), KIdx i =>
            if decide (i < length (array_items a))
            then match array_store a i v with
                 | Ok a' => (Ok tt, World (<[l := OArray a']> (heap w)) (log w))
                 | Raise e => (Raise e, w)
                 end
            else (Raise IndexError, w)
        | _, _ => (Raise (TypeError "item assignment"), w)
        end
    | _ => (Raise (TypeError "item assignment"), w)
    end.

(** [del target[k]] *)
Definition delete_subscript (target : value) (k : key) : W unit :=
  λ w,
    match target with
    | VRef l =>
        match heap w !! l, k with
        | Some (ODict d), KStr s =>
            match d !! s with
            | Some _ => (Ok tt, World (<[l := ODict (delete s d)]> (heap w)) (log w))
            | None => (Raise (KeyError_key s), w)
            end
        | Some (OList xs), KIdx i =>
            if decide (i < length xs)
            then (Ok tt, World (<[l := OList (take i xs ++ drop (S i) xs)]> (heap w)) (log w))
            else (Raise IndexError, w)
        | Some (OArray a), KIdx i =>
            (Raise (ValueError_msg "cannot delete array elements"), w)
        | _, _ => (Raise (TypeError "item deletion"), w)
        end
    | _ => (Raise (TypeError "item deletion"), w)
    end.

(** [k in target] for a string [k]. *)
Definition contains (target : value) (k : string) : W bool :=
  λ w,
    match target with
    | VRef l =>
        match heap w !! l with
        | Some (ODict d) => (Ok (bool_decide (is_Some (d !! k))), w)
        | Some (OList xs) =>
            (Ok (existsb (λ v, match v with
                               | VStr s => String.eqb s k
                               | _ => false
                               end) xs), w)
        | _ => (Raise (TypeError "argument is not iterable"), w)
        end
    | VStr s =>
        (Ok (match String.index 0 k s with Some _ => true | None => false end), w)
    | _ => (Raise (TypeError "argument is not iterable"), w)
    end.

(** [target.copy()]: a new object with the same items; the items themselves
    are not copied. *)
Definition copy (target : value) : W value :=
  λ w,
    match target with
    | VRef l =>
        match heap w !! l with
        | Some (ODict d) =>
            let '(l', h') := alloc (heap w) (ODict d) in
            (Ok (VRef l'), World h' (log w))
        | Some (OList xs) =>
            let '(l', h') := alloc (heap w) (OList xs) in
            (Ok (VRef l'), World h' (log w))
        | Some (OArray a) =>
            let '(l', h') := alloc (heap w) (OArray a) in
            (Ok (VRef l'), World h' (log w))
        | _ => (Raise (AttributeError "copy"), w)
        end
    | _ => (Raise (AttributeError "copy"), w)
    end.

(** [obj.attr = v] on an instance. *)
Definition setattr (target : value) (attr : string) (v : value) : W unit :=
  λ w,
    match target with
    | VRef l =>
        match heap w !! l with
        | Some (OInstance c d) =>
            (Ok tt, World (<[l := OInstance c (<[attr := v]> d)]> (heap w)) (log w))
        | _ => (Raise (AttributeError attr), w)
        end
    | _ => (Raise (AttributeError attr), w)
    end.

(** [isinstance(v, c)] *)
Definition isinstance (h : gmap loc pyobj) (v : value) (c : pyclass) : bool :=
  match v with
  | VRef l =>
      match h !! l with
      | Some (OInstance c' _) => bool_decide (c' = c)
      | _ => false
      end
  | _ => false
  end.

(** [v != 1] for a value that is not an array: a number is compared by
    value ([True] equals 1, a NaN differs from everything), anything else
    differs from 1. *)
Definition ne_one (v : value) : bool :=
  match v with
  | VInt z => negb (z =? 1)%Z
  | VFloat f => negb (SFeqb f (b64 1 0))
  | VBool b => negb b
  | _ => true
  end.

(** [a != 1] for an array: the array of the item-wise answers. *)
Definition array_ne_one (a : ndarray) : list bool :=
  ne_one <$> array_items a.

(** The truth value of an array of booleans, as [if] asks for it.  Only an
    array of one item has one.  (For an empty array NumPy raises since
    release 2.2; before, it answered False with a deprecation warning.) *)
Definition array_truth (bs : list bool) : result bool :=
  match bs with
  | [b] => Ok b
  | [] => Raise (ValueError_msg "The truth value of an empty array is ambiguous")
  | _ => Raise (ValueError_msg
                  "The truth value of an array with more than one element is ambiguous")
  end.

(** The condition [v != 1] of an [if], for a value on the heap [h]. *)
Definition differs_from_one (h : gmap loc pyobj) (v : value) : result bool :=
  match v with
  | VRef l =>
      match h !! l with
      | Some (OArray a) => array_truth (array_ne_one a)
      | _ => Ok (ne_one v)
      end
  | _ => Ok (ne_one v)
  end.

(** [v == s] for a string literal [s]. *)
Definition eq_str (v : value) (s : string) : bool :=
  match v with
  | VStr s' => String.eqb s' s
  | _ => false
  end.

Definition is_None (v : value) : bool :=
  match v with VNone => true | _ => false end.

(** A value as an operand of arithmetic or of a comparison.  Operands that
    are no numbers are outside the model and answer TypeError. *)
Definition number_of (v : value) : result number :=
  match v with
  | VInt z => Ok (PyInt z)
  | VBool b => Ok (PyInt (if b then 1 else 0))
  | VFloat f => Ok (Float f)
  | _ => Raise (TypeError "number expected")
  end.

Definition is_float (v : value) : bool :=
  match v with VFloat _ => true | _ => false end.

(** An item of a list on its way into a float64 or an int64 array. *)
Definition float_of_value (v : value) : result float :=
  match v with
  | VFloat f => Ok f
  | VInt z => float_of_int z
  | VBool b => Ok (b64 (if b then 1 else 0) 0)
  | _ => Raise (TypeError "number expected")
  end.

Definition int64_of_value (v : value) : result Z :=
  match v with
  | VInt z => if fits_int64 z then Ok z else Raise OverflowError
  | VBool b => Ok (if b then 1 else 0)%Z
  | _ => Raise (TypeError "number expected")
  end.

(** [np.array(vs)] for a list of numbers: float64 when a float is among
    them (and for the empty list), int64 otherwise.  A list of booleans only
    is read as integers, which gives the same products.  Lists of anything
    else, nested lists, and integers outside the int64 range (for which
    NumPy chooses another item type) are outside the model: the definition
    answers TypeError or OverflowError there. *)
Definition as_array (vs : list value) : result ndarray :=
  if existsb is_float vs || bool_decide (vs = [])
  then match mapR float_of_value vs with
       | Ok fs => Ok (ArrFloat fs)
       | Raise e => Raise e
       end
  else match mapR int64_of_value vs with
       | Ok zs => Ok (ArrInt zs)
       | Raise e => Raise e
       end.

(** [np.max(v)] for a value on the heap [h]: of an array, of a list of
    numbers, or of a single number.  The result is a NumPy scalar.  Other
    arguments are outside the model and answer TypeError. *)
Definition np_max (h : gmap loc pyobj) (v : value) : result number :=
  match v with
  | VRef l =>
      match h !! l with
      | Some (OArray a) => amax a
      | Some (OList vs) =>
          match as_array vs with
          | Ok a => amax a
          | Raise e => Raise e
          end
      | _ => Raise (TypeError "np.max")
      end
  | VFloat f => Ok (Float f)
  | VInt z => if fits_int64 z then Ok (Int64 z) else Raise OverflowError
  | VBool b => Ok (Int64 (if b then 1 else 0))
  | _ => Raise (TypeError "np.max")
  end.

(** The builtin [max(v)] of one iterable argument: of the items of a list
    of numbers, or of an array.  Lists of anything else are outside the
    model and answer TypeError. *)
Definition builtin_max (h : gmap loc pyobj) (v : value) : result number :=
  match v with
  | VRef l =>
      match h !! l with
      | Some (OList vs) =>
          match mapR number_of vs with
          | Ok xs => max_of xs
          | Raise e => Raise e
          end
      | Some (OArray (ArrInt zs)) => max_of (Int64 <$> zs)
      | Some (OArray (ArrFloat fs)) => max_of (Float <$> fs)
      | _ => Raise (TypeError "max")
      end
  | _ => Raise (TypeError "object is not iterable")
  end.

(** ** KnowledgeStore *)

Definition answer_of_row (r : row) : Answer :=
  MkAnswer (row_kind r) (row_name r) (row_spec r) (row_program r) VNone.

(** [self._knowledge.xs(item, axis=0, level=1, drop_level=False)]: the rows
    whose name is [n]; KeyError when there is none. *)
Definition xs (n : string) (kn : list row) : result (list row) :=
  match filter (λ r, row_name r = n) kn with
  | [] => Raise (KeyError_key n)
  | rows => Ok rows
  end.

(** [self._knowledge.loc[[item]]] for a (kind, name) tuple. *)
Definition loc_rows (k n : string) (kn : list row) : result (list row) :=
  match filter (λ r, row_key r = (k, n)) kn with
  | [] => Raise (KeyError_key n)
  | rows => Ok rows
  end.

(** [self._knowledge.loc[(kind, name), :] = [spec, program_line]]: overwrite
    the rows with that index, or append a new row. *)
Definition loc_set (k n : string) (sp : value) (prog : string)
    (kn : list row) : list row :=
  if bool_decide (Exists (λ r, row_key r = (k, n)) kn)
  then (λ r, if decide (row_key r = (k, n)) then Row k n sp prog else r) <$> kn
  else kn ++ [Row k n sp prog].

(** Every index (kind, name) occurs once: what assignment through [loc]
    maintains. *)
Definition unique_keys (kn : list row) : Prop := NoDup (row_key <$> kn).

(** [Underwriter.__getitem__] *)
Definition __getitem__ (it : item) (kn : list row) : result Answer :=
  match it with
  | IOther => Raise ValueError_item_type
  | _ =>
      let rows :=
        match it with
        | IStr n => xs n kn
        | ITuple k n => loc_rows k n kn
        | IOther => Ok []
        end in
      match rows with
      | Raise e =>
          if is_LookupError e then Raise (KeyError_not_found it)
          else if is_TypeError e then Raise (KeyError_type_error it)
          else Raise e
      | Ok [r] => Ok (answer_of_row r)
      | Ok rows => Raise (KeyError_not_unique it (length rows))
      end
  end.

(** [Underwriter.safe_lookup], the callback handed to the parser.  It reads
    the knowledge and works on the heap and the log. *)
Definition safe_lookup (kn : list row) (buildinid : string) : W value :=
  (match split_on dot buildinid with
   | [k; n] =>
       answer <- try_catch (of_result (__getitem__ (ITuple k n) kn))
                   (λ e, if is_LookupError e
                         then logger ERROR (Msg_id_not_found k n);; raise e
                         else raise e);;
       logger DEBUG (Msg_retrieved k n (kind answer) (name answer));;
       if bool_decide (kind answer ≠ k)
       then raise (ValueError_kind n (kind answer) k)
       else copy (spec answer)
   | parts => raise (ValueError_unpack (length parts))
   end)%se.

(** ** External collaborators *)

Record collaborators := Collaborators {
  (* UnderwritingLexer.preprocess *)
  preprocess : string → list string;
  (* UnderwritingParser(safe_lookup, debug).parse(lexer.tokenize(line)) *)
  parse : (string → W value) → bool → string → W (string * string * value);
  (* Aggregate built from the keywords in spec: the new attributes *)
  new_Aggregate : value → W (gmap string value);
  (* Portfolio(name, agg_list, uw=self) *)
  new_Portfolio : list row → string → list value → W (gmap string value);
  (* Severity built from the keywords in spec *)
  new_Severity : value → W (gmap string value);
  (* Distortion built from the keywords in spec *)
  new_Distortion : value → W (gmap string value);
  (* Aggregate.recommend_bucket(log2) *)
  recommend_bucket : loc → Z → W Q;
  (* Portfolio.best_bucket(log2) *)
  best_bucket : loc → Z → W Q;
  (* utilities.round_bucket *)
  round_bucket : Q → Q;
  (* obj.update(log2, bs, and keywords) of an Aggregate or Portfolio *)
  update : loc → update_args → W unit;
  (* x ** 0.5, the power function of the C library *)
  pow_half : number → result number;
  (* x == y for two Answers: the comparison of the class Answer of
     utilities.py, which reads the heap *)
  answer_eq : gmap loc pyobj → Answer → Answer → result bool;
}.

(** Modelled from the spec: which domain classes expose an [update]
    operation (the classes themselves are in other modules): "each exposes a
    constructor ... and, except Severity/Distortion, an update operation". *)
Definition has_update (c : pyclass) : bool :=
  match c with
  | Aggregate | Portfolio => true
  | Severity | Distortion => false
  end.

(** What [build] hands back: nothing, a constructed object, one Answer, or
    the list of Answers. *)
Inductive build_result :=
| BNone
| BObject (o : value)
| BAnswer (a : Answer)
| BList (rv : list Answer).

(** ** The Underwriter's methods *)

Section Underwriter.
Variable E : collaborators.
Variable self : config.

Local Open Scope se_scope.

Definition set_knowledge (f : list row → list row) : M unit :=
  modify (λ st, State (f (knowledge st)) (world_of st) (calls st)).

(** The [except ValueError] clause of [interpret_program]: log, then
    re-raise.  Other exceptions pass through untouched. *)
Definition parse_failed {A} (program_line : string) (e : exn) : M A :=
  if is_ValueError e then
    match e with
    | ValueError_token t v i =>
        let txt2 := String.substring 0 i program_line +:+ ">>>" +:+
                    String.substring i (String.length program_line - i)
                      program_line in
        liftW (logger ERROR (Msg_parse_error txt2 v t));;
        raise e
    | _ =>
        liftW (logger ERROR (Msg_exception e));;
        raise e
    end
  else raise e.

(** The world the parser is started in for [program_line]: the line has
    just been logged. *)
Definition parser_world (st : state) (program_line : string) : world :=
  World (heap (world_of st))
        (log (world_of st) ++ [(DEBUG, Msg_program_line program_line)]).

(** The body of the loop of [interpret_program] for one line: parse, store
    in the knowledge, and give the Answer that is appended to [rv]. *)
Definition interpret_line (program_line : string) : M Answer :=
  liftW (logger DEBUG (Msg_program_line program_line));;
  record_call (Call_parse program_line);;
  kns <- try_catch
           (λ st, liftW (parse E (safe_lookup (knowledge st))
                           (self_debug self) program_line) st)
           (parse_failed program_line);;
  liftW (logger INFO (Msg_answer_out kns.1.1 kns.1.2));;
  set_knowledge (loc_set kns.1.1 kns.1.2 kns.2 program_line);;
  ret (MkAnswer kns.1.1 kns.1.2 kns.2 program_line VNone).

(** The loop itself; [rv] is the list built so far. *)
Fixpoint interpret_lines (lines : list string) (rv : list Answer)
    : M (list Answer) :=
  match lines with
  | [] => ret rv
  | program_line :: rest =>
      answer <- interpret_line program_line;;
      interpret_lines rest (rv ++ [answer])
  end.

Definition interpret_program (portfolio_program : string) : M (list Answer) :=
  interpret_lines (preprocess E portfolio_program) [].

(** A new instance of class [c] with the attributes [attrs]. *)
Definition new_instance (c : pyclass) (attrs : gmap string value) : W value :=
  λ w, let '(l, h) := alloc (heap w) (OInstance c attrs) in
       (Ok (VRef l), World h (log w)).

(** The third component of one element of [spec['spec']]. *)
Definition third (h : gmap loc pyobj) (v : value) : result value :=
  match v with
  | VRef l =>
      match h !! l with
      | Some (OList [_; _; c]) => Ok c
      | Some (OList vs) => Raise (ValueError_unpack (length vs))
      | _ => Raise (TypeError "cannot unpack")
      end
  | VStr (String _ (String _ (String c EmptyString))) =>
      Ok (VStr (String c EmptyString))
  | VStr s => Raise (ValueError_unpack (String.length s))
  | _ => Raise (TypeError "cannot unpack")
  end.

Fixpoint thirds (h : gmap loc pyobj) (vs : list value) : result (list value) :=
  match vs with
  | [] => Ok []
  | v :: vs' =>
      match third h v with
      | Ok c =>
          match thirds h vs' with
          | Ok cs => Ok (c :: cs)
          | Raise e => Raise e
          end
      | Raise e => Raise e
      end
  end.

(** The one-character strings a string is iterated as. *)
Fixpoint chars (s : string) : list value :=
  match s with
  | EmptyString => []
  | String c s' => VStr (String c EmptyString) :: chars s'
  end.

(** [[k for i, j, k in v]]: [v] is iterated and every item unpacked into
    three.  A list gives its items and a string its characters; a dict gives
    its keys, in an order the model does not keep (the keys are taken in the
    order of the map), and the items of an array cannot be unpacked. *)
Definition agg_list_of (v : value) : W (list value) :=
  λ w,
    match v with
    | VRef l =>
        match heap w !! l with
        | Some (OList vs) => (thirds (heap w) vs, w)
        | Some (ODict d) => (thirds (heap w) (VStr <$> (map_to_list d).*1), w)
        | Some (OArray a) => (thirds (heap w) (array_items a), w)
        | _ => (Raise (TypeError "object is not iterable"), w)
        end
    | VStr s => (thirds (heap w) (chars s), w)
    | _ => (Raise (TypeError "object is not iterable"), w)
    end.

(** [Underwriter.factory] *)
Definition factory (answer : Answer) : M Answer :=
  let '(MkAnswer k n sp prog obj) := answer in
  (if is_None obj then ret tt
   else liftW (logger ERROR Msg_surprising_obj));;
  obj <- (if String.eqb k "agg" then
            liftW (attrs <- new_Aggregate E sp;;
                   o <- new_instance Aggregate attrs;;
                   setattr o "program" (VStr prog);;
                   ret o)
          else if String.eqb k "port" then
            kn <- gets knowledge;;
            liftW (triples <- subscript sp (KStr "spec");;
                   agg_list <- agg_list_of triples;;
                   attrs <- new_Portfolio E kn n agg_list;;
                   o <- new_instance Portfolio attrs;;
                   setattr o "program" (VStr prog);;
                   ret o)
          else if String.eqb k "sev" then
            liftW (has_wt <- contains sp "sev_wt";;
                   mixed <- (if has_wt : bool
                             then wt <- subscript sp (KStr "sev_wt");;
                                  h <- gets heap;;
                                  of_result (differs_from_one h wt)
                             else ret false);;
                   if mixed : bool then
                     wt <- subscript sp (KStr "sev_wt");;
                     logger WARNING (Msg_mixed_severity wt);;
                     ret VNone
                   else
                     attrs <- new_Severity E sp;;
                     o <- new_instance Severity attrs;;
                     setattr o "program" (VStr prog);;
                     ret o)
          else if String.eqb k "distortion" then
            liftW (attrs <- new_Distortion E sp;;
                   o <- new_instance Distortion attrs;;
                   setattr o "program" (VStr prog);;
                   ret o)
          else
            (* ValueError(f'Cannot build {kind} objects') is constructed
               here and dropped: there is no raise statement *)
            ret obj);;
  (* answer['object'] = obj *)
  ret (MkAnswer k n sp prog obj).

(** Python refuses a call that gives one keyword twice. *)
Definition keyword_clash (explicit : list string)
    (kwargs : list (string * value)) : bool :=
  existsb (λ kv, bool_decide (kv.1 ∈ explicit)) kwargs.

(** [obj.update(...)]: attribute lookup on the object, then the external
    call. *)
Definition call_update (obj : value) (explicit : list (string * value))
    (log2 : Z) (bs : Q) (kwargs : list (string * value)) : M unit :=
  h <- gets (λ st, heap (world_of st));;
  match obj with
  | VRef l =>
      match h !! l with
      | Some (OInstance c _) =>
          if has_update c then
            if keyword_clash ("log2" :: "bs" :: explicit.*1) kwargs
            then raise (TypeError "got multiple values for keyword argument")
            else
              let args := UpdateArgs log2 bs (explicit ++ kwargs) in
              record_call (Call_update l args);;
              liftW (update E l args)
          else raise (AttributeError "update")
      | _ => raise (AttributeError "update")
      end
  | _ => raise (AttributeError "update")
  end.

(** [getattr(obj, 'update', None) is not None] *)
Definition has_update_method (h : gmap loc pyobj) (obj : value) : bool :=
  match obj with
  | VRef l =>
      match h !! l with
      | Some (OInstance c _) => has_update c
      | _ => false
      end
  | _ => false
  end.

(** [answer in irv], where [earlier] are the items of [irv] before
    [answer] itself: [in] goes through the list and stops at the first item
    that is [answer] or equals it.  The items before [answer] are compared
    with [==]; [answer] itself is found by identity. *)
Fixpoint answer_in (earlier : list Answer) (answer : Answer) : M bool :=
  match earlier with
  | [] => ret true
  | x :: rest =>
      h <- gets (λ st, heap (world_of st));;
      same <- of_result (answer_eq E h x answer);;
      if same : bool then ret true else answer_in rest answer
  end.

(** The loop of [write] over the interpreter's return value; [rv] holds
    the Answers of [irv] already gone through, which the factory has changed
    in place. *)
Fixpoint write_loop (irv rv : list Answer) (upd : bool) (log2 : Z) (bs : Q)
    (kwargs : list (string * value)) : M (list Answer) :=
  match irv with
  | [] => ret rv
  | answer :: rest =>
      answer <- factory answer;;
      found <- answer_in rv answer;;
      (if negb found then liftW (logger ERROR Msg_that_failed) else ret tt);;
      h <- gets (λ st, heap (world_of st));;
      (if negb (is_None (object answer)) && upd
          && has_update_method h (object answer)
       then call_update (object answer) [] log2 bs kwargs
       else ret tt);;
      write_loop rest (rv ++ [answer]) upd log2 bs kwargs
  end.

(** [Underwriter.write] *)
Definition write (portfolio_program : string) (log2 : Z) (bs : Q)
    (upd : option bool) (kwargs : list (string * value)) : M (list Answer) :=
  let upd := match upd with None => self_update self | Some b => b end in
  let log2 := if upd && (log2 =? 0)%Z then self_log2 self else log2 in
  found <- try_catch
             (kn <- gets knowledge;;
              answer <- of_result (__getitem__ (IStr portfolio_program) kn);;
              ret (Some answer))
             (λ e, if is_LookupError e || is_TypeError e
                   then liftW (logger DEBUG Msg_processing_as_program);;
                        ret None
                   else raise e);;
  match found with
  | Some answer =>
      liftW (logger DEBUG (Msg_object_found (kind answer)));;
      answer <- factory answer;;
      (if upd then call_update (object answer) [] log2 bs kwargs
       else ret tt);;
      ret [answer]
  | None =>
      irv <- interpret_program portfolio_program;;
      rv <- write_loop irv [] upd log2 bs kwargs;;
      (if bool_decide (length rv ≠ 0)
       then liftW (logger INFO (Msg_program_created (length rv)))
       else ret tt);;
      ret rv
  end.

(** [len(bin(z)) - 1] *)
Definition bin_length_minus_one (z : Z) : Z :=
  Z.of_nat (String.length (bin z)) - 1.

(** [len(bin(int(max_loss))) - 1] *)
Definition log2_of_max_loss (max_loss : number) : result Z :=
  match int_of max_loss with
  | Ok z => Ok (bin_length_minus_one z)
  | Raise e => Raise e
  end.

(** The estimate [max_loss] for a discrete severity, by frequency name. *)
Definition discrete_max_loss (d : value) : W number :=
  freq_name <- subscript d (KStr "freq_name");;
  h <- gets heap;;
  if eq_str freq_name "fixed" then
    sev_xs <- subscript d (KStr "sev_xs");;
    m <- of_result (np_max h sev_xs);;
    exp_en <- subscript d (KStr "exp_en");;
    en <- of_result (number_of exp_en);;
    of_result (mul m en)
  else if eq_str freq_name "empirical" then
    sev_xs <- subscript d (KStr "sev_xs");;
    m <- of_result (np_max h sev_xs);;
    freq_a <- subscript d (KStr "freq_a");;
    fa <- of_result (builtin_max h freq_a);;
    of_result (mul m fa)
  else
    (* normal approx on count *)
    sev_xs <- subscript d (KStr "sev_xs");;
    m <- of_result (np_max h sev_xs);;
    exp_en <- subscript d (KStr "exp_en");;
    en <- of_result (number_of exp_en);;
    p <- of_result (mul m en);;
    exp_en' <- subscript d (KStr "exp_en");;
    en' <- of_result (number_of exp_en');;
    root <- of_result (pow_half E en');;
    three <- of_result (mul (PyInt 3) root);;
    factor <- of_result (add (PyInt 1) three);;
    of_result (mul p factor).

(** [1 / bs_], evaluated while the log message is formatted. *)
Definition check_reciprocal (bs_ : Q) : W unit :=
  if Qeq_bool bs_ 0 then raise ZeroDivisionError else ret tt.

(** The values [(log2_, bs_)] build settles on for an Aggregate. *)
Definition aggregate_parameters (answer : Answer) (obj : loc) (log2 : Z)
    (bs : Q) : W (Z * Q) :=
  let d := spec answer in
  sev_name <- subscript d (KStr "sev_name");;
  if eq_str sev_name "dhistogram" && (log2 =? 0)%Z then
    max_loss <- discrete_max_loss d;;
    log2_ <- of_result (log2_of_max_loss max_loss);;
    logger INFO (Msg_discrete_mode (kind answer) (name answer));;
    ret (log2_, 1%Q)
  else
    let log2_ := if (log2 =? 0)%Z then self_log2 self else log2 in
    bs_ <- (if Qeq_bool bs 0
            then b <- recommend_bucket E obj log2_;; ret (round_bucket E b)
            else ret bs);;
    check_reciprocal bs_;;
    logger INFO (Msg_normal_mode (kind answer) (name answer) bs_ log2_);;
    ret (log2_, bs_).

(** The values [(log2_, bs_)] build settles on for a Portfolio. *)
Definition portfolio_parameters (answer : Answer) (obj : loc) (log2 : Z)
    (bs : Q) : W (Z * Q) :=
  let log2_ := if (log2 =? -1)%Z then 13%Z else log2 in
  bs_ <- (if Qeq_bool bs 0 then best_bucket E obj log2_ else ret bs);;
  check_reciprocal bs_;;
  logger INFO (Msg_port_updating log2 bs_);;
  logger INFO (Msg_port_params (kind answer) (name answer) bs_ log2_);;
  ret (log2_, bs_).

(** The [except ZeroDivisionError] and [except AttributeError] clauses
    around the Aggregate's update. *)
Definition update_failed (e : exn) : M unit :=
  match e with
  | ZeroDivisionError => liftW (logger ERROR (Msg_exception e))
  | AttributeError _ => liftW (logger ERROR (Msg_exception e))
  | _ => raise e
  end.

(** The keywords [build] itself gives to an Aggregate's and to a
    Portfolio's [update], next to [log2] and [bs]. *)
Definition aggregate_keywords : list (string * value) :=
  [("debug", VBool (self_debug self)); ("force_severity", VBool true)].

Definition portfolio_keywords : list (string * value) :=
  [("remove_fuzz", VBool true); ("force_severity", VBool true);
   ("debug", VBool (self_debug self))].

(** One round of the loop [for answer in rv] of [build]. *)
Definition build_one (answer : Answer) (upd : bool) (log2 : Z) (bs : Q)
    (kwargs : list (string * value)) : M unit :=
  h <- gets (λ st, heap (world_of st));;
  match object answer with
  | VNone =>
      liftW (logger INFO (Msg_returned_as_spec (name answer) (kind answer)))
  | VRef l =>
      let obj := VRef l in
      if isinstance h obj Aggregate && upd then
        p <- liftW (aggregate_parameters answer l log2 bs);;
        try_catch (call_update obj aggregate_keywords p.1 p.2 kwargs)
          update_failed
      else if isinstance h obj Severity then ret tt
      else if isinstance h obj Portfolio && upd then
        p <- liftW (portfolio_parameters answer l log2 bs);;
        call_update obj portfolio_keywords p.1 p.2 kwargs
      else if isinstance h obj Distortion then ret tt
      else if (isinstance h obj Aggregate || isinstance h obj Portfolio)
              && negb upd then ret tt
      else liftW (logger WARNING Msg_unexpected_kind)
  | _ => liftW (logger WARNING Msg_unexpected_kind)
  end.

Fixpoint build_loop (rv : list Answer) (upd : bool) (log2 : Z) (bs : Q)
    (kwargs : list (string * value)) : M unit :=
  match rv with
  | [] => ret tt
  | answer :: rest =>
      build_one answer upd log2 bs kwargs;;
      build_loop rest upd log2 bs kwargs
  end.

(** [answer] if it carries no object, else its object. *)
Definition object_or_answer (answer : Answer) : build_result :=
  if is_None (object answer) then BAnswer answer else BObject (object answer).

(** The counter [ports_found] after the loop over [rv]. *)
Definition ports_found (rv : list Answer) : nat :=
  length (filter (λ a, kind a = "port") rv).

(** The tail of [build]: choosing what to return.  After the counting loop
    the variable [answer] is bound to the last element of [rv]. *)
Definition collapse (rv : list Answer) : build_result :=
  match rv with
  | [answer] => object_or_answer answer
  | _ =>
      match last rv with
      | Some answer =>
          if bool_decide (ports_found rv = 1) then object_or_answer answer
          else BList rv
      | None => BList rv
      end
  end.

(** [Underwriter.build].  The [log_level] argument only changes which log
    records the handlers show and is left out. *)
Definition build (program : string) (upd : bool) (log2 : Z) (bs : Q)
    (kwargs : list (string * value)) : M build_result :=
  rv <- write program 0 0 (Some false) [("force_severity", VBool true)];;
  if bool_decide (length rv = 0) then
    liftW (logger WARNING Msg_no_output);;
    ret BNone
  else
    build_loop rv upd log2 bs kwargs;;
    ret (collapse rv).

End Underwriter.

(** ** Callers of [safe_lookup]

    The parser may go on to change the specification it was handed.  A change
    is an assignment or a deletion at a key, either directly on the value or
    on something reached from it through a path of subscripts. *)

Inductive mutation :=
| SetItem (path : list key) (k : key) (v : value)
| DelItem (path : list key) (k : key).

Fixpoint walk (target : value) (path : list key) : W value :=
  match path with
  | [] => ret target
  | k :: path' => (v <- subscript target k;; walk v path')%se
  end.

Definition mutate (target : value) (m : mutation) : W unit :=
  match m with
  | SetItem path k v => (t <- walk target path;; store_subscript t k v)%se
  | DelItem path k => (t <- walk target path;; delete_subscript t k)%se
  end.

Definition top_level (m : mutation) : Prop :=
  match m with
  | SetItem path _ _ | DelItem path _ => path = []
  end.

(** Run the mutations in order; one that raises is skipped over, as a caller
    that catches the exception would. *)
Fixpoint mutate_all (target : value) (ms : list mutation) (w : world) : world :=
  match ms with
  | [] => w
  | m :: ms' => mutate_all target ms' (mutate target m w).2
  end.

(** The specification stored under (kind, name), read out in full. *)
Definition stored_spec (fuel : nat) (kn : list row) (k n : string)
    (h : gmap loc pyobj) : option tree :=
  match __getitem__ (ITuple k n) kn with
  | Ok answer => snapshot fuel h (spec answer)
  | Raise _ => None
  end.

(** The knowledge after the record of [a] is stored. *)
Definition record_answer (kn : list row) (a : Answer) : list row :=
  loc_set (kind a) (name a) (spec a) (program a) kn.

(** The state [write] is in once the bare-name lookup has failed and the
    text is about to be interpreted as a program. *)
Definition shortcut_missed (st : state) : state :=
  State (knowledge st)
        (World (heap (world_of st))
               (log (world_of st) ++ [(DEBUG, Msg_processing_as_program)]))
        (calls st).

(** The state after [update] was called on [l] with [args] and left the
    world [w]. *)
Definition updated (st : state) (w : world) (l : loc) (args : update_args)
    : state :=
  State (knowledge st) w (calls st ++ [Call_update l args]).

(** The state [write] is in once the bare-name lookup has found [a] and
    the factory is about to be called on it. *)
Definition object_found (st : state) (a : Answer) : state :=
  State (knowledge st)
        (World (heap (world_of st))
               (log (world_of st) ++ [(DEBUG, Msg_object_found (kind a))]))
        (calls st).

(** What the factory logs about an Answer that already carries an object. *)
Definition surprise (obj : value) : list (level * log_msg) :=
  if is_None obj then [] else [(ERROR, Msg_surprising_obj)].

(** ** A small instance of the collaborators

    Enough of a lexer, parser and domain classes to run the methods on
    concrete programs.  A statement is [kind name] or [kind name ref] where
    [ref] is looked up through the callback; statements are separated by
    semicolons and empty ones are dropped. *)

Module Demo.

Definition new_dict (d : gmap string value) : W value :=
  λ w, let '(l, h) := alloc (heap w) (ODict d) in (Ok (VRef l), World h (log w)).

Definition new_list (vs : list value) : W value :=
  λ w, let '(l, h) := alloc (heap w) (OList vs) in (Ok (VRef l), World h (log w)).

Definition demo_preprocess (text : string) : list string :=
  filter (λ s, s ≠ EmptyString) (split_on ";" text).

Definition known_kind (k : string) : bool :=
  bool_decide (k ∈ ["agg"; "port"; "sev"; "distortion"; "expr"]).

Definition demo_parse (lookup : string → W value) (debug : bool)
    (line : string) : W (string * string * value) :=
  (match split_on " " line with
   | [k; n] =>
       if String.eqb k "port"
       then triples <- new_list [];;
            d <- new_dict {[ "spec" := triples ]};;
            ret (k, n, d)
       else if String.eqb k "agg"
       then d <- new_dict {[ "sev_name" := VStr "lognorm";
                             "freq_name" := VStr "poisson" ]};;
            ret (k, n, d)
       else if known_kind k
       then d <- new_dict ∅;; ret (k, n, d)
       else raise (ValueError_token "ID" k 0)
   | [k; n; ref] =>
       if known_kind k
       then d <- lookup ref;; ret (k, n, d)
       else raise (ValueError_token "ID" k 0)
   | _ => raise (ValueError_msg "syntax error")
   end)%se.

(** Every constructor records the spec it was built from. *)
Definition demo_new (sp : value) : W (gmap string value) :=
  ret {[ "spec" := sp ]}.

(** An [update] that starts work on the object and then fails with [e]
    for instances of the classes in [failing]. *)
Definition demo_update (failing : list pyclass) (e : exn) (l : loc)
    (args : update_args) : W unit :=
  λ w,
    match heap w !! l with
    | Some (OInstance c d) =>
        let w' := World (<[l := OInstance c (<["log2" := VInt (ua_log2 args)]> d)]>
                           (heap w)) (log w) in
        if bool_decide (c ∈ failing) then (Raise e, w')
        else (Ok tt,
              World (<[l := OInstance c (<["updated" := VBool true]>
                                          (<["log2" := VInt (ua_log2 args)]> d))]>
                       (heap w)) (log w))
    | _ => (Raise (AttributeError "update"), w)
    end.

(** Two Answers are equal when they agree on kind, name and program and
    hold the very same specification and object. *)
Definition value_is (v v' : value) : bool :=
  match v, v' with
  | VNone, VNone => true
  | VBool b, VBool b' => Bool.eqb b b'
  | VInt z, VInt z' => (z =? z')%Z
  | VStr s, VStr s' => String.eqb s s'
  | VRef l, VRef l' => Nat.eqb l l'
  | _, _ => false
  end.

Definition demo_answer_eq (h : gmap loc pyobj) (x y : Answer) : result bool :=
  Ok (String.eqb (kind x) (kind y) && String.eqb (name x) (name y)
      && value_is (spec x) (spec y) && String.eqb (program x) (program y)
      && value_is (object x) (object y)).

Definition demo (failing : list pyclass) (e : exn) : collaborators :=
  {| preprocess := demo_preprocess;
     parse := demo_parse;
     new_Aggregate := demo_new;
     new_Portfolio := λ _ _ agg_list, ret ∅;
     new_Severity := demo_new;
     new_Distortion := demo_new;
     recommend_bucket := λ _ _, ret (1 # 4)%Q;
     best_bucket := λ _ _, ret (1 # 2)%Q;
     round_bucket := λ q, q;
     update := demo_update failing e;
     pow_half := λ x, Ok x;
     answer_eq := demo_answer_eq |}.

Definition rory : config :=
  {| self_log2 := 10; self_debug := false; self_update := false |}.

Definition empty_state : state :=
  State [] (World ∅ []) [].

(** Y is known as a portfolio only. *)
Definition port_Y : list row := [Row "port" "Y" (VRef 0) "port Y"].
Definition port_Y_world : world := World {[ 0 := ODict ∅ ]} [].

(** X is known both as a severity and as an aggregate. *)
Definition two_X : list row :=
  [Row "sev" "X" (VRef 0) "sev X"; Row "agg" "X" (VRef 1) "agg X"].

(** X is a severity whose specification holds a list of outcomes. *)
Definition sev_X : list row := [Row "sev" "X" (VRef 0) "sev X"].
Definition sev_X_world : world :=
  World {[ 0 := ODict {[ "sev_xs" := VRef 1; "sev_wt" := VInt 1 ]};
           1 := OList [VInt 10; VInt 20; VInt 30] ]} [].

(** A severity specification with mixture weight one half. *)
Definition half_weight_state : state :=
  State [] (World {[ 0 := ODict {[ "sev_wt" := VFloat (b64 1 (-1)) ]} ]} []) [].

(** A severity specification whose mixture weights are the array
    [0.5, 0.5]. *)
Definition array_weight_state : state :=
  State []
        (World {[ 0 := ODict {[ "sev_wt" := VRef 1 ]};
                  1 := OArray (ArrFloat [b64 1 (-1); b64 1 (-1)]) ]} [])
        [].

(** D is an aggregate with outcomes 10, 20, 30 and a fixed count of 5;
    address 2 holds an Aggregate built from it. *)
Definition discrete_state : state :=
  State [Row "agg" "D" (VRef 0) "agg D 5 claims dsev [10 20 30] fixed"]
        (World {[ 0 := ODict {[ "sev_name" := VStr "dhistogram";
                                "freq_name" := VStr "fixed";
                                "sev_xs" := VRef 1;
                                "exp_en" := VInt 5 ]};
                  1 := OList [VInt 10; VInt 20; VInt 30];
                  2 := OInstance Aggregate ∅ ]} [])
        [].

Definition discrete_answer : Answer :=
  MkAnswer "agg" "D" (VRef 0) "agg D 5 claims dsev [10 20 30] fixed" (VRef 2).

End Demo.

(** ** Further notions used to state properties *)

(** How often [c] occurs in [s]. *)
Fixpoint count_char (c : ascii) (s : string) : nat :=
  match s with
  | EmptyString => 0
  | String c' s' => (if Ascii.eqb c' c then 1 else 0) + count_char c s'
  end.

(** The identifier an Answer is stored under. *)
Definition answer_key (a : Answer) : string * string := (kind a, name a).

(** The state after the first [j] of the statements [lines] have been
    interpreted, starting from [st]. *)
Definition after_statements (E : collaborators) (self : config)
    (lines : list string) (j : nat) (st : state) : state :=
  (interpret_lines E self (take j lines) [] st).2.

(** The last Answer of [rv] that was stored under (k, n). *)
Definition last_declared (k n : string) (rv : list Answer) : option Answer :=
  last (filter (λ a, (kind a, name a) = (k, n)) rv).

(** What the parser produced for an Answer, without the object. *)
Definition parsed (a : Answer) : string * string * value * string :=
  (kind a, name a, spec a, program a).

Definition is_update_call (c : ext_call) : Prop :=
  match c with
  | Call_update _ _ => True
  | Call_parse _ => False
  end.

(** [m] respects the relation [R] when every run of [m], returning or
    raising, takes a state to one related to it. *)
Definition respects {A} (R : state → state → Prop) (m : M A) : Prop :=
  ∀ st r st', m st = (r, st') → R st st'.

(** The knowledge is the same and the only new calls are update calls. *)
Definition same_store (st st' : state) : Prop :=
  knowledge st' = knowledge st
  ∧ ∃ cs, calls st' = calls st ++ cs ∧ Forall is_update_call cs.

(** Unique identifiers are kept. *)
Definition keeps_unique (st st' : state) : Prop :=
  unique_keys (knowledge st) → unique_keys (knowledge st').

(** A portfolio specification with one embedded aggregate triple. *)
Definition portfolio_state : state :=
  State [Row "port" "P" (VRef 0) "port P agg A"]
        (World {[ 0 := ODict {[ "spec" := VRef 1 ]};
                  1 := OList [VRef 2];
                  2 := OList [VStr "agg"; VStr "A"; VRef 3];
                  3 := ODict ∅ ]} [])
        [].

Definition two_built : list Answer :=
  [MkAnswer "sev" "A" (VRef 0) "sev A" (VRef 2);
   MkAnswer "agg" "B" (VRef 1) "agg B" (VRef 3)].

Import Demo.

(** Collaborators whose Aggregate update fails with a ValueError. *)
Definition failing_aggregate : collaborators :=
  demo [Aggregate] (ValueError_msg "degenerate").

(** The world after the parameters of [discrete_answer] are settled, and the
    arguments its update is then called with. *)
Definition discrete_world : world :=
  (aggregate_parameters failing_aggregate rory discrete_answer 2 0 0
     (world_of discrete_state)).2.

Definition discrete_args : update_args :=
  UpdateArgs 9 1 (aggregate_keywords rory ++ []).



(** A continuous aggregate and a portfolio, already built. *)
Definition built_state : state :=
  State [Row "agg" "A" (VRef 0) "agg A"; Row "port" "P" (VRef 2) "port P"]
        (World {[ 0 := ODict {[ "sev_name" := VStr "lognorm";
                                "freq_name" := VStr "poisson" ]};
                  1 := OInstance Aggregate ∅;
                  2 := ODict {[ "spec" := VRef 4 ]};
                  3 := OInstance Portfolio ∅;
                  4 := OList [] ]} [])
        [].

Definition built_aggregate : Answer :=
  MkAnswer "agg" "A" (VRef 0) "agg A" (VRef 1).

Definition built_portfolio : Answer :=
  MkAnswer "port" "P" (VRef 2) "port P" (VRef 3).

(** ** The interpreter test harness and the database loader

    [_interpreter_work], [interpreter_line], [interpreter_list],
    [read_database] and [__init__].  Their log records are kept in a list of
    their own next to the engine state; every record is stamped with the
    number of records the engine's log held when it was written, which fixes
    its place among them. *)

Inductive note :=
| Note_database_not_found (fn : string)
    (* read_database: 'Database {fn} not found. Ignoring.' *)
| Note_database_unreadable (name : string)
    (* read_database: 'Error reading requested database {db_path.name}. Ignoring.' *)
| Note_reading_database (fn : string)
    (* read_database: 'Reading database {fn}...' *)
| Note_database_read (fn : string) (n : Z)
    (* read_database: 'Database {fn} read into knowledge, adding {n} entries.' *)
| Note_multiline (program_in : string) (n : nat)
    (* _interpreter_work: '{program_in} preprocesses to {n} lines; not processing.' *)
| Note_lines (program : list string)
    (* _interpreter_work: logger.info(program) *)
| Note_blank (program_in : string)
    (* _interpreter_work: '{program_in} preprocesses to a blank line; ignoring.' *).

Record session := Session {
  engine : state;
  notes : list (nat * level * note);
}.

Definition X := SE session.

Definition liftM {A} (m : M A) : X A :=
  λ s, let '(r, st) := m (engine s) in (r, Session st (notes s)).

Definition note_log (lvl : level) (n : note) : X unit :=
  modify (λ s, Session (engine s)
                 (notes s ++ [(length (log (world_of (engine s))), lvl, n)])).

(** A program handed to the harness: a string, or a row whose first column
    is the program. *)
Inductive test_program :=
| Prog_str (s : string)
| Prog_row (cols : list string).

(** The key of a test: a name, or a position. *)
Inductive test_name :=
| Name_str (s : string)
| Name_int (i : nat).

Global Instance test_name_eq_dec : EqDecision test_name.
Proof. solve_decision. Defined.

(** One row of the DataFrame the harness returns: kind, error, name, output,
    preprocessed program, program. *)
Record test_row := TestRow {
  t_kind : string;
  t_error : nat;
  t_name : option string;
  t_output : value;
  t_preprocessed : string + list string;
  t_program : string;
}.

(** [d[k] = v] on a dict that keeps insertion order. *)
Fixpoint dict_set {K V} `{EqDecision K} (k : K) (v : V) (d : list (K * V))
    : list (K * V) :=
  match d with
  | [] => [(k, v)]
  | (k', v') :: d' =>
      if decide (k' = k) then (k, v) :: d' else (k', v') :: dict_set k v d'
  end.

(** [s.replace(c, '')] for a one-character [c]. *)
Fixpoint remove_char (c : ascii) (s : string) : string :=
  match s with
  | EmptyString => EmptyString
  | String c' s' =>
      if Ascii.eqb c' c then remove_char c s' else String c' (remove_char c s')
  end.

Definition tab : ascii := Ascii.ascii_of_nat 9.

(** The lambda [f] of [_interpreter_work]: 'same' when the two texts agree
    up to blanks (and tabs in the second), else the second text. *)
Definition same_or (x y : string) : string :=
  if String.eqb (remove_char " " x) (remove_char tab (remove_char " " y))
  then "same" else y.

(** The ASCII characters [str.split()] treats as white space. *)
Definition is_space (c : ascii) : bool :=
  let n := Ascii.nat_of_ascii c in
  ((9 <=? n) && (n <=? 13)) || ((28 <=? n) && (n <=? 32)).

Fixpoint take_word (s : string) : string :=
  match s with
  | EmptyString => EmptyString
  | String c s' => if is_space c then EmptyString else String c (take_word s')
  end.

(** [s.split()[0]]: the first word, if there is one. *)
Fixpoint first_word (s : string) : option string :=
  match s with
  | EmptyString => None
  | String c s' => if is_space c then first_word s' else Some (take_word s)
  end.

(** [getattr(e.args[0], 'index', 0)], replaced by 0 unless it is an int. *)
Definition error_index (e : exn) : nat :=
  match e with
  | ValueError_token _ _ i => i
  | _ => 0
  end.

(** Paths and files: [pathlib] and the file system behind it. *)
Record filesystem := Filesystem {
  (* Path(p).suffix *)
  suffix : string → string;
  (* Path(p).with_suffix(s) *)
  with_suffix : string → string → string;
  (* a / b *)
  joinpath : string → string → string;
  (* Path(p).name *)
  basename : string → string;
  (* Path(p).exists() *)
  path_exists : string → bool;
  (* Path(p).read_text(encoding='utf-8') *)
  read_text : string → result string;
  (* dir.glob(pattern) *)
  glob : string → string → list string;
  (* dir.mkdir(parents=True, exist_ok=True) *)
  mkdir : string → result unit;
  (* Path(__file__).parent / 'agg' *)
  the_default_dir : string;
  (* Path.home() / 'aggregate/databases' *)
  the_site_dir : string;
}.

Section Harness.
Variable E : collaborators.
Variable self : config.
Variable fs : filesystem.

Local Open Scope se_scope.

(** The body of the loop of [_interpreter_work] for one test: the row stored
    under the test's name.  The counters [errs] and [no_errs] are never read
    and are left out. *)
Definition interpreter_one (debug : bool) (program : test_program)
    : X test_row :=
  program_in <- match program with
                | Prog_str s => ret s
                | Prog_row (c :: _) => ret c
                | Prog_row [] => raise IndexError
                end;;
  match preprocess E program_in with
  | [program] =>
      liftM (record_call (Call_parse program));;
      outcome <- liftM (try_catch
                          (λ st, liftW (kns <- parse E (safe_lookup (knowledge st))
                                                debug program;;
                                        ret (inl kns)) st)
                          (λ e, if is_ValueError e || is_TypeError e
                                then ret (inr e) else raise e));;
      match outcome with
      | inl kns =>
          ret (TestRow kns.1.1 0 (Some kns.1.2) kns.2 (inl program)
                 (same_or program program_in))
      | inr e =>
          match first_word program with
          | Some kind =>
              let i := error_index e in
              let txt := String.substring 0 i program +:+ ">>>" +:+
                         String.substring i (String.length program - i)
                           program in
              ret (TestRow kind 1 (Some "parse error") (VStr txt) (inl program)
                     (same_or program program_in))
          | None => raise IndexError
          end
      end
  | [] =>
      note_log INFO (Note_blank program_in);;
      ret (TestRow "blank" 0 None VNone (inr []) program_in)
  | program =>
      note_log INFO (Note_multiline program_in (length program));;
      note_log INFO (Note_lines program);;
      ret (TestRow "multiline" 0 None VNone (inr program) program_in)
  end.

Fixpoint interpreter_loop (debug : bool)
    (iterable : list (test_name * test_program))
    (ans : list (test_name * test_row)) : X (list (test_name * test_row)) :=
  match iterable with
  | [] => ret ans
  | (test_name, program) :: rest =>
      row <- interpreter_one debug program;;
      interpreter_loop debug rest (dict_set test_name row ans)
  end.

(** [Underwriter._interpreter_work]: the rows of the returned DataFrame, in
    order. *)
Definition _interpreter_work (iterable : list (test_name * test_program))
    (debug : bool) : X (list (test_name * test_row)) :=
  interpreter_loop debug iterable [].

(** [Underwriter.interpreter_line] *)
Definition interpreter_line (program : test_program) (name : test_name)
    (debug : bool) : X (list (test_name * test_row)) :=
  _interpreter_work [(name, program)] debug.

(** [Underwriter.interpreter_list]: the tests are keyed by position. *)
Definition interpreter_list (program_list : list test_program)
    : X (list (test_name * test_row)) :=
  _interpreter_work (imap (λ i p, (Name_int i, p)) program_list) true.

(** [Underwriter.read_database] *)
Definition read_database (fn : string) : X unit :=
  let p := fn in
  let p := if String.eqb (suffix fs p) EmptyString
           then with_suffix fs p ".agg" else p in
  let found :=
    if path_exists fs p then Some p
    else if path_exists fs (joinpath fs (the_site_dir fs) p)
         then Some (joinpath fs (the_site_dir fs) fn)
    else if path_exists fs (joinpath fs (the_default_dir fs) p)
         then Some (joinpath fs (the_default_dir fs) p)
    else None in
  match found with
  | None => note_log ERROR (Note_database_not_found fn)
  | Some db_path =>
      match read_text fs db_path with
      | Raise _ =>
          note_log ERROR (Note_database_unreadable (basename fs db_path))
      | Ok program =>
          note_log INFO (Note_reading_database fn);;
          n <- gets (λ s, length (knowledge (engine s)));;
          liftM (interpret_program E self program);;
          n' <- gets (λ s, length (knowledge (engine s)));;
          note_log INFO (Note_database_read fn (Z.of_nat n' - Z.of_nat n))
      end
  end.

Fixpoint read_databases (fns : list string) : X unit :=
  match fns with
  | [] => ret tt
  | fn :: rest => read_database fn;; read_databases rest
  end.
End Harness.

(** The [databases] argument of the constructor. *)
Inductive databases_arg :=
| Databases_none
| Databases_str (s : string)
| Databases_list (l : list string).

(** [l.remove(x)] when [x] is in [l]: the first occurrence goes. *)
Fixpoint remove_first (x : string) (l : list string) : list string :=
  match l with
  | [] => []
  | y :: l' => if String.eqb y x then l' else y :: remove_first x l'
  end.

Definition contains_str (x : string) (l : list string) : bool :=
  existsb (String.eqb x) l.

(** The state of an Underwriter whose constructor has just created the empty
    knowledge. *)
Definition new_session : session :=
  Session (State [] (World ∅ []) []) [].

(** [Underwriter.__init__]: the settings of the new instance and the state
    it starts in, or the exception that leaves the constructor. *)
Definition __init__ (E : collaborators) (fs : filesystem) (name : string)
    (databases : databases_arg) (update : bool) (log2 : Z) (debug : bool)
    : result (string * config) * session :=
  if (log2 <=? 0)%Z
  then (Raise (ValueError_msg
                 "log2 must be > 0. The number of buckets used equals 2**log2."),
        new_session)
  else
    let self := Config log2 debug update in
    let databases :=
      match databases with
      | Databases_str s =>
          if String.eqb s "all" then ["default"; "site"] else [s]
      | Databases_list l => l
      | Databases_none => []
      end in
    (mkdir_done <- of_result (mkdir fs (the_site_dir fs));;
     databases <- (if contains_str "default" databases
                   then let databases := remove_first "default" databases in
                        read_databases E self fs
                          (glob fs (the_default_dir fs) "*.agg");;
                        ret databases
                   else ret databases);;
     let databases :=
       if contains_str "site" databases
       then remove_first "site" databases ++ glob fs (the_site_dir fs) "*.agg"
       else databases in
     read_databases E self fs databases;;
     ret (name, self))%se new_session.

(** A small file system: one database in the installation directory, one in
    the user's directory, and one in the user's directory that cannot be
    decoded. *)
Definition demo_fs : filesystem :=
  {| suffix := λ p, if has_char dot p then ".agg" else EmptyString;
     with_suffix := λ p s, p +:+ s;
     joinpath := λ a b, a +:+ "/" +:+ b;
     basename := λ p, List.last (split_on "/" p) p;
     path_exists := λ p, bool_decide (p ∈ ["agg/test_suite.agg";
                                           "home/mine.agg"; "home/broken.agg"]);
     read_text := λ p,
       if String.eqb p "agg/test_suite.agg" then Ok "sev One;agg A"
       else if String.eqb p "home/mine.agg" then Ok "agg A;port P"
       else Raise (OtherError "FileNotFoundError");
     glob := λ d pat,
       if String.eqb d "agg" then ["agg/test_suite.agg"]
       else if String.eqb d "home" then ["home/mine.agg"]
       else [];
     mkdir := λ _, Ok tt;
     the_default_dir := "agg";
     the_site_dir := "home" |}.

Definition three_tests : list test_program :=
  [Prog_str "sev A"; Prog_str "bad B"; Prog_str ";;"].

Definition empty_session : session := Session empty_state [].

Definition two_loaded : list Answer :=
  [MkAnswer "sev" "One" (VRef 0) "sev One" VNone;
   MkAnswer "agg" "A" (VRef 1) "agg A" VNone].

(** * Properties *)

Import Demo.

(** * The KnowledgeStore *)

Section KnowledgeStore.
Implicit Types (kn : list row) (r : row) (k n : string).

Lemma filter_key_none kn k n :
  (k, n) ∉ row_key <$> kn → filter (λ r, row_key r = (k, n)) kn = [].
Proof.
  induction kn as [|x kn IH]; [done|].
  rewrite fmap_cons, not_elem_of_cons. intros [Hx Hkn].
  rewrite filter_cons_False by congruence. auto.
Qed.

Lemma filter_key_unique kn r :
  unique_keys kn → r ∈ kn → filter (λ r', row_key r' = row_key r) kn = [r].
Proof.
  unfold unique_keys.
  induction kn as [|x kn IH]; intros Hnd Hin; [by apply elem_of_nil in Hin|].
  rewrite fmap_cons in Hnd. apply NoDup_cons in Hnd as [Hx Hnd].
  destruct (decide (row_key x = row_key r)) as [Heq|Hne].
  - assert (r = x) as ->.
    { apply elem_of_cons in Hin as [?|Hin]; [done|].
      exfalso. apply Hx. rewrite Heq. by apply list_elem_of_fmap_2. }
    rewrite filter_cons_True by done.
    f_equal. destruct (row_key x) as [k n] eqn:Hk. by apply filter_key_none.
  - rewrite filter_cons_False by done.
    apply elem_of_cons in Hin as [->|Hin]; [done|]. auto.
Qed.

Lemma two_distinct_members {A} (l : list A) (x y : A) :
  x ∈ l → y ∈ l → x ≠ y → 2 ≤ length l.
Proof.
  destruct l as [|a [|b l]]; simpl; intros Hx Hy Hne; try lia.
  - by apply elem_of_nil in Hx.
  - apply list_elem_of_singleton in Hx, Hy. congruence.
Qed.

(** Looking up a (kind, name) tuple that heads no row is a KeyError. *)
Lemma getitem_tuple_absent kn k n :
  (k, n) ∉ row_key <$> kn →
  __getitem__ (ITuple k n) kn = Raise (KeyError_not_found (ITuple k n)).
Proof.
  intros H. unfold __getitem__, loc_rows. by rewrite filter_key_none.
Qed.

(** With unique keys, a stored row is what its (kind, name) finds. *)
Lemma getitem_tuple_stored kn r :
  unique_keys kn → r ∈ kn →
  __getitem__ (ITuple (row_kind r) (row_name r)) kn = Ok (answer_of_row r).
Proof.
  intros Hu Hin. unfold __getitem__, loc_rows.
  change (row_kind r, row_name r) with (row_key r).
  by rewrite filter_key_unique.
Qed.

(** Whatever a tuple lookup returns carries the kind and name asked for. *)
Lemma getitem_tuple_kind kn k n a :
  __getitem__ (ITuple k n) kn = Ok a → kind a = k ∧ name a = n ∧
    ∃ r, r ∈ kn ∧ a = answer_of_row r.
Proof.
  unfold __getitem__, loc_rows.
  destruct (filter _ kn) as [|r [|r' rows]] eqn:Hf; simpl; try discriminate.
  intros [= <-].
  assert (r ∈ filter (λ r, row_key r = (k, n)) kn) as Hin
    by (rewrite Hf; apply list_elem_of_here).
  apply list_elem_of_filter in Hin as [Hk Hin].
  unfold row_key in Hk. injection Hk as <- <-. eauto.
Qed.

(** A failed bare-name lookup is always a LookupError. *)
Lemma getitem_name_raises kn n e :
  __getitem__ (IStr n) kn = Raise e → is_LookupError e = true.
Proof.
  unfold __getitem__, xs.
  destruct (filter _ kn) as [|r [|r' rows]]; simpl; by intros [= <-].
Qed.

(** The knowledge of a new Underwriter is empty, and every assignment
    through [loc] keeps the keys unique. *)
Lemma unique_keys_nil : unique_keys [].
Proof. apply NoDup_nil_2. Qed.

Lemma loc_set_unique_keys kn k n sp prog :
  unique_keys kn → unique_keys (loc_set k n sp prog kn).
Proof.
  unfold unique_keys, loc_set. intros Hnd. case_bool_decide as Hex.
  - rewrite <- list_fmap_compose.
    erewrite list_fmap_ext; [exact Hnd|].
    intros i x _. simpl. by case_decide.
  - rewrite fmap_app. apply NoDup_app. split_and!; [done| |apply NoDup_singleton].
    intros key Hkey. simpl. rewrite list_elem_of_singleton. intros ->.
    apply Hex, Exists_exists. apply list_elem_of_fmap_1 in Hkey as (r & ? & ?).
    eauto.
Qed.

(** After the assignment the tuple finds the new record. *)
Lemma getitem_loc_set kn k n sp prog :
  unique_keys kn →
  __getitem__ (ITuple k n) (loc_set k n sp prog kn)
  = Ok (MkAnswer k n sp prog VNone).
Proof.
  intros Hu.
  assert (Row k n sp prog ∈ loc_set k n sp prog kn) as Hin.
  { unfold loc_set. case_bool_decide as Hex.
    - apply Exists_exists in Hex as (r & Hr & Hk).
      apply list_elem_of_fmap. exists r. split; [|done]. by rewrite decide_True.
    - apply elem_of_app. right. apply list_elem_of_here. }
  apply (getitem_tuple_stored _ _ (loc_set_unique_keys _ k n sp prog Hu)) in Hin.
  exact Hin.
Qed.
End KnowledgeStore.

Section StoreMore.
Implicit Types (kn : list row) (r : row) (k n : string).

Lemma filter_key_loc_set_other kn k n sp prog k' n' :
  (k', n') ≠ (k, n) →
  filter (λ r, row_key r = (k', n')) (loc_set k n sp prog kn)
  = filter (λ r, row_key r = (k', n')) kn.
Proof.
  intros Hne. unfold loc_set. case_bool_decide as Hex.
  - clear Hex. induction kn as [|x kn IH]; [done|].
    rewrite fmap_cons. destruct (decide (row_key x = (k, n))) as [Hx|Hx].
    + rewrite !filter_cons_False
        by (unfold row_key in *; simpl in *; congruence).
      exact IH.
    + rewrite !filter_cons. destruct (decide (row_key x = (k', n'))); by rewrite IH.
  - rewrite filter_app.
    rewrite (filter_cons_False _ (Row k n sp prog))
      by (unfold row_key; simpl; congruence).
    by rewrite filter_nil, app_nil_r.
Qed.

(** Storing under one identifier does not change what any other identifier
    finds. *)
Lemma getitem_loc_set_other kn k n sp prog k' n' :
  (k', n') ≠ (k, n) →
  __getitem__ (ITuple k' n') (loc_set k n sp prog kn)
  = __getitem__ (ITuple k' n') kn.
Proof.
  intros Hne. unfold __getitem__, loc_rows.
  by rewrite filter_key_loc_set_other.
Qed.

Lemma loc_set_keys kn k n sp prog :
  row_key <$> loc_set k n sp prog kn
  = if bool_decide ((k, n) ∈ row_key <$> kn) then row_key <$> kn
    else (row_key <$> kn) ++ [(k, n)].
Proof.
  unfold loc_set. case_bool_decide as Hex.
  - rewrite bool_decide_true.
    + rewrite <- list_fmap_compose. apply list_fmap_ext.
      intros i x _. simpl. by case_decide.
    + apply Exists_exists in Hex as (r & Hr & <-). by apply list_elem_of_fmap_2.
  - rewrite bool_decide_false; [by rewrite fmap_app|].
    intros (r & Hk & Hr)%list_elem_of_fmap_1. apply Hex, Exists_exists. eauto.
Qed.
Lemma length_loc_set kn k n sp prog :
  length kn ≤ length (loc_set k n sp prog kn) ≤ S (length kn).
Proof.
  rewrite <- (length_fmap row_key (loc_set _ _ _ _ _)), loc_set_keys.
  case_bool_decide; rewrite ?length_app, length_fmap; simpl; lia.
Qed.

Lemma length_foldl_record (rv : list Answer) (kn : list row) :
  length kn ≤ length (foldl record_answer kn rv) ≤ length kn + length rv.
Proof.
  revert kn. induction rv as [|a rv IH]; intros kn; simpl; [lia|].
  pose proof (IH (record_answer kn a)) as H1.
  pose proof (length_loc_set kn (kind a) (name a) (spec a) (program a)) as H2.
  unfold record_answer in *. lia.
Qed.
End StoreMore.

Section Split.
Lemma split_on_no_sep sep s :
  has_char sep s = false → split_on sep s = [s].
Proof.
  induction s as [|c s IH]; simpl; [done|].
  intros [Hc Hs]%orb_false_elim. rewrite Hc, IH; done.
Qed.

Lemma split_on_app sep k n :
  has_char sep k = false →
  split_on sep (k +:+ String sep n) = k :: split_on sep n.
Proof.
  induction k as [|c k IH]; simpl.
  - intros _. by rewrite Ascii.eqb_refl.
  - intros [Hc Hk]%orb_false_elim. rewrite Hc, IH; done.
Qed.

(** A well-formed reference splits into its kind and its name. *)
Lemma split_reference k n :
  has_char dot k = false → has_char dot n = false →
  split_on dot (k +:+ "." +:+ n) = [k; n].
Proof.
  intros Hk Hn. change ("." +:+ n) with (String dot n).
  by rewrite split_on_app, split_on_no_sep.
Qed.
End Split.

Section SafeLookup.
Implicit Types (kn : list row) (w : world).

(** What [safe_lookup] does once the reference is split. *)
Lemma safe_lookup_absent kn k n buildinid w :
  split_on dot buildinid = [k; n] →
  (k, n) ∉ row_key <$> kn →
  safe_lookup kn buildinid w
  = (Raise (KeyError_not_found (ITuple k n)),
     World (heap w) (log w ++ [(ERROR, Msg_id_not_found k n)])).
Proof.
  intros Hs Habs. unfold safe_lookup. rewrite Hs.
  unfold bind, try_catch, of_result. by rewrite getitem_tuple_absent.
Qed.

Lemma safe_lookup_found kn k n buildinid a w :
  split_on dot buildinid = [k; n] →
  __getitem__ (ITuple k n) kn = Ok a →
  safe_lookup kn buildinid w
  = copy (spec a)
      (World (heap w) (log w ++ [(DEBUG, Msg_retrieved k n (kind a) (name a))])).
Proof.
  intros Hs Hget. unfold safe_lookup. rewrite Hs.
  destruct (getitem_tuple_kind _ _ _ _ Hget) as (Hk & _ & _).
  unfold bind, try_catch, of_result. rewrite Hget. simpl.
  rewrite bool_decide_false by (by intros ?). done.
Qed.

(** The three ways a lookup can end. *)
Lemma safe_lookup_cases kn buildinid w :
  (∃ k n, split_on dot buildinid = [k; n] ∧
     ((k, n) ∉ row_key <$> kn ∨
      (∃ found, 2 ≤ found ∧
         __getitem__ (ITuple k n) kn = Raise (KeyError_not_unique (ITuple k n) found)) ∨
      ∃ a, __getitem__ (ITuple k n) kn = Ok a))
  ∨ (safe_lookup kn buildinid w
     = (Raise (ValueError_unpack (length (split_on dot buildinid))), w)).
Proof.
  destruct (split_on dot buildinid) as [|k [|n [|x parts]]] eqn:Hs;
    unfold safe_lookup; rewrite ?Hs; try (by right).
  left. exists k, n. split; [done|].
  unfold __getitem__, loc_rows.
  destruct (filter _ kn) as [|r [|r' rows]] eqn:Hf; simpl.
  - left. intros (r & Hk & Hr)%list_elem_of_fmap_1.
    assert (r ∈ filter (λ r, row_key r = (k, n)) kn) as Hin
      by (by apply list_elem_of_filter).
    rewrite Hf in Hin. by apply elem_of_nil in Hin.
  - right; right. eauto.
  - right; left. exists (S (S (length rows))). split; [lia|done].
Qed.

(** The kind check of [safe_lookup] can never fire: the row was found
    under the very kind that is compared. *)
Lemma safe_lookup_never_kind_error kn buildinid w e w' :
  safe_lookup kn buildinid w = (Raise e, w') →
  ∀ n fk k, e ≠ ValueError_kind n fk k.
Proof.
  intros Hrun n0 fk k0 ->.
  unfold safe_lookup in Hrun.
  destruct (split_on dot buildinid) as [|k [|n [|x parts]]] eqn:Hs;
    try (by inversion Hrun).
  unfold bind, try_catch, of_result in Hrun.
  destruct (__getitem__ (ITuple k n) kn) as [a|e] eqn:Hget.
  - destruct (getitem_tuple_kind _ _ _ _ Hget) as (Hk & _ & _).
    simpl in Hrun. rewrite bool_decide_false in Hrun by (by intros ?).
    unfold copy in Hrun.
    repeat case_match; simplify_eq.
  - unfold __getitem__, loc_rows in Hget.
    repeat case_match; simplify_eq; simpl in Hrun; by inversion Hrun.
Qed.
End SafeLookup.

(** C3 (as amended): when the name [n] is stored only under kinds other than
    [k], resolving the reference "k.n" raises the KeyError of a missing item
    (and logs it); it returns nothing, so nothing stored under another kind
    is substituted.  The kind check that would raise the mismatch ValueError
    is never reached. *)
Theorem safe_lookup_other_kind_not_found (kn : list row) (k n : string) (w : world) :
  has_char dot k = false → has_char dot n = false →
  (∃ r, r ∈ kn ∧ row_name r = n ∧ row_kind r ≠ k) →
  (∀ r, r ∈ kn → row_name r = n → row_kind r ≠ k) →
  safe_lookup kn (k +:+ "." +:+ n) w
  = (Raise (KeyError_not_found (ITuple k n)),
     World (heap w) (log w ++ [(ERROR, Msg_id_not_found k n)])).
Proof.
  intros Hk Hn _ Honly.
  apply safe_lookup_absent; [by apply split_reference|].
  intros (r & Hkey & Hr)%list_elem_of_fmap_1.
  unfold row_key in Hkey. injection Hkey as Hk' Hn'.
  by apply (Honly r).
Qed.

Lemma safe_lookup_other_kind_not_found_witness :
  safe_lookup port_Y ("agg" +:+ "." +:+ "Y") port_Y_world
  = (Raise (KeyError_not_found (ITuple "agg" "Y")),
     World (heap port_Y_world)
           (log port_Y_world ++ [(ERROR, Msg_id_not_found "agg" "Y")])).
Proof.
  apply safe_lookup_other_kind_not_found.
  - reflexivity.
  - reflexivity.
  - exists (Row "port" "Y" (VRef 0) "port Y"). split_and!; [apply list_elem_of_here|done|done].
  - intros r Hr%list_elem_of_singleton _. subst r. done.
Defined.

(** C3, the claim as written fails: with Y stored only as a portfolio, the
    reference agg.Y does raise, but the exception is the KeyError of a
    missing item, not the ValueError that reports a kind mismatch. *)
Lemma safe_lookup_kind_mismatch_counterexample :
  ∃ e w', safe_lookup port_Y "agg.Y" port_Y_world = (Raise e, w')
          ∧ is_LookupError e = true
          ∧ is_ValueError e = false
          ∧ ∀ fk, e ≠ ValueError_kind "Y" fk "agg".
Proof.
  eexists _, _. split_and!; [vm_compute; reflexivity|done|done|done].
Qed.

(** C9: when a name is stored under more than one kind, the bare-name lookup
    raises the KeyError "no unique object found" (it reports how many rows
    carry the name and picks none), while the lookup by (kind, name) with any
    kind the name is stored under returns that kind's record: an Answer with
    that kind, the name, the specification and the program stored in the row,
    and no object. *)
Theorem getitem_ambiguous_name (kn : list row) (n : string) (r1 r2 : row) :
  unique_keys kn →
  r1 ∈ kn → r2 ∈ kn → row_name r1 = n → row_name r2 = n →
  row_kind r1 ≠ row_kind r2 →
  (2 ≤ length (filter (λ r, row_name r = n) kn)
   ∧ __getitem__ (IStr n) kn
     = Raise (KeyError_not_unique (IStr n)
                (length (filter (λ r, row_name r = n) kn))))
  ∧ ∀ k sp prog, Row k n sp prog ∈ kn →
      __getitem__ (ITuple k n) kn = Ok (MkAnswer k n sp prog VNone).
Proof.
  intros Hu H1 H2 Hn1 Hn2 Hne. split.
  - assert (2 ≤ length (filter (λ r, row_name r = n) kn)) as Hlen.
    { apply (two_distinct_members _ r1 r2); [| |congruence];
        apply list_elem_of_filter; done. }
    split; [done|]. unfold __getitem__, xs.
    destruct (filter _ kn) as [|a [|b rows]]; simpl in *; try lia. done.
  - intros k sp prog Hr.
    exact (getitem_tuple_stored kn (Row k n sp prog) Hu Hr).
Qed.

Lemma getitem_ambiguous_name_witness :
  (2 ≤ 2
   ∧ __getitem__ (IStr "X") two_X = Raise (KeyError_not_unique (IStr "X") 2))
  ∧ __getitem__ (ITuple "sev" "X") two_X
    = Ok (MkAnswer "sev" "X" (VRef 0) "sev X" VNone)
  ∧ __getitem__ (ITuple "agg" "X") two_X
    = Ok (MkAnswer "agg" "X" (VRef 1) "agg X" VNone).
Proof.
  assert (unique_keys two_X) as Hu.
  { unfold unique_keys. apply (bool_decide_unpack (NoDup _)). vm_compute.
    exact I. }
  destruct (getitem_ambiguous_name two_X "X"
              (Row "sev" "X" (VRef 0) "sev X") (Row "agg" "X" (VRef 1) "agg X")
              Hu (list_elem_of_here _ _)
              (list_elem_of_further _ _ _ (list_elem_of_here _ _))
              eq_refl eq_refl ltac:(discriminate)) as [Hname Htuple].
  split; [exact Hname|]. split.
  - apply Htuple, list_elem_of_here.
  - apply Htuple, list_elem_of_further, list_elem_of_here.
Defined.


Section Heap.
Implicit Types (h : gmap loc pyobj) (w : world) (v : value).

Lemma mapM_mono {A B} (f g : A → option B) (l : list A) (k : list B) :
  (∀ x y, f x = Some y → g x = Some y) →
  mapM f l = Some k → mapM g l = Some k.
Proof.
  intros Hfg. rewrite !mapM_Some. intros H.
  eapply Forall2_impl; [exact H|]. auto.
Qed.

(** Reading a value out of a larger heap gives the same tree. *)
Lemma snapshot_mono fuel h h' v t :
  h ⊆ h' → snapshot fuel h v = Some t → snapshot fuel h' v = Some t.
Proof.
  intros Hsub. revert v t.
  induction fuel as [|fuel IH]; intros v t; destruct v as [| | | | |l]; simpl;
    try done.
  destruct (h !! l) as [o|] eqn:Hl; [|done].
  rewrite (lookup_weaken _ _ _ _ Hl Hsub).
  destruct o; [| | |done]; intros (k & Hk & ->)%fmap_Some.
  - erewrite mapM_mono; [done| |exact Hk].
    intros [s x] y. simpl. destruct (snapshot fuel h x) eqn:Hx; [|done].
    by rewrite (IH _ _ Hx).
  - erewrite mapM_mono; [done| |exact Hk]. apply IH.
  - erewrite mapM_mono; [done| |exact Hk].
    intros [s x] y. simpl. destruct (snapshot fuel h x) eqn:Hx; [|done].
    by rewrite (IH _ _ Hx).
Qed.

Lemma alloc_fresh h o l h' :
  alloc h o = (l, h') → h !! l = None ∧ h' = <[l := o]> h.
Proof.
  unfold alloc. intros [= <- <-]. split; [|done].
  apply not_elem_of_dom, is_fresh.
Qed.

(** [copy] allocates: the result is a new address holding the same items,
    and nothing else moves. *)
Lemma copy_ok v w v' w' :
  copy v w = (Ok v', w') →
  ∃ l l' o, v = VRef l ∧ v' = VRef l' ∧ heap w !! l = Some o ∧
    heap w !! l' = None ∧ heap w' = <[l' := o]> (heap w) ∧ log w' = log w.
Proof.
  unfold copy. destruct v as [| | | | |l]; try (by inversion 1).
  destruct (heap w !! l) as [[d|xs|c d|a]|] eqn:Hl; try (by inversion 1).
  - destruct (alloc (heap w) (ODict d)) as [l' h'] eqn:Ha.
    apply alloc_fresh in Ha as [Hf ->]. intros [= <- <-].
    exists l, l', (ODict d). done.
  - destruct (alloc (heap w) (OList xs)) as [l' h'] eqn:Ha.
    apply alloc_fresh in Ha as [Hf ->]. intros [= <- <-].
    exists l, l', (OList xs). done.
  - destruct (alloc (heap w) (OArray a)) as [l' h'] eqn:Ha.
    apply alloc_fresh in Ha as [Hf ->]. intros [= <- <-].
    exists l, l', (OArray a). done.
Qed.

(** Every item of an object can be read from its copy, and it is the same
    value: a reference among the items leads to the same nested object. *)
Lemma subscript_copy h l l' o key x lg lg' :
  h !! l = Some o → h !! l' = None →
  subscript (VRef l) key (World h lg) = (Ok x, World h lg) →
  subscript (VRef l') key (World (<[l' := o]> h) lg')
  = (Ok x, World (<[l' := o]> h) lg').
Proof.
  intros Hl Hl'. unfold subscript. simpl. rewrite Hl, lookup_insert_eq.
  destruct o as [d|xs|c d|a], key as [s|i]; try (by inversion 1).
  - destruct (d !! s); by inversion 1.
  - destruct (xs !! i); by inversion 1.
  - destruct (array_items a !! i); by inversion 1.
Qed.

(** An assignment or deletion made directly on the object at [l'] leaves
    every other address alone. *)
Lemma top_level_mutation_frame l' m w l :
  top_level m → l ≠ l' →
  heap (mutate (VRef l') m w).2 !! l = heap w !! l.
Proof.
  intros Htop Hne. destruct m as [path k v|path k]; simpl in Htop; subst path;
    unfold mutate, walk, bind, ret, store_subscript, delete_subscript;
    repeat case_match; simplify_eq; simpl; try done;
    by rewrite lookup_insert_ne.
Qed.

Lemma top_level_mutations_frame l' ms w l :
  Forall top_level ms → l ≠ l' →
  heap (mutate_all (VRef l') ms w) !! l = heap w !! l.
Proof.
  intros Htop Hne. revert w.
  induction Htop as [|m ms Hm _ IH]; intros w; simpl; [done|].
  rewrite IH. by apply top_level_mutation_frame.
Qed.
End Heap.

(** C1 (as amended): [safe_lookup] hands out a new object, at an address
    that was free, with the same items as the stored specification (a copy
    one level deep): the heap after the lookup is the heap before it plus
    that one object, every item of the stored specification is read from the
    returned value as the very same value, and so a nested object among the
    items is the stored one, not a copy.  Whatever the caller then assigns or
    deletes directly on the returned value, every object that was on the heap
    before the lookup is untouched, so the lookup by (kind, name) still finds
    the same Answer and its specification reads exactly as it did before. *)
Theorem safe_lookup_top_level_isolation (kn : list row) (buildinid : string)
    (w w1 : world) (v : value) :
  safe_lookup kn buildinid w = (Ok v, w1) →
  ∃ k n a l l' o,
    split_on dot buildinid = [k; n]
    ∧ __getitem__ (ITuple k n) kn = Ok a
    ∧ spec a = VRef l ∧ heap w !! l = Some o
    ∧ v = VRef l' ∧ heap w !! l' = None
    ∧ heap w1 = <[l' := o]> (heap w)
    ∧ (∀ key x, subscript (spec a) key w = (Ok x, w) →
         subscript v key w1 = (Ok x, w1))
    ∧ ∀ ms, Forall top_level ms →
        heap w ⊆ heap (mutate_all v ms w1)
        ∧ ∀ fuel t, stored_spec fuel kn k n (heap w) = Some t →
            stored_spec fuel kn k n (heap (mutate_all v ms w1)) = Some t.
Proof.
  intros Hrun.
  destruct (safe_lookup_cases kn buildinid w) as [(k & n & Hs & Hcase)|Hbad];
    [|rewrite Hbad in Hrun; by inversion Hrun].
  destruct Hcase as [Habs|[(found & _ & Hamb)|(a & Hget)]].
  - rewrite (safe_lookup_absent _ _ _ _ _ Hs Habs) in Hrun. by inversion Hrun.
  - unfold safe_lookup in Hrun. rewrite Hs in Hrun.
    unfold bind, try_catch, of_result in Hrun. rewrite Hamb in Hrun.
    by inversion Hrun.
  - rewrite (safe_lookup_found _ _ _ _ _ _ Hs Hget) in Hrun.
    apply copy_ok in Hrun as (l & l' & o & Hsp & -> & Hl & Hfresh & Hh1 & Hlog).
    simpl in Hl, Hfresh, Hh1, Hlog.
    exists k, n, a, l, l', o. split_and!; try done.
    { intros key x Hread. rewrite Hsp in Hread.
      destruct w as [h lg], w1 as [h1 lg1]. simpl in *. subst h1.
      by apply (subscript_copy h l l' o key x lg). }
    intros ms Hms.
    assert (heap w ⊆ heap (mutate_all (VRef l') ms w1)) as Hsub.
    { apply map_subseteq_spec. intros i x Hi.
      assert (i ≠ l') by (intros ->; congruence).
      rewrite top_level_mutations_frame, Hh1 by done.
      by rewrite lookup_insert_ne. }
    split; [done|].
    intros fuel t. unfold stored_spec. rewrite Hget.
    by apply snapshot_mono.
Qed.

Lemma safe_lookup_top_level_isolation_witness :
  ∃ k n a l l' o,
    split_on dot "sev.X" = [k; n]
    ∧ __getitem__ (ITuple k n) sev_X = Ok a
    ∧ spec a = VRef l ∧ heap sev_X_world !! l = Some o
    ∧ VRef 2 = VRef l' ∧ heap sev_X_world !! l' = None
    ∧ heap (safe_lookup sev_X "sev.X" sev_X_world).2
      = <[l' := o]> (heap sev_X_world)
    ∧ (∀ key x, subscript (spec a) key sev_X_world = (Ok x, sev_X_world) →
         subscript (VRef 2) key (safe_lookup sev_X "sev.X" sev_X_world).2
         = (Ok x, (safe_lookup sev_X "sev.X" sev_X_world).2))
    ∧ ∀ ms, Forall top_level ms →
        heap sev_X_world ⊆ heap (mutate_all (VRef 2) ms (safe_lookup sev_X "sev.X" sev_X_world).2)
        ∧ ∀ fuel t, stored_spec fuel sev_X k n (heap sev_X_world) = Some t →
            stored_spec fuel sev_X k n
              (heap (mutate_all (VRef 2) ms (safe_lookup sev_X "sev.X" sev_X_world).2)) = Some t.
Proof.
  apply (safe_lookup_top_level_isolation sev_X "sev.X" sev_X_world).
  vm_compute. reflexivity.
Defined.

(** C1, the claim as written fails: the values nested inside the returned
    specification are the stored ones.  Resolving sev.X and then assigning to
    the first element of the returned [sev_xs] changes what the lookup by
    (kind, name) reads afterwards. *)
Lemma safe_lookup_deep_isolation_counterexample :
  ∃ v w1,
    safe_lookup sev_X "sev.X" sev_X_world = (Ok v, w1)
    ∧ ∃ before after,
        stored_spec 2 sev_X "sev" "X" (heap sev_X_world) = Some before
        ∧ stored_spec 2 sev_X "sev" "X"
            (heap (mutate_all v [SetItem [KStr "sev_xs"] (KIdx 0) (VInt 99)] w1))
          = Some after
        ∧ before ≠ after.
Proof.
  eexists _, _. split; [vm_compute; reflexivity|].
  eexists _, _. split_and!; [vm_compute; reflexivity|vm_compute; reflexivity|].
  intros H. by inversion H.
Qed.



Ltac unfold_se :=
  unfold bind, ret, raise, gets, modify, of_result, try_catch, liftW, logger,
    record_call, set_knowledge in *.

#[local] Arguments __getitem__ : simpl never.

Section Interpreter.
Variable E : collaborators.
Variable self : config.
Implicit Types (st : state) (rv : list Answer) (lines : list string).

(** One line whose parse succeeds: the triple is stored and returned. *)
Lemma interpret_line_parsed line st k n sp w' :
  parse E (safe_lookup (knowledge st)) (self_debug self) line
    (parser_world st line) = (Ok (k, n, sp), w') →
  interpret_line E self line st
  = (Ok (MkAnswer k n sp line VNone),
     State (loc_set k n sp line (knowledge st))
           (World (heap w') (log w' ++ [(INFO, Msg_answer_out k n)]))
           (calls st ++ [Call_parse line])).
Proof.
  intros Hp. unfold interpret_line, parser_world in *. unfold_se. simpl.
  by rewrite Hp.
Qed.

(** One line whose parse raises: the exception leaves [interpret_line],
    the knowledge is as it was, and the parser was called once. *)
Lemma interpret_line_failed line st e w' :
  parse E (safe_lookup (knowledge st)) (self_debug self) line
    (parser_world st line) = (Raise e, w') →
  ∃ st', interpret_line E self line st = (Raise e, st')
         ∧ knowledge st' = knowledge st
         ∧ calls st' = calls st ++ [Call_parse line].
Proof.
  intros Hp. unfold interpret_line, parser_world, parse_failed in *.
  unfold_se. simpl. rewrite Hp. simpl.
  destruct (is_ValueError e); [destruct e|]; simpl; eauto.
Qed.

Lemma interpret_line_inv line st a st' :
  interpret_line E self line st = (Ok a, st') →
  ∃ k n sp w',
    parse E (safe_lookup (knowledge st)) (self_debug self) line
      (parser_world st line) = (Ok (k, n, sp), w')
    ∧ a = MkAnswer k n sp line VNone
    ∧ knowledge st' = record_answer (knowledge st) a
    ∧ calls st' = calls st ++ [Call_parse line].
Proof.
  destruct (parse E (safe_lookup (knowledge st)) (self_debug self) line
              (parser_world st line)) as [[[[k n] sp]|e] w'] eqn:Hp.
  - rewrite (interpret_line_parsed _ _ _ _ _ _ Hp). intros [= <- <-].
    exists k, n, sp, w'. done.
  - destruct (interpret_line_failed _ _ _ _ Hp) as (st2 & -> & _). discriminate.
Qed.

(** A run of the loop that returns has parsed every line, in order, and
    stored each result. *)
Lemma interpret_lines_inv lines rv st rv' st' :
  interpret_lines E self lines rv st = (Ok rv', st') →
  ∃ new, rv' = rv ++ new
         ∧ program <$> new = lines
         ∧ knowledge st' = foldl record_answer (knowledge st) new
         ∧ calls st' = calls st ++ (Call_parse <$> lines).
Proof.
  revert rv st. induction lines as [|line lines IH]; intros rv st; simpl.
  - intros [= <- <-]. exists []. by rewrite !app_nil_r.
  - unfold bind at 1.
    destruct (interpret_line E self line st) as [[a|e] st1] eqn:Hl; [|done].
    intros Hrest. apply IH in Hrest as (new & -> & Hprog & Hkn & Hcalls).
    apply interpret_line_inv in Hl as (k & n & sp & w' & _ & -> & Hkn1 & Hcalls1).
    eexists (_ :: new). split_and!.
    + by rewrite <- app_assoc.
    + by rewrite fmap_cons, Hprog.
    + simpl. by rewrite Hkn, Hkn1.
    + rewrite Hcalls, Hcalls1, <- app_assoc. done.
Qed.

(** The loop over [l1 ++ l2] is the loop over [l1] followed by the loop
    over [l2]. *)
Lemma interpret_lines_app l1 l2 rv st rv1 st1 :
  interpret_lines E self l1 rv st = (Ok rv1, st1) →
  interpret_lines E self (l1 ++ l2) rv st = interpret_lines E self l2 rv1 st1.
Proof.
  revert rv st. induction l1 as [|line l1 IH]; intros rv st; simpl.
  - by intros [= <- <-].
  - unfold bind at 1 2.
    destruct (interpret_line E self line st) as [[a|e] st'] eqn:Hl; [|done].
    apply IH.
Qed.

(** The interpreter gives an empty list only for a program without
    statements. *)
Lemma interpret_program_empty prog st st' :
  interpret_program E self prog st = (Ok [], st') ↔
  preprocess E prog = [] ∧ st' = st.
Proof.
  unfold interpret_program. split.
  - intros H. pose proof H as (new & Hnew & Hprog & _)%interpret_lines_inv.
    symmetry in Hnew. apply app_eq_nil in Hnew as [_ ->].
    simpl in Hprog. rewrite <- Hprog in *. simpl in H. by inversion H.
  - intros [-> ->]. done.
Qed.

(** The knowledge keeps unique keys through any interpreter run. *)
Lemma interpret_line_unique_keys line st r st' :
  interpret_line E self line st = (r, st') →
  unique_keys (knowledge st) → unique_keys (knowledge st').
Proof.
  destruct (parse E (safe_lookup (knowledge st)) (self_debug self) line
              (parser_world st line)) as [[[[k n] sp]|e] w'] eqn:Hp.
  - rewrite (interpret_line_parsed _ _ _ _ _ _ Hp). intros [= <- <-]. simpl.
    apply loc_set_unique_keys.
  - destruct (interpret_line_failed _ _ _ _ Hp) as (st2 & -> & Hkn & _).
    intros [= <- <-]. by rewrite Hkn.
Qed.

Lemma interpret_lines_unique_keys lines rv st r st' :
  interpret_lines E self lines rv st = (r, st') →
  unique_keys (knowledge st) → unique_keys (knowledge st').
Proof.
  revert rv st. induction lines as [|line lines IH]; intros rv st; simpl.
  - by intros [= <- <-].
  - unfold bind at 1.
    destruct (interpret_line E self line st) as [[a|e] st1] eqn:Hl.
    + intros Hrest Hu. eapply IH; [exact Hrest|].
      by eapply interpret_line_unique_keys.
    + intros [= <- <-]. by eapply interpret_line_unique_keys.
Qed.
Lemma interpret_lines_objects lines rv st rv' st' :
  interpret_lines E self lines rv st = (Ok rv', st') →
  ∃ new, rv' = rv ++ new ∧ Forall (λ a, object a = VNone) new.
Proof.
  revert rv st. induction lines as [|line lines IH]; intros rv st; simpl.
  - intros [= <- <-]. exists []. by rewrite app_nil_r.
  - unfold bind at 1.
    destruct (interpret_line E self line st) as [[a|e] st1] eqn:Hl; [|done].
    intros (new & -> & Hnew)%IH.
    apply interpret_line_inv in Hl as (k & n & sp & w' & _ & -> & _).
    exists (MkAnswer k n sp line VNone :: new). split.
    + by rewrite <- app_assoc.
    + by constructor.
Qed.

Lemma foldl_record_unique (new : list Answer) (kn : list row) :
  unique_keys kn → unique_keys (foldl record_answer kn new).
Proof.
  revert kn. induction new as [|a new IH]; intros kn Hu; simpl; [done|].
  apply IH. by apply loc_set_unique_keys.
Qed.

Lemma getitem_foldl_other (new : list Answer) (kn : list row) k n :
  Forall (λ b, answer_key b ≠ (k, n)) new →
  __getitem__ (ITuple k n) (foldl record_answer kn new)
  = __getitem__ (ITuple k n) kn.
Proof.
  intros Hnew. revert kn.
  induction Hnew as [|b new Hb _ IH]; intros kn; simpl; [done|].
  rewrite IH. unfold record_answer. apply getitem_loc_set_other.
  unfold answer_key in Hb. congruence.
Qed.

(** In the knowledge built from a list of Answers, an Answer that no later
    one overwrites is what its identifier finds. *)
Lemma getitem_foldl_record (new : list Answer) (kn : list row) i a :
  unique_keys kn →
  new !! i = Some a → object a = VNone →
  (∀ j b, i < j → new !! j = Some b → answer_key b ≠ answer_key a) →
  __getitem__ (ITuple (kind a) (name a)) (foldl record_answer kn new) = Ok a.
Proof.
  revert kn i. induction new as [|x new IH]; intros kn i Hu Hi Hobj Hlater;
    [done|].
  destruct i as [|i]; simpl in *.
  - injection Hi as ->. rewrite getitem_foldl_other.
    + unfold record_answer. rewrite getitem_loc_set by done.
      destruct a; simpl in *. by subst.
    + apply Forall_lookup_2. intros j b Hj.
      apply (Hlater (S j) b); [lia|done].
  - apply (IH _ i); [by apply loc_set_unique_keys|done|done|].
    intros j b Hij Hj. apply (Hlater (S j) b); [lia|done].
Qed.

(** What a (kind, name) finds in the knowledge built from a list of
    Answers: the record of the last Answer stored under it, and what it found
    before when there is none. *)
Lemma getitem_foldl_last (new : list Answer) (kn : list row) k n :
  unique_keys kn →
  __getitem__ (ITuple k n) (foldl record_answer kn new)
  = match last_declared k n new with
    | Some a => Ok (MkAnswer k n (spec a) (program a) VNone)
    | None => __getitem__ (ITuple k n) kn
    end.
Proof.
  revert kn. induction new as [|a new IH]; intros kn Hu; [done|].
  change (foldl record_answer kn (a :: new))
    with (foldl record_answer (record_answer kn a) new).
  rewrite IH by (by apply loc_set_unique_keys).
  unfold last_declared. rewrite filter_cons.
  destruct (decide ((kind a, name a) = (k, n))) as [Heq|Hne].
  - rewrite last_cons.
    destruct (last (filter _ new)) as [b|]; [done|].
    unfold record_answer. injection Heq as <- <-. by rewrite getitem_loc_set.
  - destruct (last (filter _ new)) as [b|]; [done|].
    unfold record_answer. apply getitem_loc_set_other. congruence.
Qed.

(** A run of the loop that raises does so whatever follows. *)
Lemma interpret_lines_raise_app l1 l2 rv st e st1 :
  interpret_lines E self l1 rv st = (Raise e, st1) →
  interpret_lines E self (l1 ++ l2) rv st = (Raise e, st1).
Proof.
  revert rv st. induction l1 as [|line l1 IH]; intros rv st; simpl; [done|].
  unfold bind at 1 2.
  destruct (interpret_line E self line st) as [[a|e'] st'] eqn:Hl; [apply IH|done].
Qed.

(** In a run that returns, the Answer at position [j] is what the parser
    returned for statement [j], in the state the statements before it
    left. *)
Lemma interpret_lines_parsed_at lines st rv st' j line a :
  interpret_lines E self lines [] st = (Ok rv, st') →
  lines !! j = Some line → rv !! j = Some a →
  ∃ w', parse E (safe_lookup (knowledge (after_statements E self lines j st)))
          (self_debug self) line
          (parser_world (after_statements E self lines j st) line)
        = (Ok (kind a, name a, spec a), w')
        ∧ program a = line ∧ object a = VNone.
Proof.
  intros Hrun Hj Ha. unfold after_statements.
  pose proof (take_drop_middle _ _ _ Hj) as Hsplit.
  destruct (interpret_lines E self (take j lines) [] st) as [[rv_j|e] st_j] eqn:Hpre.
  - rewrite <- Hsplit in Hrun.
    rewrite (interpret_lines_app _ _ _ _ _ _ Hpre) in Hrun.
    simpl in Hrun. unfold bind at 1 in Hrun.
    destruct (interpret_line E self line st_j) as [[a'|e] st1] eqn:Hl; [|done].
    apply interpret_lines_inv in Hrun as (new & -> & _).
    apply interpret_lines_inv in Hpre as (new_j & Hnew & Hprog & _).
    simpl in Hnew. subst new_j.
    assert (length rv_j = j) as Hlen.
    { rewrite <- (length_fmap program), Hprog, length_take.
      apply lookup_lt_Some in Hj. lia. }
    rewrite <- app_assoc in Ha. simpl in Ha.
    rewrite lookup_app_r in Ha by lia.
    replace (j - length rv_j) with 0 in Ha by lia. simpl in Ha.
    injection Ha as <-.
    apply interpret_line_inv in Hl as (k & n & sp & w' & Hp & -> & _).
    simpl. by exists w'.
  - apply (interpret_lines_raise_app _ (line :: drop (S j) lines)) in Hpre.
    rewrite Hsplit in Hpre. congruence.
Qed.
End Interpreter.

(** C2: if the statements before the i-th are interpreted successfully and
    the parser raises on the i-th, [interpret_program] raises that exception
    and the failure reaches the caller.  Every statement before the i-th has
    given one Answer, which is what the parser returned for it; afterwards a
    (kind, name) finds the record of the last of these statements that
    declared it (its specification and the statement as program), and what it
    found before the call when none of them declared it: the knowledge holds
    exactly the entries of the statements before the i-th, on top of what was
    there.  The parser has been called on those statements and on the i-th
    only, never on a later one. *)
Theorem interpret_program_fail_fast (E : collaborators) (self : config)
    (prog : string) (pre post : list string) (line : string)
    (st st1 : state) (rv : list Answer) (e : exn) (w2 : world) :
  unique_keys (knowledge st) →
  preprocess E prog = pre ++ line :: post →
  interpret_lines E self pre [] st = (Ok rv, st1) →
  parse E (safe_lookup (knowledge st1)) (self_debug self) line
    (parser_world st1 line) = (Raise e, w2) →
  ∃ st2,
    interpret_program E self prog st = (Raise e, st2)
    ∧ length rv = length pre
    ∧ (∀ j stmt a, pre !! j = Some stmt → rv !! j = Some a →
         ∃ w', parse E (safe_lookup (knowledge (after_statements E self pre j st)))
                 (self_debug self) stmt
                 (parser_world (after_statements E self pre j st) stmt)
               = (Ok (kind a, name a, spec a), w')
               ∧ program a = stmt ∧ object a = VNone)
    ∧ (∀ k n, __getitem__ (ITuple k n) (knowledge st2)
              = match last_declared k n rv with
                | Some a => Ok (MkAnswer k n (spec a) (program a) VNone)
                | None => __getitem__ (ITuple k n) (knowledge st)
                end)
    ∧ length (knowledge st) ≤ length (knowledge st2)
        ≤ length (knowledge st) + length pre
    ∧ calls st2 = calls st ++ (Call_parse <$> pre ++ [line]).
Proof.
  intros Hu Hpre Hrun Hfail.
  unfold interpret_program. rewrite Hpre.
  rewrite (interpret_lines_app _ _ _ _ _ _ _ _ Hrun). simpl.
  destruct (interpret_line_failed E self _ _ _ _ Hfail) as (st2 & Hl & Hkn & Hcalls).
  pose proof Hrun as (new & Hnew & Hprog & Hkn1 & Hcalls1)%interpret_lines_inv.
  simpl in Hnew. subst new.
  exists st2. unfold bind. rewrite Hl.
  assert (length rv = length pre) as Hlen by (by rewrite <- Hprog, length_fmap).
  pose proof (length_foldl_record rv (knowledge st)) as Hb.
  rewrite Hkn, Hkn1. split_and!; try done; try lia.
  - intros j stmt a Hj Ha. by eapply interpret_lines_parsed_at.
  - intros k n. by apply getitem_foldl_last.
  - rewrite Hcalls, Hcalls1, fmap_app, <- app_assoc. done.
Qed.

Lemma interpret_program_fail_fast_witness :
  ∃ st2,
    interpret_program (demo [] ZeroDivisionError) rory "sev A;bad B;agg C"
      empty_state
    = (Raise (ValueError_token "ID" "bad" 0), st2)
    ∧ __getitem__ (ITuple "sev" "A") (knowledge st2)
      = Ok (MkAnswer "sev" "A" (VRef 0) "sev A" VNone)
    ∧ __getitem__ (ITuple "bad" "B") (knowledge st2)
      = Raise (KeyError_not_found (ITuple "bad" "B"))
    ∧ __getitem__ (ITuple "agg" "C") (knowledge st2)
      = Raise (KeyError_not_found (ITuple "agg" "C"))
    ∧ length (knowledge st2) ≤ 1
    ∧ calls st2 = [Call_parse "sev A"; Call_parse "bad B"].
Proof.
  destruct (interpret_program_fail_fast (demo [] ZeroDivisionError) rory
              "sev A;bad B;agg C" ["sev A"] ["agg C"] "bad B" empty_state
              (interpret_lines (demo [] ZeroDivisionError) rory ["sev A"] []
                 empty_state).2
              [MkAnswer "sev" "A" (VRef 0) "sev A" VNone]
              (ValueError_token "ID" "bad" 0)
              (parse (demo [] ZeroDivisionError)
                 (safe_lookup [Row "sev" "A" (VRef 0) "sev A"]) false "bad B"
                 (parser_world
                    (interpret_lines (demo [] ZeroDivisionError) rory ["sev A"]
                       [] empty_state).2 "bad B")).2
              unique_keys_nil eq_refl eq_refl eq_refl)
    as (st2 & Hrun & _ & _ & Hget & [_ Hlen] & Hcalls).
  exists st2. split_and!.
  - exact Hrun.
  - exact (Hget "sev" "A").
  - exact (Hget "bad" "B").
  - exact (Hget "agg" "C").
  - exact Hlen.
  - exact Hcalls.
Defined.


#[local] Arguments ne_one : simpl never.
#[local] Arguments differs_from_one : simpl never.
#[local] Arguments interpret_program : simpl never.

(** For a severity whose [sev_wt] makes the condition [sev_wt != 1] true (a
    number other than 1, a value that is no number, or an array of one item
    other than 1), the factory returns the Answer with its object set to None
    and logs the warning about a mixed severity; it does not raise, builds
    nothing and leaves heap and knowledge alone. *)
Lemma factory_declines_weight (E : collaborators) (n prog : string)
    (obj wt : value) (l : loc) (d : gmap string value) (st : state) :
  heap (world_of st) !! l = Some (ODict d) →
  d !! "sev_wt" = Some wt →
  differs_from_one (heap (world_of st)) wt = Ok true →
  factory E (MkAnswer "sev" n (VRef l) prog obj) st
  = (Ok (MkAnswer "sev" n (VRef l) prog VNone),
     State (knowledge st)
           (World (heap (world_of st))
                  (log (world_of st) ++ surprise obj
                   ++ [(WARNING, Msg_mixed_severity wt)]))
           (calls st)).
Proof.
  intros Hl Hwt Hne. unfold factory, surprise.
  destruct (is_None obj); unfold_se; unfold contains, subscript; simpl;
    repeat (rewrite ?Hl, ?Hwt, ?Hne; simpl);
    rewrite ?app_nil_r, <- ?app_assoc; done.
Qed.

(** C7, what the code does: the claim holds for a weight that is a number
    (the first part: any number other than 1, such as 0.5, is declined with a
    warning and without an error), but for a severity whose [sev_wt] is an
    array of two or more weights the comparison with 1 is made item by item
    and the [if] cannot take the truth value of its result: the factory
    raises ValueError, logs no warning about a mixed severity and does not
    return the Answer. *)
Theorem factory_array_weight_raises (E : collaborators) (n prog : string)
    (obj : value) (l la : loc) (d : gmap string value) (a : ndarray)
    (st : state) :
  heap (world_of st) !! l = Some (ODict d) →
  (∀ z : Z, z ≠ 1%Z →
     d !! "sev_wt" = Some (VInt z) →
     factory E (MkAnswer "sev" n (VRef l) prog obj) st
     = (Ok (MkAnswer "sev" n (VRef l) prog VNone),
        State (knowledge st)
              (World (heap (world_of st))
                     (log (world_of st) ++ surprise obj
                      ++ [(WARNING, Msg_mixed_severity (VInt z))]))
              (calls st)))
  ∧ (∀ f : float, SFeqb f (b64 1 0) = false →
       d !! "sev_wt" = Some (VFloat f) →
       factory E (MkAnswer "sev" n (VRef l) prog obj) st
       = (Ok (MkAnswer "sev" n (VRef l) prog VNone),
          State (knowledge st)
                (World (heap (world_of st))
                       (log (world_of st) ++ surprise obj
                        ++ [(WARNING, Msg_mixed_severity (VFloat f))]))
                (calls st)))
  ∧ (d !! "sev_wt" = Some (VRef la) →
     heap (world_of st) !! la = Some (OArray a) →
     2 ≤ length (array_items a) →
     factory E (MkAnswer "sev" n (VRef l) prog obj) st
     = (Raise (ValueError_msg
                 "The truth value of an array with more than one element is ambiguous"),
        State (knowledge st)
              (World (heap (world_of st)) (log (world_of st) ++ surprise obj))
              (calls st))).
Proof.
  intros Hl. split_and!.
  - intros z Hz Hwt. apply (factory_declines_weight E n prog obj _ l d st Hl Hwt).
    unfold differs_from_one, ne_one. f_equal.
    apply negb_true_iff, Z.eqb_neq. done.
  - intros f Hf Hwt. apply (factory_declines_weight E n prog obj _ l d st Hl Hwt).
    unfold differs_from_one, ne_one. by rewrite Hf.
  - intros Hwt Hla Hlen. unfold factory, surprise.
    assert (differs_from_one (heap (world_of st)) (VRef la)
            = Raise (ValueError_msg
                       "The truth value of an array with more than one element is ambiguous"))
      as Hne.
    { unfold differs_from_one. rewrite Hla. unfold array_ne_one.
      destruct (array_items a) as [|x [|y items]]; simpl in *; [lia|lia|done]. }
    destruct (is_None obj); unfold_se; unfold contains, subscript; simpl;
      repeat (rewrite ?Hl, ?Hwt, ?Hne; simpl);
      rewrite ?app_nil_r; by destruct st as [? [] ?].
Qed.

Lemma factory_array_weight_raises_witness :
  factory (demo [] ZeroDivisionError) (MkAnswer "sev" "S" (VRef 0) "sev S" VNone)
    half_weight_state
  = (Ok (MkAnswer "sev" "S" (VRef 0) "sev S" VNone),
     State []
           (World (heap (world_of half_weight_state))
                  [(WARNING, Msg_mixed_severity (VFloat (b64 1 (-1))))])
           [])
  ∧ factory (demo [] ZeroDivisionError)
      (MkAnswer "sev" "M" (VRef 0) "sev M" VNone) array_weight_state
    = (Raise (ValueError_msg
                "The truth value of an array with more than one element is ambiguous"),
       array_weight_state).
Proof.
  split.
  - destruct (factory_array_weight_raises (demo [] ZeroDivisionError) "S" "sev S"
                VNone 0 0 {[ "sev_wt" := VFloat (b64 1 (-1)) ]} (ArrInt [])
                half_weight_state eq_refl) as (_ & Hfloat & _).
    apply (Hfloat (b64 1 (-1))); reflexivity.
  - destruct (factory_array_weight_raises (demo [] ZeroDivisionError) "M" "sev M"
                VNone 0 1 {[ "sev_wt" := VRef 1 ]}
                (ArrFloat [b64 1 (-1); b64 1 (-1)])
                array_weight_state eq_refl) as (_ & _ & Harray).
    apply Harray; [reflexivity|reflexivity|simpl; lia].
Defined.

(** C8, what the code does: for a kind that is none of agg, port, sev and
    distortion, the factory returns normally, handing back the Answer with
    the object it came with; no exception is raised. *)
Theorem factory_unknown_kind_returns (E : collaborators) (k n prog : string)
    (sp obj : value) (st : state) :
  k ∉ ["agg"; "port"; "sev"; "distortion"] →
  factory E (MkAnswer k n sp prog obj) st
  = (Ok (MkAnswer k n sp prog obj),
     State (knowledge st)
           (World (heap (world_of st)) (log (world_of st) ++ surprise obj))
           (calls st)).
Proof.
  intros Hk. unfold factory, surprise.
  assert (String.eqb k "agg" = false) as -> by (apply String.eqb_neq; set_solver).
  assert (String.eqb k "port" = false) as -> by (apply String.eqb_neq; set_solver).
  assert (String.eqb k "sev" = false) as -> by (apply String.eqb_neq; set_solver).
  assert (String.eqb k "distortion" = false) as ->
    by (apply String.eqb_neq; set_solver).
  destruct st as [kn [h lg] cs].
  destruct (is_None obj); unfold_se; simpl; rewrite ?app_nil_r; done.
Qed.

Lemma factory_unknown_kind_returns_witness :
  factory (demo [] ZeroDivisionError) (MkAnswer "expr" "x" VNone "expr x" VNone)
    empty_state
  = (Ok (MkAnswer "expr" "x" VNone "expr x" VNone),
     State (knowledge empty_state)
           (World (heap (world_of empty_state))
                  (log (world_of empty_state) ++ surprise VNone))
           (calls empty_state)).
Proof.
  apply factory_unknown_kind_returns.
  apply (bool_decide_unpack _). vm_compute. exact I.
Defined.

(** C10: when the text is not found as a bare name and the interpreter
    returns an empty list for it, [build] logs the warning "build produced no
    output" and returns None; it neither raises nor returns an empty list. *)
Theorem build_no_output (E : collaborators) (self : config) (prog : string)
    (upd : bool) (log2 : Z) (bs : Q) (kwargs : list (string * value))
    (st st1 : state) (e : exn) :
  __getitem__ (IStr prog) (knowledge st) = Raise e →
  interpret_program E self prog (shortcut_missed st) = (Ok [], st1) →
  build E self prog upd log2 bs kwargs st
  = (Ok BNone,
     State (knowledge st1)
           (World (heap (world_of st1))
                  (log (world_of st1) ++ [(WARNING, Msg_no_output)]))
           (calls st1)).
Proof.
  intros Hget Hrun. unfold build, write. unfold shortcut_missed in Hrun.
  unfold_se. simpl. rewrite Hget, (getitem_name_raises _ _ _ Hget). simpl.
  rewrite Hrun. simpl. done.
Qed.

Lemma build_no_output_witness :
  build (demo [] ZeroDivisionError) rory ";;" true 0 0 [] empty_state
  = (Ok BNone,
     State (knowledge (shortcut_missed empty_state))
           (World (heap (world_of (shortcut_missed empty_state)))
                  (log (world_of (shortcut_missed empty_state))
                   ++ [(WARNING, Msg_no_output)]))
           (calls (shortcut_missed empty_state))).
Proof.
  apply (build_no_output _ _ ";;" true 0 0 [] empty_state _
           (KeyError_not_found (IStr ";;"))).
  - reflexivity.
  - reflexivity.
Defined.


Section Bin.
Local Open Scope Z_scope.




End Bin.

Section Collapse.
Implicit Types (rv : list Answer) (a : Answer).


(** With two results or more, [build] returns the last Answer's object
    when exactly one result is a portfolio, and the whole list otherwise. *)
Lemma collapse_many rv a :
  2 ≤ length rv → last rv = Some a →
  collapse rv = if bool_decide (ports_found rv = 1) then object_or_answer a
                else BList rv.
Proof.
  destruct rv as [|x [|y rv]]; simpl; try lia.
  intros _ Hlast. unfold collapse. simpl in Hlast |- *. by rewrite Hlast.
Qed.

Lemma collapse_full_sequence rv :
  2 ≤ length rv → ports_found rv ≠ 1 → collapse rv = BList rv.
Proof.
  intros Hlen Hn.
  destruct (last rv) as [a|] eqn:Hlast.
  - rewrite (collapse_many _ _ Hlen Hlast). by rewrite bool_decide_false.
  - apply last_None in Hlast. subst. simpl in Hlen. lia.
Qed.

(** When the one portfolio is the last result, it is the one returned. *)
Lemma collapse_portfolio_last rv a :
  2 ≤ length rv → ports_found rv = 1 → last rv = Some a → kind a = "port" →
  collapse rv = object_or_answer a.
Proof.
  intros Hlen Hone Hlast _.
  rewrite (collapse_many _ _ Hlen Hlast). by rewrite bool_decide_true.
Qed.
End Collapse.


#[local] Arguments keyword_clash : simpl never.
#[local] Arguments bin_length_minus_one : simpl never.
#[local] Arguments np_max : simpl never.
#[local] Arguments builtin_max : simpl never.
#[local] Arguments mul : simpl never.
#[local] Arguments int_of : simpl never.

Section Build.
Variable E : collaborators.
Variable self : config.
Implicit Types (st : state) (w : world) (answer : Answer).

(** Calling [update] on an Aggregate or Portfolio instance: the call is
    recorded and its outcome is the outcome of the external method. *)
Lemma call_update_runs l c attrs explicit log2 bs kwargs st :
  heap (world_of st) !! l = Some (OInstance c attrs) →
  has_update c = true →
  keyword_clash ("log2" :: "bs" :: explicit.*1) kwargs = false →
  call_update E (VRef l) explicit log2 bs kwargs st
  = let args := UpdateArgs log2 bs (explicit ++ kwargs) in
    ((update E l args (world_of st)).1,
     updated st (update E l args (world_of st)).2 l args).
Proof.
  intros Hl Hc Hk. unfold call_update, updated. unfold_se. simpl.
  rewrite Hl, Hc, Hk. simpl.
  by destruct (update E l _ (world_of st)).
Qed.


(** An Aggregate round of the loop, once the parameters are settled. *)
Lemma build_one_aggregate answer l attrs attrs1 log2 bs kwargs st p w1 :
  object answer = VRef l →
  heap (world_of st) !! l = Some (OInstance Aggregate attrs) →
  aggregate_parameters E self answer l log2 bs (world_of st) = (Ok p, w1) →
  heap w1 !! l = Some (OInstance Aggregate attrs1) →
  keyword_clash ["log2"; "bs"; "debug"; "force_severity"] kwargs = false →
  build_one E self answer true log2 bs kwargs st
  = let args := UpdateArgs p.1 p.2 (aggregate_keywords self ++ kwargs) in
    match update E l args w1 with
    | (Ok u, w2) => (Ok u, updated st w2 l args)
    | (Raise e, w2) => update_failed e (updated st w2 l args)
    end.
Proof.
  intros Hobj Hl Hp Hl1 Hk. unfold build_one. rewrite Hobj.
  unfold bind at 1. unfold gets at 1. unfold isinstance. rewrite Hl. simpl.
  unfold bind at 1. unfold liftW at 1. rewrite Hp.
  unfold try_catch. erewrite call_update_runs; [|exact Hl1|done|exact Hk].
  simpl. unfold updated. simpl.
  by destruct (update E l _ w1) as [[u|e] w2].
Qed.

(** A Portfolio round of the loop: nothing stands between an exception of
    [update] and the caller of [build]. *)
Lemma build_one_portfolio answer l attrs attrs1 log2 bs kwargs st p w1 :
  object answer = VRef l →
  heap (world_of st) !! l = Some (OInstance Portfolio attrs) →
  portfolio_parameters E answer l log2 bs (world_of st) = (Ok p, w1) →
  heap w1 !! l = Some (OInstance Portfolio attrs1) →
  keyword_clash ["log2"; "bs"; "remove_fuzz"; "force_severity"; "debug"] kwargs
    = false →
  build_one E self answer true log2 bs kwargs st
  = let args := UpdateArgs p.1 p.2 (portfolio_keywords self ++ kwargs) in
    ((update E l args w1).1, updated st (update E l args w1).2 l args).
Proof.
  intros Hobj Hl Hp Hl1 Hk. unfold build_one. rewrite Hobj.
  unfold bind at 1. unfold gets at 1. unfold isinstance. rewrite Hl. simpl.
  unfold bind at 1. unfold liftW at 1. rewrite Hp.
  erewrite call_update_runs; [|exact Hl1|done|exact Hk]. done.
Qed.

(** A ZeroDivisionError or AttributeError from an Aggregate's [update] is
    logged and the round ends normally, with the object as [update] left
    it. *)
Lemma build_one_aggregate_update_caught
    answer l attrs attrs1 log2 bs kwargs st p w1 e w2 :
  object answer = VRef l →
  heap (world_of st) !! l = Some (OInstance Aggregate attrs) →
  aggregate_parameters E self answer l log2 bs (world_of st) = (Ok p, w1) →
  heap w1 !! l = Some (OInstance Aggregate attrs1) →
  keyword_clash ["log2"; "bs"; "debug"; "force_severity"] kwargs = false →
  update E l (UpdateArgs p.1 p.2 (aggregate_keywords self ++ kwargs)) w1
    = (Raise e, w2) →
  e = ZeroDivisionError ∨ (∃ msg, e = AttributeError msg) →
  build_one E self answer true log2 bs kwargs st
  = (Ok tt,
     updated st (World (heap w2) (log w2 ++ [(ERROR, Msg_exception e)])) l
       (UpdateArgs p.1 p.2 (aggregate_keywords self ++ kwargs))).
Proof.
  intros Hobj Hl Hp Hl1 Hk Hup He.
  rewrite (build_one_aggregate _ _ _ _ _ _ _ _ _ _ Hobj Hl Hp Hl1 Hk).
  cbv zeta. rewrite Hup. unfold update_failed.
  destruct He as [->|[msg ->]]; unfold_se; done.
Qed.

(** The same failure from a Portfolio's [update] ends the round, and with
    it the loop and [build], by that exception. *)
Lemma build_one_portfolio_update_raises
    answer l attrs attrs1 log2 bs kwargs st p w1 e w2 :
  object answer = VRef l →
  heap (world_of st) !! l = Some (OInstance Portfolio attrs) →
  portfolio_parameters E answer l log2 bs (world_of st) = (Ok p, w1) →
  heap w1 !! l = Some (OInstance Portfolio attrs1) →
  keyword_clash ["log2"; "bs"; "remove_fuzz"; "force_severity"; "debug"] kwargs
    = false →
  update E l (UpdateArgs p.1 p.2 (portfolio_keywords self ++ kwargs)) w1
    = (Raise e, w2) →
  ∀ rest,
    build_loop E self (answer :: rest) true log2 bs kwargs st
    = (Raise e,
       updated st w2 l (UpdateArgs p.1 p.2 (portfolio_keywords self ++ kwargs))).
Proof.
  intros Hobj Hl Hp Hl1 Hk Hup rest. simpl. unfold bind.
  rewrite (build_one_portfolio _ _ _ _ _ _ _ _ _ _ Hobj Hl Hp Hl1 Hk).
  cbv zeta. by rewrite Hup.
Qed.
End Build.



Section MaxOf.
Local Open Scope Z_scope.









End MaxOf.




(** The same outcomes and count given as floats: the product is the float
    150.0 and the exponent is 9 again. *)
Lemma discrete_fixed_floats :
  ∃ max_loss,
    mul (Float (b64 30 0)) (Float (b64 5 0)) = Ok max_loss
    ∧ log2_of_max_loss max_loss = Ok 9%Z.
Proof. eexists. split; vm_compute; reflexivity. Qed.

(** Float products are rounded before they are truncated: the single outcome
    2.6666666666666665 (the float nearest to 8/3) times the count 3 is the
    float 8.0, although the exact product is below 8; the exponent is 5, not
    the 4 that exact arithmetic would give. *)
Lemma discrete_fixed_rounds :
  ∃ max_loss,
    mul (Float (b64 6004799503160661 (-51))) (PyInt 3) = Ok max_loss
    ∧ int_of max_loss = Ok 8%Z
    ∧ log2_of_max_loss max_loss = Ok 5%Z
    ∧ (6004799503160661 * 3 < 8 * 2 ^ 51)%Z.
Proof. eexists. split_and!; [vm_compute; reflexivity..|done]. Qed.

(** An int64 product wraps around: 2^31 times 2^33 is 0 in 64 bits, and the
    exponent is 2. *)
Lemma discrete_fixed_wraps :
  mul (Int64 (2 ^ 31)) (PyInt (2 ^ 33)) = Ok (Int64 0)
  ∧ log2_of_max_loss (Int64 0) = Ok 2%Z.
Proof. split; vm_compute; reflexivity. Qed.

(** C4, failing input: a program with a portfolio P followed by an aggregate
    A, built with update on, where P's update raises ZeroDivisionError.  The
    exception leaves [build]: nothing is logged about it, nothing is
    returned, and A's update is never called. *)
Theorem build_portfolio_update_failure_aborts :
  ∃ st',
    build (demo [Portfolio] ZeroDivisionError) rory "port P;agg A" true 0 0 []
      empty_state = (Raise ZeroDivisionError, st')
    ∧ calls st'
      = [Call_parse "port P"; Call_parse "agg A";
         Call_update 3 (UpdateArgs 0 (1 # 2) (portfolio_keywords rory))]
    ∧ log (world_of st')
      = [(DEBUG, Msg_processing_as_program);
         (DEBUG, Msg_program_line "port P"); (INFO, Msg_answer_out "port" "P");
         (DEBUG, Msg_program_line "agg A"); (INFO, Msg_answer_out "agg" "A");
         (INFO, Msg_program_created 2);
         (INFO, Msg_port_updating 0 (1 # 2));
         (INFO, Msg_port_params "port" "P" (1 # 2) 0)]
    ∧ isinstance (heap (world_of st')) (VRef 3) Portfolio = true
    ∧ isinstance (heap (world_of st')) (VRef 4) Aggregate = true.
Proof.
  eexists. split_and!; [vm_compute; reflexivity|reflexivity..].
Qed.

(** The sibling path: the same failure in an Aggregate's update is logged
    and the loop goes on to update the portfolio and to return it. *)
Lemma build_aggregate_update_failure_continues :
  ∃ st',
    build (demo [Aggregate] ZeroDivisionError) rory "agg A;port P" true 0 0 []
      empty_state = (Ok (BObject (VRef 4)), st')
    ∧ calls st'
      = [Call_parse "agg A"; Call_parse "port P";
         Call_update 3 (UpdateArgs 10 (1 # 4) (aggregate_keywords rory));
         Call_update 4 (UpdateArgs 0 (1 # 2) (portfolio_keywords rory))]
    ∧ log (world_of st')
      = [(DEBUG, Msg_processing_as_program);
         (DEBUG, Msg_program_line "agg A"); (INFO, Msg_answer_out "agg" "A");
         (DEBUG, Msg_program_line "port P"); (INFO, Msg_answer_out "port" "P");
         (INFO, Msg_program_created 2);
         (INFO, Msg_normal_mode "agg" "A" (1 # 4) 10);
         (ERROR, Msg_exception ZeroDivisionError);
         (INFO, Msg_port_updating 0 (1 # 2));
         (INFO, Msg_port_params "port" "P" (1 # 2) 0)].
Proof.
  eexists. split_and!; [vm_compute; reflexivity|reflexivity..].
Qed.

(** C5, failing input: a program with a portfolio P followed by a severity
    S.  There are two results and exactly one is a portfolio, yet [build]
    returns the object of the last result, the Severity, not the
    Portfolio. *)
Theorem build_single_portfolio_not_last :
  ∃ st' o,
    build (demo [] ZeroDivisionError) rory "port P;sev S" true 0 0 [] empty_state
      = (Ok (BObject o), st')
    ∧ isinstance (heap (world_of st')) o Severity = true
    ∧ isinstance (heap (world_of st')) o Portfolio = false.
Proof.
  eexists _, _. split_and!; [vm_compute; reflexivity|reflexivity|reflexivity].
Qed.

(** With the portfolio last, or with two portfolios, [build] does what the
    rule says. *)
Lemma build_single_portfolio_last :
  ∃ st' o,
    build (demo [] ZeroDivisionError) rory "sev S;port P" true 0 0 [] empty_state
      = (Ok (BObject o), st')
    ∧ isinstance (heap (world_of st')) o Portfolio = true.
Proof.
  eexists _, _. split_and!; [vm_compute; reflexivity|reflexivity].
Qed.

Lemma build_two_portfolios :
  ∃ st' rv,
    build (demo [] ZeroDivisionError) rory "port P;port Q" true 0 0 [] empty_state
      = (Ok (BList rv), st')
    ∧ name <$> rv = ["P"; "Q"].
Proof.
  eexists _, _. split_and!; [vm_compute; reflexivity|reflexivity].
Qed.


(** X1: after a record is stored under (kind, name), the lookup by that
    tuple returns exactly the stored specification and program, with no
    object, and the lookup by any other tuple gives what it gave before. *)
Theorem loc_set_then_getitem (kn : list row) (k n prog : string) (sp : value)
    (k' n' : string) :
  unique_keys kn →
  __getitem__ (ITuple k' n') (loc_set k n sp prog kn)
  = if decide ((k', n') = (k, n)) then Ok (MkAnswer k n sp prog VNone)
    else __getitem__ (ITuple k' n') kn.
Proof.
  intros Hu. case_decide as Heq.
  - injection Heq as -> ->. by apply getitem_loc_set.
  - by apply getitem_loc_set_other.
Qed.

Lemma loc_set_then_getitem_witness :
  __getitem__ (ITuple "agg" "X") (loc_set "agg" "X" (VRef 5) "agg X 2" two_X)
  = if decide (("agg", "X") = ("agg", "X"))
    then Ok (MkAnswer "agg" "X" (VRef 5) "agg X 2" VNone)
    else __getitem__ (ITuple "agg" "X") two_X.
Proof.
  apply (loc_set_then_getitem two_X "agg" "X" "agg X 2" (VRef 5) "agg" "X").
  unfold unique_keys. apply (bool_decide_unpack (NoDup _)). vm_compute. exact I.
Defined.

(** X2: storing under an identifier that is already present overwrites in
    place, so the sequence of identifiers (and the number of rows) is
    unchanged; a new identifier is appended after all existing rows.  In both
    cases the identifiers stay unique. *)
Theorem loc_set_overwrites_or_appends (kn : list row) (k n prog : string)
    (sp : value) :
  unique_keys kn →
  unique_keys (loc_set k n sp prog kn)
  ∧ row_key <$> loc_set k n sp prog kn
    = (if bool_decide ((k, n) ∈ row_key <$> kn) then row_key <$> kn
       else (row_key <$> kn) ++ [(k, n)])
  ∧ length (loc_set k n sp prog kn)
    = (if bool_decide ((k, n) ∈ row_key <$> kn) then length kn
       else S (length kn)).
Proof.
  intros Hu. split_and!.
  - by apply loc_set_unique_keys.
  - apply loc_set_keys.
  - rewrite <- (length_fmap row_key (loc_set _ _ _ _ _)), loc_set_keys.
    case_bool_decide; rewrite ?length_app, length_fmap; simpl; lia.
Qed.

Lemma loc_set_overwrites_or_appends_witness :
  unique_keys (loc_set "sev" "X" (VRef 7) "sev X again" two_X)
  ∧ row_key <$> loc_set "sev" "X" (VRef 7) "sev X again" two_X
    = (if bool_decide (("sev", "X") ∈ row_key <$> two_X) then row_key <$> two_X
       else (row_key <$> two_X) ++ [("sev", "X")])
  ∧ length (loc_set "sev" "X" (VRef 7) "sev X again" two_X)
    = (if bool_decide (("sev", "X") ∈ row_key <$> two_X) then length two_X
       else S (length two_X)).
Proof.
  apply loc_set_overwrites_or_appends.
  unfold unique_keys. apply (bool_decide_unpack (NoDup _)). vm_compute. exact I.
Defined.

(** X3: a bare name that is stored under exactly one kind is found by the
    bare-name lookup, whatever that kind is, and comes back as an Answer with
    that kind, the name, the stored specification and program and no object;
    a bare name that no row carries raises the KeyError of a missing item. *)
Theorem getitem_bare_name (kn : list row) (n : string) :
  unique_keys kn →
  (∀ k sp prog, Row k n sp prog ∈ kn →
     (∀ r', r' ∈ kn → row_name r' = n → row_kind r' = k) →
     __getitem__ (IStr n) kn = Ok (MkAnswer k n sp prog VNone))
  ∧ ((∀ r, r ∈ kn → row_name r ≠ n) →
     __getitem__ (IStr n) kn = Raise (KeyError_not_found (IStr n))).
Proof.
  intros Hu. split.
  - intros k sp prog Hr Hsame.
    assert (∃ r, r = Row k n sp prog ∧ row_kind r = k ∧ row_name r = n)
      as (r & Hdef & Hrk & Hrn) by (by eexists).
    rewrite <- Hdef in Hr. rewrite <- Hrk in Hsame.
    replace (MkAnswer k n sp prog VNone) with (answer_of_row r)
      by (by rewrite Hdef).
    clear Hdef Hrk k sp prog.
    unfold __getitem__, xs.
    assert (filter (λ r', row_name r' = n) kn = [r]) as ->; [|done].
    induction kn as [|x kn IH]; [by apply elem_of_nil in Hr|].
    unfold unique_keys in Hu. rewrite fmap_cons in Hu.
    apply NoDup_cons in Hu as [Hx Hu].
    rewrite filter_cons. case_decide as Hxn.
    + assert (row_kind x = row_kind r) as Hk
        by (apply Hsame; [apply list_elem_of_here|done]).
      assert (row_key x = row_key r) as Hkey
        by (unfold row_key; congruence).
      assert (x = r) as ->.
      { apply elem_of_cons in Hr as [->|Hr]; [done|]. exfalso. apply Hx.
        rewrite Hkey. by apply list_elem_of_fmap_2. }
      f_equal. clear IH.
      assert (∀ y, y ∈ kn → row_name y ≠ n) as Hnone.
      { intros y Hy Hyn. apply Hx.
        assert (row_kind y = row_kind r) as Hky
          by (apply Hsame; [by apply list_elem_of_further|done]).
        replace (row_key r) with (row_key y)
          by (unfold row_key; congruence).
        by apply list_elem_of_fmap_2. }
      clear -Hnone. induction kn as [|y kn IH]; [done|].
      rewrite filter_cons_False
        by (apply Hnone, list_elem_of_here).
      apply IH. intros z Hz. apply Hnone. by apply list_elem_of_further.
    + apply elem_of_cons in Hr as [->|Hr]; [done|].
      apply IH; [done|done|].
      intros r' Hr' Hn'. apply Hsame; [by apply list_elem_of_further|done].
  - intros Hnone. unfold __getitem__, xs.
    assert (filter (λ r', row_name r' = n) kn = []) as ->; [|done].
    induction kn as [|y kn IH]; [done|].
    rewrite filter_cons_False by (apply Hnone, list_elem_of_here).
    apply IH.
    + unfold unique_keys in *. rewrite fmap_cons in Hu.
      by apply NoDup_cons in Hu as [_ Hu].
    + intros z Hz. apply Hnone. by apply list_elem_of_further.
Qed.

Lemma getitem_bare_name_witness :
  __getitem__ (IStr "Y") port_Y = Ok (MkAnswer "port" "Y" (VRef 0) "port Y" VNone)
  ∧ __getitem__ (IStr "Z") port_Y = Raise (KeyError_not_found (IStr "Z")).
Proof.
  assert (unique_keys port_Y) as Hu.
  { unfold unique_keys. apply (bool_decide_unpack (NoDup _)). vm_compute.
    exact I. }
  split.
  - apply (proj1 (getitem_bare_name port_Y "Y" Hu)).
    + apply list_elem_of_here.
    + intros r' Hr'%list_elem_of_singleton _. by subst r'.
  - apply (proj2 (getitem_bare_name port_Y "Z" Hu)).
    intros r Hr%list_elem_of_singleton. by subst r.
Defined.

(** * Further properties of [safe_lookup] *)

Section LookupMore.
Implicit Types (kn : list row) (w : world) (h : gmap loc pyobj).

Lemma split_on_nonempty sep s : split_on sep s ≠ [].
Proof.
  destruct s as [|c s]; simpl; [done|].
  destruct (Ascii.eqb c sep); [done|]. by destruct (split_on sep s).
Qed.

(** [split] gives one part more than there are separators. *)
Lemma length_split_on sep s :
  length (split_on sep s) = S (count_char sep s).
Proof.
  induction s as [|c s IH]; simpl; [done|].
  destruct (Ascii.eqb c sep); simpl; [by rewrite IH|].
  destruct (split_on sep s) eqn:Hs; [by apply split_on_nonempty in Hs|].
  simpl in *. lia.
Qed.

(** The copy of an object reads like the object. *)
Lemma snapshot_copy fuel h l l' o t :
  h !! l = Some o → h !! l' = None →
  snapshot fuel h (VRef l) = Some t →
  snapshot fuel (<[l' := o]> h) (VRef l') = Some t.
Proof.
  intros Hl Hl' Hsnap.
  assert (h ⊆ <[l' := o]> h) as Hsub by (by apply insert_subseteq).
  destruct fuel as [|fuel]; [done|]. simpl in *.
  rewrite Hl in Hsnap. rewrite lookup_insert_eq.
  destruct o; [| | |done]; apply fmap_Some in Hsnap as (ts & Hts & ->).
  - erewrite mapM_mono; [done| |exact Hts].
    intros [s x] y. simpl. destruct (snapshot fuel h x) eqn:Hx; [|done].
    by rewrite (snapshot_mono _ _ _ _ _ Hsub Hx).
  - erewrite mapM_mono; [done| |exact Hts].
    intros x y. by apply snapshot_mono.
  - erewrite mapM_mono; [done| |exact Hts].
    intros [s x] y. simpl. destruct (snapshot fuel h x) eqn:Hx; [|done].
    by rewrite (snapshot_mono _ _ _ _ _ Hsub Hx).
Qed.
End LookupMore.

(** X4: a reference that does not contain exactly one dot makes
    [safe_lookup] raise the ValueError of the failed unpacking of
    [buildinid.split('.')], whatever is stored; nothing is logged and nothing
    is allocated. *)
Theorem safe_lookup_malformed_reference (kn : list row) (buildinid : string)
    (w : world) :
  count_char dot buildinid ≠ 1 →
  safe_lookup kn buildinid w
  = (Raise (ValueError_unpack (S (count_char dot buildinid))), w).
Proof.
  intros Hdots. pose proof (length_split_on dot buildinid) as Hlen.
  unfold safe_lookup.
  destruct (split_on dot buildinid) as [|k [|n [|x parts]]] eqn:Hs;
    simpl in Hlen; try (by rewrite <- Hlen).
  lia.
Qed.

Lemma safe_lookup_malformed_reference_witness :
  safe_lookup sev_X "sev.X.Y" sev_X_world
  = (Raise (ValueError_unpack (S (count_char dot "sev.X.Y"))), sev_X_world).
Proof.
  apply safe_lookup_malformed_reference. vm_compute. lia.
Defined.

(** X5: when [safe_lookup] returns, the value it returns reads exactly like
    the stored specification read before the call, the stored specification
    itself still reads the same, and the only log record added is the debug
    record of the retrieval. *)
Theorem safe_lookup_returns_equal_copy (kn : list row) (buildinid : string)
    (w w1 : world) (v : value) :
  safe_lookup kn buildinid w = (Ok v, w1) →
  ∃ k n a,
    split_on dot buildinid = [k; n]
    ∧ __getitem__ (ITuple k n) kn = Ok a
    ∧ v ≠ spec a
    ∧ log w1 = log w ++ [(DEBUG, Msg_retrieved k n k n)]
    ∧ ∀ fuel t, snapshot fuel (heap w) (spec a) = Some t →
        snapshot fuel (heap w1) v = Some t
        ∧ snapshot fuel (heap w1) (spec a) = Some t.
Proof.
  intros Hrun.
  destruct (safe_lookup_cases kn buildinid w) as [(k & n & Hs & Hcase)|Hbad];
    [|rewrite Hbad in Hrun; by inversion Hrun].
  destruct Hcase as [Habs|[(found & _ & Hamb)|(a & Hget)]].
  - rewrite (safe_lookup_absent _ _ _ _ _ Hs Habs) in Hrun. by inversion Hrun.
  - unfold safe_lookup in Hrun. rewrite Hs in Hrun.
    unfold bind, try_catch, of_result in Hrun. rewrite Hamb in Hrun.
    by inversion Hrun.
  - rewrite (safe_lookup_found _ _ _ _ _ _ Hs Hget) in Hrun.
    destruct (getitem_tuple_kind _ _ _ _ Hget) as (Hk & Hn & _).
    apply copy_ok in Hrun as (l & l' & o & Hsp & -> & Hl & Hfresh & Hh1 & Hlog).
    simpl in Hl, Hfresh, Hh1, Hlog.
    exists k, n, a. split_and!; try done.
    + rewrite Hsp. intros [= ->]. congruence.
    + by rewrite Hlog, Hk, Hn.
    + intros fuel t Hsnap. rewrite Hh1, Hsp in *. split.
      * by apply (snapshot_copy _ _ l).
      * eapply snapshot_mono; [|exact Hsnap]. by apply insert_subseteq.
Qed.

Lemma safe_lookup_returns_equal_copy_witness :
  ∃ k n a,
    split_on dot "sev.X" = [k; n]
    ∧ __getitem__ (ITuple k n) sev_X = Ok a
    ∧ VRef 2 ≠ spec a
    ∧ log (safe_lookup sev_X "sev.X" sev_X_world).2
      = log sev_X_world ++ [(DEBUG, Msg_retrieved k n k n)]
    ∧ ∀ fuel t, snapshot fuel (heap sev_X_world) (spec a) = Some t →
        snapshot fuel (heap (safe_lookup sev_X "sev.X" sev_X_world).2) (VRef 2)
        = Some t
        ∧ snapshot fuel (heap (safe_lookup sev_X "sev.X" sev_X_world).2) (spec a)
          = Some t.
Proof.
  apply (safe_lookup_returns_equal_copy sev_X "sev.X" sev_X_world).
  vm_compute. reflexivity.
Defined.

(** * Further properties of the interpreter *)

Section InterpreterMore.
Variable E : collaborators.
Variable self : config.
Implicit Types (st : state) (rv : list Answer) (lines : list string).

Lemma substring_all (s : string) : String.substring 0 (String.length s) s = s.
Proof. induction s as [|c s IH]; simpl; [done|]. by rewrite IH. Qed.

(** Cutting a line at [i] loses nothing, also when [i] is past the end. *)
Lemma substring_cut (i : nat) (s : string) :
  String.substring 0 i s +:+ String.substring i (String.length s - i) s = s
  ∧ String.length (String.substring 0 i s) = i `min` String.length s.
Proof.
  revert i. induction s as [|c s IH]; intros i.
  - by destruct i.
  - destruct i as [|i].
    + simpl. by rewrite substring_all.
    + destruct (IH i) as [H1 H2]. split.
      * simpl.
        change (String c (String.substring 0 i s
                          +:+ String.substring i (String.length s - i) s)
                = String c s).
        by rewrite H1.
      * simpl. by rewrite H2.
Qed.
End InterpreterMore.

(** X6: when [interpret_program] returns, it returns one Answer per
    preprocessed statement, in order: each is what the parser returned for
    its statement (kind, name and specification), carries the statement as
    program and has no object.  Afterwards a (kind, name) finds the record of
    the last statement that declared it, and what it found before the call
    when no statement declared it; the parser was called on exactly these
    statements, in order. *)
Theorem interpret_program_returns (E : collaborators) (self : config)
    (prog : string) (st st' : state) (rv : list Answer) :
  unique_keys (knowledge st) →
  interpret_program E self prog st = (Ok rv, st') →
  program <$> rv = preprocess E prog
  ∧ Forall (λ a, object a = VNone) rv
  ∧ (∀ j stmt a, preprocess E prog !! j = Some stmt → rv !! j = Some a →
       ∃ w', parse E
               (safe_lookup
                  (knowledge (after_statements E self (preprocess E prog) j st)))
               (self_debug self) stmt
               (parser_world (after_statements E self (preprocess E prog) j st)
                  stmt)
             = (Ok (kind a, name a, spec a), w'))
  ∧ (∀ k n, __getitem__ (ITuple k n) (knowledge st')
            = match last_declared k n rv with
              | Some a => Ok (MkAnswer k n (spec a) (program a) VNone)
              | None => __getitem__ (ITuple k n) (knowledge st)
              end)
  ∧ calls st' = calls st ++ (Call_parse <$> preprocess E prog).
Proof.
  unfold interpret_program. intros Hu Hrun.
  destruct (interpret_lines_inv _ _ _ _ _ _ _ Hrun)
    as (new & Hnew & Hprog & Hkn & Hcalls).
  destruct (interpret_lines_objects _ _ _ _ _ _ _ Hrun) as (new' & Heq & Hobj).
  simpl in Hnew, Heq. subst new new'. split_and!; try done.
  - intros j stmt a Hj Ha.
    destruct (interpret_lines_parsed_at E self _ _ _ _ _ _ _ Hrun Hj Ha)
      as (w' & Hp & _). by exists w'.
  - intros k n. rewrite Hkn. by apply getitem_foldl_last.
Qed.

Lemma interpret_program_returns_witness :
  ∃ st',
    interpret_program (demo [] ZeroDivisionError) rory "sev A;agg B;sev A"
      empty_state
    = (Ok [MkAnswer "sev" "A" (VRef 0) "sev A" VNone;
           MkAnswer "agg" "B" (VRef 1) "agg B" VNone;
           MkAnswer "sev" "A" (VRef 2) "sev A" VNone], st')
    ∧ __getitem__ (ITuple "sev" "A") (knowledge st')
      = Ok (MkAnswer "sev" "A" (VRef 2) "sev A" VNone)
    ∧ __getitem__ (ITuple "agg" "B") (knowledge st')
      = Ok (MkAnswer "agg" "B" (VRef 1) "agg B" VNone)
    ∧ __getitem__ (ITuple "port" "A") (knowledge st')
      = Raise (KeyError_not_found (ITuple "port" "A"))
    ∧ calls st' = [Call_parse "sev A"; Call_parse "agg B"; Call_parse "sev A"].
Proof.
  exists (interpret_program (demo [] ZeroDivisionError) rory "sev A;agg B;sev A"
            empty_state).2.
  destruct (interpret_program_returns (demo [] ZeroDivisionError) rory
              "sev A;agg B;sev A" empty_state
              (interpret_program (demo [] ZeroDivisionError) rory
                 "sev A;agg B;sev A" empty_state).2
              [MkAnswer "sev" "A" (VRef 0) "sev A" VNone;
               MkAnswer "agg" "B" (VRef 1) "agg B" VNone;
               MkAnswer "sev" "A" (VRef 2) "sev A" VNone]
              unique_keys_nil)
    as (_ & _ & _ & Hget & Hcalls).
  { vm_compute. reflexivity. }
  split_and!.
  - vm_compute. reflexivity.
  - exact (Hget "sev" "A").
  - exact (Hget "agg" "B").
  - exact (Hget "port" "A").
  - exact Hcalls.
Defined.

(** X7: after [interpret_program] has returned, every Answer it returned
    whose identifier is not declared again by a later statement of the same
    program is exactly what the lookup by (kind, name) gives; a later
    declaration of the same identifier wins. *)
Theorem interpret_program_then_getitem (E : collaborators) (self : config)
    (prog : string) (st st' : state) (rv : list Answer) (i : nat) (a : Answer) :
  unique_keys (knowledge st) →
  interpret_program E self prog st = (Ok rv, st') →
  rv !! i = Some a →
  (∀ j b, i < j → rv !! j = Some b → answer_key b ≠ answer_key a) →
  __getitem__ (ITuple (kind a) (name a)) (knowledge st') = Ok a.
Proof.
  intros Hu Hrun Hi Hlater. unfold interpret_program in Hrun.
  destruct (interpret_lines_inv _ _ _ _ _ _ _ Hrun) as (new & -> & _ & -> & _).
  destruct (interpret_lines_objects _ _ _ _ _ _ _ Hrun) as (new' & Heq & Hobj).
  simpl in Heq, Hi, Hlater. subst new'.
  apply (getitem_foldl_record _ _ i); try done.
  by apply (Forall_lookup_1 _ _ _ _ Hobj Hi).
Qed.

Lemma interpret_program_then_getitem_witness :
  __getitem__ (ITuple "sev" "A")
    (knowledge (interpret_program (demo [] ZeroDivisionError) rory
                  "sev A;agg B;sev A" empty_state).2)
  = Ok (MkAnswer "sev" "A" (VRef 2) "sev A" VNone).
Proof.
  apply (interpret_program_then_getitem (demo [] ZeroDivisionError) rory
           "sev A;agg B;sev A" empty_state
           (interpret_program (demo [] ZeroDivisionError) rory
              "sev A;agg B;sev A" empty_state).2
           [MkAnswer "sev" "A" (VRef 0) "sev A" VNone;
            MkAnswer "agg" "B" (VRef 1) "agg B" VNone;
            MkAnswer "sev" "A" (VRef 2) "sev A" VNone] 2
           (MkAnswer "sev" "A" (VRef 2) "sev A" VNone)).
  - apply unique_keys_nil.
  - vm_compute. reflexivity.
  - reflexivity.
  - intros j b Hj Hb. apply lookup_lt_Some in Hb. simpl in Hb. lia.
Defined.

(** X8: when the parser raises a ValueError that carries the unexpected
    token, [interpret_program]'s loop logs one error record whose text is the
    statement with the marker >>> inserted at the token's index, and re-raises.
    Taking the marker out gives the statement back, also for an index past the
    end of the statement; the knowledge is unchanged. *)
Theorem interpret_line_marks_token (E : collaborators) (self : config)
    (line t v : string) (i : nat) (st : state) (w2 : world) :
  parse E (safe_lookup (knowledge st)) (self_debug self) line
    (parser_world st line) = (Raise (ValueError_token t v i), w2) →
  ∃ pre post,
    interpret_line E self line st
    = (Raise (ValueError_token t v i),
       State (knowledge st)
             (World (heap w2)
                    (log w2 ++ [(ERROR,
                                 Msg_parse_error (pre +:+ ">>>" +:+ post) v t)]))
             (calls st ++ [Call_parse line]))
    ∧ pre +:+ post = line
    ∧ String.length pre = i `min` String.length line.
Proof.
  intros Hp.
  exists (String.substring 0 i line),
         (String.substring i (String.length line - i) line).
  destruct (substring_cut i line) as [Hcut Hlen]. split_and!; [|done|done].
  unfold interpret_line, parser_world, parse_failed in *.
  unfold_se. simpl. rewrite Hp. done.
Qed.

Lemma interpret_line_marks_token_witness :
  ∃ pre post,
    interpret_line (demo [] ZeroDivisionError) rory "bad B" empty_state
    = (Raise (ValueError_token "ID" "bad" 0),
       State (knowledge empty_state)
             (World (heap (parser_world empty_state "bad B"))
                    (log (parser_world empty_state "bad B")
                     ++ [(ERROR,
                          Msg_parse_error (pre +:+ ">>>" +:+ post) "bad" "ID")]))
             (calls empty_state ++ [Call_parse "bad B"]))
    ∧ pre +:+ post = "bad B"
    ∧ String.length pre = 0 `min` String.length "bad B".
Proof.
  apply (interpret_line_marks_token (demo [] ZeroDivisionError) rory "bad B"
           "ID" "bad" 0 empty_state).
  vm_compute. reflexivity.
Defined.

(** X9: an exception of the parser that carries no token is re-raised as it
    is.  It is logged (as the exception itself) only when it is a ValueError;
    any other exception, such as the KeyError of a reference to an unknown
    name, leaves [interpret_program] without a log record.  The knowledge is
    unchanged either way. *)
Theorem interpret_line_reraises (E : collaborators) (self : config)
    (line : string) (e : exn) (st : state) (w2 : world) :
  parse E (safe_lookup (knowledge st)) (self_debug self) line
    (parser_world st line) = (Raise e, w2) →
  (∀ t v i, e ≠ ValueError_token t v i) →
  interpret_line E self line st
  = (Raise e,
     State (knowledge st)
           (World (heap w2)
                  (log w2 ++ (if is_ValueError e
                              then [(ERROR, Msg_exception e)] else [])))
           (calls st ++ [Call_parse line])).
Proof.
  intros Hp Htok.
  unfold interpret_line, parser_world, parse_failed in *.
  unfold_se. simpl. rewrite Hp. simpl.
  destruct e; simpl; rewrite ?app_nil_r; try (by destruct w2).
  exfalso. by eapply Htok.
Qed.

Lemma interpret_line_reraises_witness :
  interpret_line (demo [] ZeroDivisionError) rory "agg A sev.Z" empty_state
  = (Raise (KeyError_not_found (ITuple "sev" "Z")),
     State (knowledge empty_state)
           (World (heap empty_state.(world_of))
                  ([(DEBUG, Msg_program_line "agg A sev.Z");
                    (ERROR, Msg_id_not_found "sev" "Z")]
                   ++ (if is_ValueError (KeyError_not_found (ITuple "sev" "Z"))
                       then [(ERROR, Msg_exception
                                       (KeyError_not_found (ITuple "sev" "Z")))]
                       else [])))
           (calls empty_state ++ [Call_parse "agg A sev.Z"])).
Proof.
  apply (interpret_line_reraises (demo [] ZeroDivisionError) rory "agg A sev.Z"
           (KeyError_not_found (ITuple "sev" "Z")) empty_state
           (World (heap empty_state.(world_of))
                  [(DEBUG, Msg_program_line "agg A sev.Z");
                   (ERROR, Msg_id_not_found "sev" "Z")])).
  - vm_compute. reflexivity.
  - intros t v i. discriminate.
Defined.

(** * What the methods leave alone *)

Section Respects.
Variable R : state → state → Prop.
Hypothesis R_refl : ∀ st, R st st.
Hypothesis R_trans : ∀ a b c, R a b → R b c → R a c.
Hypothesis R_world : ∀ st w, R st (State (knowledge st) w (calls st)).

Lemma respects_ret {A} (a : A) : respects R (ret a).
Proof. intros st r st' [= <- <-]. apply R_refl. Qed.

Lemma respects_raise {A} (e : exn) : respects R (@raise state A e).
Proof. intros st r st' [= <- <-]. apply R_refl. Qed.

Lemma respects_gets {A} (f : state → A) : respects R (gets f).
Proof. intros st r st' [= <- <-]. apply R_refl. Qed.

Lemma respects_of_result {A} (x : result A) : respects R (of_result x).
Proof. intros st r st' [= <- <-]. apply R_refl. Qed.

Lemma respects_liftW {A} (m : W A) : respects R (liftW m).
Proof.
  intros st r st'. unfold liftW. destruct (m (world_of st)) as [x w].
  intros [= <- <-]. apply R_world.
Qed.

Lemma respects_bind {A B} (m : M A) (k : A → M B) :
  respects R m → (∀ a, respects R (k a)) → respects R (bind m k).
Proof.
  intros Hm Hk st r st'. unfold bind.
  destruct (m st) as [[a|e] st1] eqn:Hrun.
  - intros Hk'. eapply R_trans; [by eapply Hm|by eapply Hk].
  - intros [= <- <-]. by eapply Hm.
Qed.

Lemma respects_try_catch {A} (m : M A) (handle : exn → M A) :
  respects R m → (∀ e, respects R (handle e)) → respects R (try_catch m handle).
Proof.
  intros Hm Hh st r st'. unfold try_catch.
  destruct (m st) as [[a|e] st1] eqn:Hrun.
  - intros [= <- <-]. by eapply Hm.
  - intros Hh'. eapply R_trans; [by eapply Hm|by eapply Hh].
Qed.
End Respects.

Lemma same_store_refl st : same_store st st.
Proof. split; [done|]. exists []. by rewrite app_nil_r. Qed.

Lemma same_store_trans a b c : same_store a b → same_store b c → same_store a c.
Proof.
  intros [Hk1 (cs1 & Hc1 & Hu1)] [Hk2 (cs2 & Hc2 & Hu2)]. split; [congruence|].
  exists (cs1 ++ cs2). split; [by rewrite Hc2, Hc1, app_assoc|].
  by apply Forall_app.
Qed.

Lemma same_store_world st w : same_store st (State (knowledge st) w (calls st)).
Proof. split; [done|]. exists []. by rewrite app_nil_r. Qed.

Lemma same_store_record_update l args :
  respects same_store (record_call (Call_update l args)).
Proof.
  intros st r st' [= <- <-]. split; [done|]. simpl.
  exists [Call_update l args]. split; [done|]. by repeat constructor.
Qed.

Lemma keeps_unique_refl st : keeps_unique st st.
Proof. by intros ?. Qed.

Lemma keeps_unique_trans a b c :
  keeps_unique a b → keeps_unique b c → keeps_unique a c.
Proof. unfold keeps_unique. auto. Qed.

Lemma same_store_keeps_unique {A} (m : M A) :
  respects same_store m → respects keeps_unique m.
Proof.
  intros Hm st r st' Hrun Hu. destruct (Hm _ _ _ Hrun) as [-> _]. done.
Qed.

Ltac same_store_step :=
  first
    [ apply (respects_ret _ same_store_refl)
    | apply (respects_raise _ same_store_refl)
    | apply (respects_gets _ same_store_refl)
    | apply (respects_of_result _ same_store_refl)
    | apply (respects_liftW _ same_store_world)
    | apply same_store_record_update
    | apply (respects_bind _ same_store_trans); [|intros ?]
    | apply (respects_try_catch _ same_store_trans); [|intros ?]
    | match goal with
      | |- respects _ (match ?x with _ => _ end) => destruct x
      end ].

Section LeavesAlone.
Variable E : collaborators.
Variable self : config.

(** Constructing an object touches neither the knowledge nor the record of
    external calls. *)
Lemma factory_same_store answer : respects same_store (factory E answer).
Proof. destruct answer. unfold factory. repeat same_store_step. Qed.

Lemma call_update_same_store obj explicit log2 bs kwargs :
  respects same_store (call_update E obj explicit log2 bs kwargs).
Proof. unfold call_update. repeat same_store_step. Qed.

Lemma build_one_same_store answer upd log2 bs kwargs :
  respects same_store (build_one E self answer upd log2 bs kwargs).
Proof.
  unfold build_one, update_failed.
  repeat first [apply call_update_same_store | same_store_step].
Qed.

Lemma build_loop_same_store rv upd log2 bs kwargs :
  respects same_store (build_loop E self rv upd log2 bs kwargs).
Proof.
  induction rv as [|a rv IH]; simpl.
  - apply (respects_ret _ same_store_refl).
  - apply (respects_bind _ same_store_trans); [|by intros ?].
    apply build_one_same_store.
Qed.

Lemma answer_in_same_store earlier a :
  respects same_store (answer_in E earlier a).
Proof.
  induction earlier as [|x rest IH]; simpl;
    repeat first [apply IH | same_store_step].
Qed.

Lemma write_loop_same_store irv rv upd log2 bs kwargs :
  respects same_store (write_loop E irv rv upd log2 bs kwargs).
Proof.
  revert rv. induction irv as [|a irv IH]; intros rv; simpl.
  - apply (respects_ret _ same_store_refl).
  - repeat first [apply factory_same_store | apply call_update_same_store
                 | apply answer_in_same_store | apply IH | same_store_step].
Qed.

Lemma interpret_program_keeps_unique prog :
  respects keeps_unique (interpret_program E self prog).
Proof.
  intros st r st' Hrun. unfold interpret_program in Hrun.
  intros Hu. by eapply interpret_lines_unique_keys.
Qed.
End LeavesAlone.

(** * Further properties of the factory *)

Section FactoryMore.
Variable E : collaborators.
Implicit Types (st : state) (w : world) (h : gmap loc pyobj).

(** A value that equals 1 is a number, whatever the heap holds. *)
Lemma differs_from_one_number h wt :
  ne_one wt = false → differs_from_one h wt = Ok false.
Proof.
  unfold differs_from_one. destruct wt; try (by intros ->).
  unfold ne_one. discriminate.
Qed.

(** The third components of a list of triples. *)
Lemma thirds_of_triples h (triples specs : list value) :
  Forall2 (λ t s, ∃ l ki ni, t = VRef l ∧ h !! l = Some (OList [ki; ni; s]))
    triples specs →
  thirds h triples = Ok specs.
Proof.
  induction 1 as [|t s triples specs (l & ki & ni & -> & Hl) _ IH]; simpl;
    [done|].
  by rewrite Hl, IH.
Qed.
End FactoryMore.

(** X10: for kind agg the factory builds an Aggregate from the
    specification: when the constructor returns, the Answer comes back with
    its object set to a new instance of Aggregate, at an address that was
    free, holding what the constructor produced plus the attribute [program]
    set to the Answer's program.  Kind, name, specification and program of the
    Answer are unchanged. *)
Theorem factory_builds_aggregate (E : collaborators) (n prog : string)
    (sp : value) (st : state) (attrs : gmap string value) (w1 : world) :
  new_Aggregate E sp (world_of st) = (Ok attrs, w1) →
  ∃ l,
    heap w1 !! l = None
    ∧ factory E (MkAnswer "agg" n sp prog VNone) st
      = (Ok (MkAnswer "agg" n sp prog (VRef l)),
         State (knowledge st)
               (World (<[l := OInstance Aggregate
                                (<["program" := VStr prog]> attrs)]> (heap w1))
                      (log w1))
               (calls st)).
Proof.
  intros Hnew. exists (fresh (dom (heap w1))). split.
  - apply not_elem_of_dom, is_fresh.
  - unfold factory. unfold_se. unfold new_instance, alloc, setattr. simpl.
    rewrite Hnew. simpl. rewrite lookup_insert_eq. simpl.
    by rewrite insert_insert_eq.
Qed.

Lemma factory_builds_aggregate_witness :
  ∃ l,
    heap (world_of discrete_state) !! l = None
    ∧ factory (demo [] ZeroDivisionError)
        (MkAnswer "agg" "D" (VRef 0) "agg D" VNone) discrete_state
      = (Ok (MkAnswer "agg" "D" (VRef 0) "agg D" (VRef l)),
         State (knowledge discrete_state)
               (World (<[l := OInstance Aggregate
                                (<["program" := VStr "agg D"]>
                                   {[ "spec" := VRef 0 ]})]>
                         (heap (world_of discrete_state)))
                      (log (world_of discrete_state)))
               (calls discrete_state)).
Proof.
  apply (factory_builds_aggregate (demo [] ZeroDivisionError) "D" "agg D"
           (VRef 0) discrete_state {[ "spec" := VRef 0 ]}
           (world_of discrete_state)).
  reflexivity.
Defined.

(** X11: for kind sev whose specification has no [sev_wt], or has one equal
    to 1, the factory does build: the Answer comes back with a new Severity
    instance carrying the [program] attribute, and no warning is logged. *)
Theorem factory_builds_unit_severity (E : collaborators) (n prog : string)
    (ls : loc) (d attrs : gmap string value) (st : state) (w1 : world) :
  heap (world_of st) !! ls = Some (ODict d) →
  (d !! "sev_wt" = None ∨ ∃ wt, d !! "sev_wt" = Some wt ∧ ne_one wt = false) →
  new_Severity E (VRef ls) (world_of st) = (Ok attrs, w1) →
  ∃ l,
    heap w1 !! l = None
    ∧ factory E (MkAnswer "sev" n (VRef ls) prog VNone) st
      = (Ok (MkAnswer "sev" n (VRef ls) prog (VRef l)),
         State (knowledge st)
               (World (<[l := OInstance Severity
                                (<["program" := VStr prog]> attrs)]> (heap w1))
                      (log w1))
               (calls st)).
Proof.
  intros Hls Hwt Hnew. exists (fresh (dom (heap w1))). split.
  - apply not_elem_of_dom, is_fresh.
  - unfold factory. unfold_se.
    unfold contains, subscript, new_instance, alloc, setattr. simpl.
    rewrite Hls. destruct Hwt as [Hnone|(wt & Hsome & Hone)].
    + rewrite Hnone. simpl. rewrite Hnew. simpl.
      rewrite lookup_insert_eq. simpl. by rewrite insert_insert_eq.
    + apply (differs_from_one_number (heap (world_of st))) in Hone.
      rewrite Hsome. simpl. rewrite Hls, Hsome. simpl. rewrite Hone. simpl.
      rewrite Hnew. simpl.
      rewrite lookup_insert_eq. simpl. by rewrite insert_insert_eq.
Qed.

Lemma factory_builds_unit_severity_witness :
  ∃ l,
    heap sev_X_world !! l = None
    ∧ factory (demo [] ZeroDivisionError)
        (MkAnswer "sev" "X" (VRef 0) "sev X" VNone) (State sev_X sev_X_world [])
      = (Ok (MkAnswer "sev" "X" (VRef 0) "sev X" (VRef l)),
         State sev_X
               (World (<[l := OInstance Severity
                                (<["program" := VStr "sev X"]>
                                   {[ "spec" := VRef 0 ]})]>
                         (heap sev_X_world))
                      (log sev_X_world))
               []).
Proof.
  apply (factory_builds_unit_severity (demo [] ZeroDivisionError) "X" "sev X" 0
           {[ "sev_xs" := VRef 1; "sev_wt" := VInt 1 ]} {[ "spec" := VRef 0 ]}
           (State sev_X sev_X_world []) sev_X_world).
  - reflexivity.
  - right. exists (VInt 1). split; reflexivity.
  - reflexivity.
Defined.

(** X12: for kind port the factory hands the Portfolio constructor the
    Answer's name and the list made of the third component of every triple of
    [spec['spec']], in order (kind and name of each triple are dropped); the
    Answer comes back with a new Portfolio instance carrying the [program]
    attribute. *)
Theorem factory_builds_portfolio (E : collaborators) (n prog : string)
    (lp lt : loc) (d attrs : gmap string value) (triples specs : list value)
    (st : state) (w1 : world) :
  heap (world_of st) !! lp = Some (ODict d) →
  d !! "spec" = Some (VRef lt) →
  heap (world_of st) !! lt = Some (OList triples) →
  Forall2 (λ t s, ∃ l ki ni,
             t = VRef l ∧ heap (world_of st) !! l = Some (OList [ki; ni; s]))
    triples specs →
  new_Portfolio E (knowledge st) n specs (world_of st) = (Ok attrs, w1) →
  ∃ l,
    heap w1 !! l = None
    ∧ factory E (MkAnswer "port" n (VRef lp) prog VNone) st
      = (Ok (MkAnswer "port" n (VRef lp) prog (VRef l)),
         State (knowledge st)
               (World (<[l := OInstance Portfolio
                                (<["program" := VStr prog]> attrs)]> (heap w1))
                      (log w1))
               (calls st)).
Proof.
  intros Hlp Hspec Hlt Htriples Hnew. exists (fresh (dom (heap w1))). split.
  - apply not_elem_of_dom, is_fresh.
  - apply thirds_of_triples in Htriples.
    unfold factory. unfold_se.
    unfold subscript, agg_list_of, new_instance, alloc, setattr. simpl.
    rewrite Hlp, Hspec, Hlt, Htriples. simpl. rewrite Hnew. simpl.
    rewrite lookup_insert_eq. simpl. by rewrite insert_insert_eq.
Qed.

Lemma factory_builds_portfolio_witness :
  ∃ l,
    heap (world_of portfolio_state) !! l = None
    ∧ factory (demo [] ZeroDivisionError)
        (MkAnswer "port" "P" (VRef 0) "port P agg A" VNone) portfolio_state
      = (Ok (MkAnswer "port" "P" (VRef 0) "port P agg A" (VRef l)),
         State (knowledge portfolio_state)
               (World (<[l := OInstance Portfolio
                                (<["program" := VStr "port P agg A"]> ∅)]>
                         (heap (world_of portfolio_state)))
                      (log (world_of portfolio_state)))
               (calls portfolio_state)).
Proof.
  apply (factory_builds_portfolio (demo [] ZeroDivisionError) "P" "port P agg A"
           0 1 {[ "spec" := VRef 1 ]} ∅ [VRef 2] [VRef 3] portfolio_state
           (world_of portfolio_state)).
  - reflexivity.
  - reflexivity.
  - reflexivity.
  - constructor; [|constructor]. exists 2, (VStr "agg"), (VStr "A").
    split; reflexivity.
  - reflexivity.
Defined.

(** * Further properties of [write] and [build] *)

Lemma keeps_unique_world st w :
  keeps_unique st (State (knowledge st) w (calls st)).
Proof. by intros ?. Qed.

Ltac keeps_unique_step :=
  first
    [ apply (respects_ret _ keeps_unique_refl)
    | apply (respects_raise _ keeps_unique_refl)
    | apply (respects_gets _ keeps_unique_refl)
    | apply (respects_of_result _ keeps_unique_refl)
    | apply (respects_liftW _ keeps_unique_world)
    | apply interpret_program_keeps_unique
    | apply same_store_keeps_unique, factory_same_store
    | apply same_store_keeps_unique, call_update_same_store
    | apply same_store_keeps_unique, write_loop_same_store
    | apply same_store_keeps_unique, build_loop_same_store
    | apply (respects_bind _ keeps_unique_trans); [|intros ?]
    | apply (respects_try_catch _ keeps_unique_trans); [|intros ?]
    | match goal with
      | |- respects _ (match ?x with _ => _ end) => destruct x
      end ].

Section WriteBuildMore.
Variable E : collaborators.
Variable self : config.
Implicit Types (st : state) (rv : list Answer) (a : Answer).

Lemma write_keeps_unique prog log2 bs upd kwargs :
  respects keeps_unique (write E self prog log2 bs upd kwargs).
Proof. unfold write. repeat keeps_unique_step. Qed.

Lemma build_keeps_unique prog upd log2 bs kwargs :
  respects keeps_unique (build E self prog upd log2 bs kwargs).
Proof.
  unfold build.
  repeat first [apply write_keeps_unique | keeps_unique_step].
Qed.

(** The factory returns the Answer it was given, up to the object. *)
Lemma factory_parsed a st a' st' :
  factory E a st = (Ok a', st') → parsed a' = parsed a.
Proof.
  destruct a as [k n sp prog obj]. unfold factory. unfold bind at 1.
  destruct ((if is_None obj then ret () else liftW (logger ERROR Msg_surprising_obj)) st)
    as [[u|e] st1]; [|done].
  unfold bind at 1.
  match goal with |- context [?m st1] => destruct (m st1) as [[o|e] st2] end;
    [|done].
  by intros [= <- <-].
Qed.

(** A bare-name lookup that succeeds gives an Answer without object. *)
Lemma getitem_name_object kn n a :
  __getitem__ (IStr n) kn = Ok a → object a = VNone.
Proof.
  unfold __getitem__, xs.
  destruct (filter _ kn) as [|r [|r' rows]]; simpl; try done.
  by intros [= <-].
Qed.

(** What [write] does when the text is a stored bare name. *)
Lemma write_shortcut prog log2 bs upd kwargs a st :
  __getitem__ (IStr prog) (knowledge st) = Ok a →
  write E self prog log2 bs (Some upd) kwargs st
  = (answer <- factory E a;;
     (if upd
      then call_update E (object answer) []
             (if upd && (log2 =? 0)%Z then self_log2 self else log2) bs kwargs
      else ret tt);;
     ret [answer])%se
      (State (knowledge st)
             (World (heap (world_of st))
                    (log (world_of st)
                     ++ [(DEBUG, Msg_object_found (kind a))]))
             (calls st)).
Proof.
  intros Hget. unfold write.
  unfold bind at 1. unfold try_catch, bind at 1. unfold gets at 1.
  unfold bind at 1. unfold of_result at 1. rewrite Hget. unfold ret at 1.
  unfold bind at 1. unfold liftW, logger, modify. simpl. done.
Qed.

(** What [write] does when the text is not a stored bare name. *)
Lemma write_program prog log2 bs upd kwargs e st :
  __getitem__ (IStr prog) (knowledge st) = Raise e →
  write E self prog log2 bs (Some upd) kwargs st
  = (irv <- interpret_program E self prog;;
     rv <- write_loop E irv [] upd
             (if upd && (log2 =? 0)%Z then self_log2 self else log2) bs kwargs;;
     (if bool_decide (length rv ≠ 0)
      then liftW (logger INFO (Msg_program_created (length rv)))
      else ret tt);;
     ret rv)%se (shortcut_missed st).
Proof.
  intros Hget. unfold write, shortcut_missed.
  unfold bind at 1. unfold try_catch, bind at 1. unfold gets at 1.
  unfold bind at 1. unfold of_result at 1. rewrite Hget.
  rewrite (getitem_name_raises _ _ _ Hget). simpl.
  unfold bind at 1. unfold liftW, logger, modify. simpl. done.
Qed.

Lemma write_loop_parsed irv rv0 upd log2 bs kwargs st rv st' :
  write_loop E irv rv0 upd log2 bs kwargs st = (Ok rv, st') →
  parsed <$> rv = (parsed <$> rv0) ++ (parsed <$> irv).
Proof.
  revert rv0 st. induction irv as [|a irv IH]; intros rv0 st; simpl.
  - intros [= <- <-]. by rewrite app_nil_r.
  - unfold bind at 1.
    destruct (factory E a st) as [[a'|e] st1] eqn:Hf; [|done].
    apply factory_parsed in Hf.
    unfold bind at 1.
    destruct (answer_in E rv0 a' st1) as [[found|e] st2]; [|done].
    unfold bind at 1.
    match goal with |- context [?m st2] => destruct (m st2) as [[u|e] st3] end;
      [|done].
    unfold bind at 1. unfold gets at 1.
    unfold bind at 1.
    match goal with |- context [?m st3] => destruct (m st3) as [[u'|e] st4] end;
      [|done].
    intros Hrest%IH. rewrite Hrest, fmap_app, <- app_assoc. simpl.
    by rewrite Hf.
Qed.

(** With update off, the loop of [build] only logs. *)
Lemma build_loop_no_update rv log2 bs kwargs st :
  ∃ lg,
    build_loop E self rv false log2 bs kwargs st
    = (Ok tt,
       State (knowledge st)
             (World (heap (world_of st)) (log (world_of st) ++ lg))
             (calls st)).
Proof.
  revert st. induction rv as [|a rv IH]; intros st; simpl.
  - exists []. unfold ret. rewrite app_nil_r. by destruct st as [? [] ?].
  - assert (∃ lg1, build_one E self a false log2 bs kwargs st
                   = (Ok tt, State (knowledge st)
                               (World (heap (world_of st))
                                      (log (world_of st) ++ lg1))
                               (calls st))) as [lg1 H1].
    { unfold build_one. unfold_se. simpl.
      destruct (object a) as [| | | | |l]; simpl; try (by eexists [_]).
      destruct (heap (world_of st) !! l) as [[d|vs|[] attrs|arr]|]; simpl.
      all: try (exists []; rewrite app_nil_r; by destruct st as [? [] ?]).
      all: by eexists [_]. }
    unfold bind. rewrite H1.
    destruct (IH (State (knowledge st)
                    (World (heap (world_of st)) (log (world_of st) ++ lg1))
                    (calls st))) as [lg2 H2].
    rewrite H2. simpl. exists (lg1 ++ lg2). by rewrite app_assoc.
Qed.
End WriteBuildMore.

(** X13: unique identifiers are an invariant of the whole engine: whatever
    [build] does, returning or raising, a knowledge whose (kind, name) pairs
    are unique stays so.  The knowledge of a new Underwriter is empty, so
    every knowledge reached through [build] has unique identifiers. *)
Theorem build_keeps_unique_keys (E : collaborators) (self : config)
    (prog : string) (upd : bool) (log2 : Z) (bs : Q)
    (kwargs : list (string * value)) (st st' : state) (r : result build_result) :
  unique_keys (knowledge st) →
  build E self prog upd log2 bs kwargs st = (r, st') →
  unique_keys (knowledge st').
Proof.
  intros Hu Hrun. by eapply (build_keeps_unique E self). 
Qed.

Lemma build_keeps_unique_keys_witness :
  unique_keys
    (knowledge (build (demo [] ZeroDivisionError) rory "sev A;agg B;sev A"
                  true 0 0 [] empty_state).2).
Proof.
  apply (build_keeps_unique_keys (demo [] ZeroDivisionError) rory
           "sev A;agg B;sev A" true 0 0 [] empty_state _
           (build (demo [] ZeroDivisionError) rory "sev A;agg B;sev A"
              true 0 0 [] empty_state).1).
  - apply unique_keys_nil.
  - by destruct (build _ _ _ _ _ _ _ _).
Defined.

(** X14: when the text given to [build] is a bare name stored under exactly
    one kind, the text is never handed to the parser and the knowledge is not
    changed: the only external calls are update calls.  The factory is called
    on the stored record; if it raises, [build] raises the same exception,
    and if [build] returns, it returns the object the factory built from the
    stored record, or the factory's Answer when no object was built, never a
    list. *)
Theorem build_bare_name_never_parses (E : collaborators) (self : config)
    (prog : string) (upd : bool) (log2 : Z) (bs : Q)
    (kwargs : list (string * value)) (a : Answer) (st st' : state)
    (r : result build_result) :
  __getitem__ (IStr prog) (knowledge st) = Ok a →
  build E self prog upd log2 bs kwargs st = (r, st') →
  same_store st st'
  ∧ (∀ e st1, factory E a (object_found st a) = (Raise e, st1) →
       r = Raise e ∧ st' = st1)
  ∧ ∀ res, r = Ok res →
      ∃ a' st1,
        factory E a (object_found st a) = (Ok a', st1)
        ∧ res = object_or_answer a'.
Proof.
  intros Hget Hrun. unfold build in Hrun.
  unfold bind at 1 in Hrun.
  rewrite (write_shortcut E self prog 0 0 false _ a st Hget) in Hrun.
  fold (object_found st a) in Hrun.
  set (st0 := object_found st a) in *.
  assert (same_store st st0) as H0 by apply same_store_world.
  unfold bind at 1 in Hrun.
  destruct (factory E a st0) as [[a'|e] st1] eqn:Hf.
  - pose proof (factory_same_store E a _ _ _ Hf) as H1.
    unfold bind at 1, ret at 1 in Hrun. unfold ret at 1 in Hrun.
    rewrite bool_decide_false in Hrun by done.
    unfold bind at 1 in Hrun.
    destruct (build_loop E self [a'] upd log2 bs kwargs st1) as [[u|e] st2] eqn:Hl.
    + pose proof (build_loop_same_store E self _ _ _ _ _ _ _ _ Hl) as H2.
      injection Hrun as <- <-. split_and!.
      * eauto using same_store_trans.
      * done.
      * intros res [= <-]. by exists a', st1.
    + pose proof (build_loop_same_store E self _ _ _ _ _ _ _ _ Hl) as H2.
      injection Hrun as <- <-. split_and!; [eauto using same_store_trans|done..].
  - pose proof (factory_same_store E a _ _ _ Hf) as H1.
    injection Hrun as <- <-. split_and!; [eauto using same_store_trans| |done].
    by intros e' st1' [= <- <-].
Qed.

Lemma build_bare_name_never_parses_witness :
  same_store discrete_state
    (build (demo [] ZeroDivisionError) rory "D" true 0 0 [] discrete_state).2
  ∧ ∃ st1,
      factory (demo [] ZeroDivisionError)
        (MkAnswer "agg" "D" (VRef 0) "agg D 5 claims dsev [10 20 30] fixed" VNone)
        (object_found discrete_state
           (MkAnswer "agg" "D" (VRef 0) "agg D 5 claims dsev [10 20 30] fixed"
              VNone))
      = (Ok (MkAnswer "agg" "D" (VRef 0) "agg D 5 claims dsev [10 20 30] fixed"
               (VRef 3)), st1)
      ∧ (build (demo [] ZeroDivisionError) rory "D" true 0 0 [] discrete_state).1
        = Ok (BObject (VRef 3)).
Proof.
  destruct (build_bare_name_never_parses (demo [] ZeroDivisionError) rory "D"
              true 0 0 []
              (MkAnswer "agg" "D" (VRef 0)
                 "agg D 5 claims dsev [10 20 30] fixed" VNone)
              discrete_state
              (build (demo [] ZeroDivisionError) rory "D" true 0 0 []
                 discrete_state).2
              (Ok (BObject (VRef 3))) eq_refl)
    as (Hsame & _ & Hres).
  { vm_compute. reflexivity. }
  split; [exact Hsame|].
  destruct (Hres _ eq_refl) as (a' & st1 & Hf & Ha').
  exists st1. split; [|vm_compute; reflexivity].
  rewrite Hf. f_equal. f_equal.
  assert (Ok a' = Ok (MkAnswer "agg" "D" (VRef 0)
                        "agg D 5 claims dsev [10 20 30] fixed" (VRef 3))
          :> result Answer) as [= ->]; [|done].
  transitivity ((factory (demo [] ZeroDivisionError)
                   (MkAnswer "agg" "D" (VRef 0)
                      "agg D 5 claims dsev [10 20 30] fixed" VNone)
                   (object_found discrete_state
                      (MkAnswer "agg" "D" (VRef 0)
                         "agg D 5 claims dsev [10 20 30] fixed" VNone))).1).
  - by rewrite Hf.
  - vm_compute. reflexivity.
Defined.

(** X15: [write] with update on, given the bare name of a stored severity
    whose mixture weight makes the comparison with 1 come out true (a number
    other than 1, or anything else that is not an array of several items),
    raises AttributeError: the factory declines to build, and the shortcut
    path then calls [update] on the missing object.  Knowledge and external
    calls are unchanged. *)
Theorem write_update_declined_severity_raises (E : collaborators)
    (self : config) (prog : string) (log2 : Z) (bs : Q)
    (kwargs : list (string * value)) (a : Answer) (l : loc)
    (d : gmap string value) (wt : value) (st : state) :
  __getitem__ (IStr prog) (knowledge st) = Ok a →
  kind a = "sev" → spec a = VRef l →
  heap (world_of st) !! l = Some (ODict d) →
  d !! "sev_wt" = Some wt →
  differs_from_one (heap (world_of st)) wt = Ok true →
  write E self prog log2 bs (Some true) kwargs st
  = (Raise (AttributeError "update"),
     State (knowledge st)
           (World (heap (world_of st))
                  (log (world_of st)
                   ++ [(DEBUG, Msg_object_found "sev");
                       (WARNING, Msg_mixed_severity wt)]))
           (calls st)).
Proof.
  intros Hget Hk Hsp Hl Hwt Hne.
  rewrite (write_shortcut E self prog log2 bs true _ a st Hget).
  pose proof (getitem_name_object _ _ _ Hget) as Hobj.
  destruct a as [k n sp p obj]. simpl in Hk, Hsp, Hobj. subst.
  cbn [kind].
  set (st0 := State (knowledge st)
                (World (heap (world_of st))
                       (log (world_of st) ++ [(DEBUG, Msg_object_found "sev")]))
                (calls st)).
  pose proof (factory_declines_weight E n p VNone wt l d st0 Hl Hwt Hne) as Hf.
  unfold bind at 1. rewrite Hf.
  unfold call_update. unfold_se. simpl. by rewrite <- app_assoc.
Qed.

Lemma write_update_declined_severity_raises_witness :
  write (demo [] ZeroDivisionError) rory "S" 0 0 (Some true) []
    (State [Row "sev" "S" (VRef 0) "sev S"] (world_of half_weight_state) [])
  = (Raise (AttributeError "update"),
     State [Row "sev" "S" (VRef 0) "sev S"]
           (World (heap (world_of half_weight_state))
                  [(DEBUG, Msg_object_found "sev");
                   (WARNING, Msg_mixed_severity (VFloat (b64 1 (-1))))])
           []).
Proof.
  apply (write_update_declined_severity_raises (demo [] ZeroDivisionError) rory
           "S" 0 0 [] (MkAnswer "sev" "S" (VRef 0) "sev S" VNone) 0
           {[ "sev_wt" := VFloat (b64 1 (-1)) ]} (VFloat (b64 1 (-1)))
           (State [Row "sev" "S" (VRef 0) "sev S"] (world_of half_weight_state) []));
    reflexivity.
Defined.

(** X16: when the text is not a stored bare name and [write] returns, it
    returns one Answer per statement of the program, in order: each has the
    kind, name and specification the parser gave for the statement and the
    statement itself as program. *)
Theorem write_returns_parsed (E : collaborators) (self : config)
    (prog : string) (log2 : Z) (bs : Q) (upd : bool)
    (kwargs : list (string * value)) (e : exn) (st st' : state)
    (rv : list Answer) :
  __getitem__ (IStr prog) (knowledge st) = Raise e →
  write E self prog log2 bs (Some upd) kwargs st = (Ok rv, st') →
  ∃ irv st1,
    interpret_program E self prog (shortcut_missed st) = (Ok irv, st1)
    ∧ parsed <$> rv = parsed <$> irv
    ∧ program <$> rv = preprocess E prog.
Proof.
  intros Hget Hrun. rewrite (write_program E self _ _ _ _ _ _ _ Hget) in Hrun.
  unfold bind at 1 in Hrun.
  destruct (interpret_program E self prog (shortcut_missed st))
    as [[irv|e1] st1] eqn:Hi; [|done].
  unfold bind at 1 in Hrun.
  destruct (write_loop E irv [] upd _ bs kwargs st1) as [[rv1|e2] st2] eqn:Hw;
    [|done].
  apply write_loop_parsed in Hw. simpl in Hw.
  unfold bind at 1 in Hrun.
  match type of Hrun with
  | context [?m st2] => destruct (m st2) as [[u|e3] st3]
  end; [|done].
  injection Hrun as <- <-.
  exists irv, st1. split_and!; [done|done|].
  unfold interpret_program in Hi.
  apply interpret_lines_inv in Hi as (new & Hnew & Hprog & _).
  simpl in Hnew. subst new. rewrite <- Hprog.
  assert (program <$> rv1 = (λ p, p.2) <$> (parsed <$> rv1)) as ->
    by (by rewrite <- list_fmap_compose).
  rewrite Hw. by rewrite <- list_fmap_compose.
Qed.

Lemma write_returns_parsed_witness :
  ∃ irv st1,
    interpret_program (demo [] ZeroDivisionError) rory "sev A;agg B"
      (shortcut_missed empty_state) = (Ok irv, st1)
    ∧ parsed <$> two_built = parsed <$> irv
    ∧ program <$> two_built = preprocess (demo [] ZeroDivisionError) "sev A;agg B".
Proof.
  apply (write_returns_parsed (demo [] ZeroDivisionError) rory "sev A;agg B"
           0 0 false [] (KeyError_not_found (IStr "sev A;agg B")) empty_state
           (write (demo [] ZeroDivisionError) rory "sev A;agg B" 0 0
              (Some false) [] empty_state).2 two_built).
  - reflexivity.
  - vm_compute. reflexivity.
Defined.

(** X17: with update off, [build] calls no update and changes neither heap
    nor knowledge after [write]: whenever [write] returns a non-empty list,
    [build] returns what the result rule gives for that list, having only
    added log records. *)
Theorem build_without_update (E : collaborators) (self : config)
    (prog : string) (log2 : Z) (bs : Q) (kwargs : list (string * value))
    (st st1 : state) (rv : list Answer) :
  write E self prog 0 0 (Some false) [("force_severity", VBool true)] st
    = (Ok rv, st1) →
  rv ≠ [] →
  ∃ lg,
    build E self prog false log2 bs kwargs st
    = (Ok (collapse rv),
       State (knowledge st1)
             (World (heap (world_of st1)) (log (world_of st1) ++ lg))
             (calls st1)).
Proof.
  intros Hw Hne. unfold build. unfold bind at 1. rewrite Hw.
  rewrite bool_decide_false by (by destruct rv).
  destruct (build_loop_no_update E self rv log2 bs kwargs st1) as [lg Hl].
  exists lg. unfold bind, ret. by rewrite Hl.
Qed.

Lemma build_without_update_witness :
  ∃ lg,
    build (demo [] ZeroDivisionError) rory "sev A;agg B" false 0 0 [] empty_state
    = (Ok (collapse two_built),
       State (knowledge (write (demo [] ZeroDivisionError) rory "sev A;agg B"
                           0 0 (Some false) [("force_severity", VBool true)]
                           empty_state).2)
             (World (heap (world_of
                             (write (demo [] ZeroDivisionError) rory
                                "sev A;agg B" 0 0 (Some false)
                                [("force_severity", VBool true)] empty_state).2))
                    (log (world_of
                            (write (demo [] ZeroDivisionError) rory
                               "sev A;agg B" 0 0 (Some false)
                               [("force_severity", VBool true)] empty_state).2)
                     ++ lg))
             (calls (write (demo [] ZeroDivisionError) rory "sev A;agg B"
                       0 0 (Some false) [("force_severity", VBool true)]
                       empty_state).2)).
Proof.
  apply (build_without_update (demo [] ZeroDivisionError) rory "sev A;agg B"
           0 0 [] empty_state).
  - vm_compute. reflexivity.
  - discriminate.
Defined.

(** X18: the shapes [build] can return.  A returned object is never None; a
    returned Answer is one without object; a returned list has at least two
    Answers, and the number of portfolios among them is not one.  In
    particular [build] never returns an empty list. *)
Theorem build_result_shape (E : collaborators) (self : config)
    (prog : string) (upd : bool) (log2 : Z) (bs : Q)
    (kwargs : list (string * value)) (st st' : state) (res : build_result) :
  build E self prog upd log2 bs kwargs st = (Ok res, st') →
  match res with
  | BNone => True
  | BObject o => o ≠ VNone
  | BAnswer a => object a = VNone
  | BList rv => 2 ≤ length rv ∧ ports_found rv ≠ 1
  end.
Proof.
  unfold build. unfold bind at 1.
  destruct (write E self prog 0 0 (Some false) _ st) as [[rv|e] st1]; [|done].
  case_bool_decide as Hlen.
  - unfold bind, liftW, logger, modify, ret. simpl. by intros [= <- <-].
  - unfold bind at 1.
    destruct (build_loop E self rv upd log2 bs kwargs st1) as [[u|e] st2];
      [|done].
    unfold ret. intros [= <- <-].
    assert (∀ a, match object_or_answer a with
                 | BNone => True
                 | BObject o => o ≠ VNone
                 | BAnswer a0 => object a0 = VNone
                 | BList rv0 => 2 ≤ length rv0 ∧ ports_found rv0 ≠ 1
                 end) as Hone.
    { intros a. unfold object_or_answer.
      destruct (object a) eqn:Ho; simpl; congruence. }
    destruct rv as [|x [|y rv]].
    + by destruct Hlen.
    + exact (Hone x).
    + unfold collapse.
      destruct (last (x :: y :: rv)) as [a|] eqn:Hlast.
      * case_bool_decide as Hp; [exact (Hone a)|]. split; [simpl; lia|done].
      * by apply last_None in Hlast.
Qed.

Lemma build_result_shape_witness :
  match BObject (VRef 4) with
  | BNone => True
  | BObject o => o ≠ VNone
  | BAnswer a => object a = VNone
  | BList rv => 2 ≤ length rv ∧ ports_found rv ≠ 1
  end.
Proof.
  apply (build_result_shape (demo [] ZeroDivisionError) rory "sev S;port P"
           true 0 0 [] empty_state
           (build (demo [] ZeroDivisionError) rory "sev S;port P" true 0 0 []
              empty_state).2).
  vm_compute. reflexivity.
Defined.

(** * Further properties of the update step *)

Section UpdateMore.
Variable E : collaborators.
Variable self : config.
Implicit Types (st : state) (w : world) (answer : Answer).


(** The parameters outside discrete mode, with no bucket size given. *)
Lemma aggregate_parameters_normal answer l ld d sev_name log2 b w w1 :
  spec answer = VRef ld →
  heap w !! ld = Some (ODict d) →
  d !! "sev_name" = Some sev_name →
  eq_str sev_name "dhistogram" && (log2 =? 0)%Z = false →
  recommend_bucket E l (if (log2 =? 0)%Z then self_log2 self else log2) w
    = (Ok b, w1) →
  Qeq_bool (round_bucket E b) 0 = false →
  aggregate_parameters E self answer l log2 0 w
  = (Ok (if (log2 =? 0)%Z then self_log2 self else log2, round_bucket E b),
     World (heap w1)
           (log w1 ++ [(INFO, Msg_normal_mode (kind answer) (name answer)
                                (round_bucket E b)
                                (if (log2 =? 0)%Z then self_log2 self
                                 else log2))])).
Proof.
  intros Hsp Hld Hsev Hmode Hrec Hnz.
  unfold aggregate_parameters, check_reciprocal. rewrite Hsp.
  unfold_se. unfold subscript. simpl. rewrite Hld, Hsev, Hmode. simpl.
  rewrite Hrec. simpl. rewrite Hnz. done.
Qed.

Lemma portfolio_parameters_best_bucket answer l log2 b w w1 :
  best_bucket E l (if (log2 =? -1)%Z then 13%Z else log2) w = (Ok b, w1) →
  Qeq_bool b 0 = false →
  portfolio_parameters E answer l log2 0 w
  = (Ok (if (log2 =? -1)%Z then 13%Z else log2, b),
     World (heap w1)
           (log w1
            ++ [(INFO, Msg_port_updating log2 b);
                (INFO, Msg_port_params (kind answer) (name answer) b
                         (if (log2 =? -1)%Z then 13%Z else log2))])).
Proof.
  intros Hbest Hnz. unfold portfolio_parameters, check_reciprocal.
  unfold_se. simpl. rewrite Hbest. simpl. rewrite Hnz. simpl.
  by rewrite <- app_assoc.
Qed.

(** Whatever [update] does, an Aggregate round records exactly one call. *)
Lemma build_one_aggregate_calls answer l attrs attrs1 log2 bs kwargs st p w1 :
  object answer = VRef l →
  heap (world_of st) !! l = Some (OInstance Aggregate attrs) →
  aggregate_parameters E self answer l log2 bs (world_of st) = (Ok p, w1) →
  heap w1 !! l = Some (OInstance Aggregate attrs1) →
  keyword_clash ["log2"; "bs"; "debug"; "force_severity"] kwargs = false →
  ∃ r st',
    build_one E self answer true log2 bs kwargs st = (r, st')
    ∧ calls st'
      = calls st ++ [Call_update l
                       (UpdateArgs p.1 p.2 (aggregate_keywords self ++ kwargs))].
Proof.
  intros Hobj Hl Hp Hl1 Hk.
  rewrite (build_one_aggregate E self _ _ _ _ _ _ _ _ _ _ Hobj Hl Hp Hl1 Hk).
  cbv zeta.
  destruct (update E l _ _) as [[u|e] w2]; [by eexists _, _|].
  unfold update_failed. destruct e; unfold_se; by eexists _, _.
Qed.
End UpdateMore.

(** X19: an exception of an Aggregate's update other than ZeroDivisionError
    and AttributeError is not caught: it leaves the loop of [build], and so
    [build], with the object as update left it and nothing logged about
    it. *)
Theorem build_one_aggregate_update_propagates (E : collaborators)
    (self : config) (answer : Answer) (l : loc)
    (attrs attrs1 : gmap string value) (log2 : Z) (bs : Q)
    (kwargs : list (string * value)) (st : state) (p : Z * Q) (w1 w2 : world)
    (e : exn) :
  object answer = VRef l →
  heap (world_of st) !! l = Some (OInstance Aggregate attrs) →
  aggregate_parameters E self answer l log2 bs (world_of st) = (Ok p, w1) →
  heap w1 !! l = Some (OInstance Aggregate attrs1) →
  keyword_clash ["log2"; "bs"; "debug"; "force_severity"] kwargs = false →
  update E l (UpdateArgs p.1 p.2 (aggregate_keywords self ++ kwargs)) w1
    = (Raise e, w2) →
  e ≠ ZeroDivisionError → (∀ msg, e ≠ AttributeError msg) →
  ∀ rest,
    build_loop E self (answer :: rest) true log2 bs kwargs st
    = (Raise e,
       updated st w2 l (UpdateArgs p.1 p.2 (aggregate_keywords self ++ kwargs))).
Proof.
  intros Hobj Hl Hp Hl1 Hk Hup Hz Ha rest. simpl. unfold bind.
  rewrite (build_one_aggregate E self _ _ _ _ _ _ _ _ _ _ Hobj Hl Hp Hl1 Hk).
  cbv zeta. rewrite Hup. unfold update_failed.
  destruct e; try done. by destruct (Ha msg).
Qed.

Lemma build_one_aggregate_update_propagates_witness :
  build_loop failing_aggregate rory [discrete_answer; discrete_answer] true
    0 0 [] discrete_state
  = (Raise (ValueError_msg "degenerate"),
     updated discrete_state
       (update failing_aggregate 2 discrete_args discrete_world).2 2
       discrete_args).
Proof.
  refine (build_one_aggregate_update_propagates failing_aggregate rory
            discrete_answer 2 ∅ ∅ 0 0 [] discrete_state (9%Z, 1%Q)
            discrete_world
            (update failing_aggregate 2 discrete_args discrete_world).2
            (ValueError_msg "degenerate") _ _ _ _ _ _ _ _ [discrete_answer]).
  - reflexivity.
  - reflexivity.
  - vm_compute. reflexivity.
  - vm_compute. reflexivity.
  - reflexivity.
  - vm_compute. reflexivity.
  - discriminate.
  - discriminate.
Defined.

(** X20: an extra keyword that [build] also passes itself (debug or
    force_severity) makes the call of an Aggregate's update fail with
    TypeError before the method runs: update is not called, and the TypeError
    is not among the exceptions [build] catches, so it leaves [build]. *)
Theorem build_one_aggregate_keyword_clash (E : collaborators) (self : config)
    (answer : Answer) (l : loc) (attrs attrs1 : gmap string value) (log2 : Z)
    (bs : Q) (kwargs : list (string * value)) (st : state) (p : Z * Q)
    (w1 : world) (k : string) (v : value) :
  object answer = VRef l →
  heap (world_of st) !! l = Some (OInstance Aggregate attrs) →
  aggregate_parameters E self answer l log2 bs (world_of st) = (Ok p, w1) →
  heap w1 !! l = Some (OInstance Aggregate attrs1) →
  (k, v) ∈ kwargs → k = "debug" ∨ k = "force_severity" →
  ∀ rest,
    build_loop E self (answer :: rest) true log2 bs kwargs st
    = (Raise (TypeError "got multiple values for keyword argument"),
       State (knowledge st) w1 (calls st)).
Proof.
  intros Hobj Hl Hp Hl1 Hin Hk rest.
  assert (keyword_clash ["log2"; "bs"; "debug"; "force_severity"] kwargs = true)
    as Hclash.
  { unfold keyword_clash. apply existsb_exists. exists (k, v). split.
    - by apply list_elem_of_In.
    - apply bool_decide_eq_true. simpl. destruct Hk as [-> | ->]; set_solver. }
  simpl. unfold bind at 1. unfold build_one. rewrite Hobj.
  unfold bind at 1. unfold gets at 1. unfold isinstance. rewrite Hl. simpl.
  unfold bind at 1. unfold liftW at 1. rewrite Hp.
  unfold try_catch, call_update.
  unfold bind at 1. unfold gets at 1. simpl. rewrite Hl1. simpl.
  rewrite Hclash. done.
Qed.

Lemma build_one_aggregate_keyword_clash_witness :
  build_loop failing_aggregate rory [discrete_answer; discrete_answer] true
    0 0 [("debug", VBool true)] discrete_state
  = (Raise (TypeError "got multiple values for keyword argument"),
     State (knowledge discrete_state) discrete_world (calls discrete_state)).
Proof.
  refine (build_one_aggregate_keyword_clash failing_aggregate rory
            discrete_answer 2 ∅ ∅ 0 0 [("debug", VBool true)] discrete_state
            (9%Z, 1%Q) discrete_world "debug" (VBool true) _ _ _ _ _ _
            [discrete_answer]).
  - reflexivity.
  - reflexivity.
  - vm_compute. reflexivity.
  - vm_compute. reflexivity.
  - apply list_elem_of_here.
  - by left.
Defined.

(** X21: for an Aggregate outside discrete mode (the severity is not a
    dhistogram, or the caller gave a log2) and with no bucket size given,
    [build] calls update with the caller's log2, or the engine's default when
    the caller gave 0, and with the bucket size the object recommends for
    that log2, rounded by [round_bucket]. *)
Theorem build_continuous_aggregate_parameters (E : collaborators)
    (self : config) (answer : Answer) (l ld : loc)
    (attrs attrs1 d : gmap string value) (sev_name : value) (log2 : Z) (b : Q)
    (kwargs : list (string * value)) (st : state) (w1 : world) :
  object answer = VRef l →
  heap (world_of st) !! l = Some (OInstance Aggregate attrs) →
  spec answer = VRef ld →
  heap (world_of st) !! ld = Some (ODict d) →
  d !! "sev_name" = Some sev_name →
  eq_str sev_name "dhistogram" && (log2 =? 0)%Z = false →
  recommend_bucket E l (if (log2 =? 0)%Z then self_log2 self else log2)
    (world_of st) = (Ok b, w1) →
  Qeq_bool (round_bucket E b) 0 = false →
  heap w1 !! l = Some (OInstance Aggregate attrs1) →
  keyword_clash ["log2"; "bs"; "debug"; "force_severity"] kwargs = false →
  ∃ r st',
    build_one E self answer true log2 0 kwargs st = (r, st')
    ∧ calls st'
      = calls st
        ++ [Call_update l
              (UpdateArgs (if (log2 =? 0)%Z then self_log2 self else log2)
                 (round_bucket E b) (aggregate_keywords self ++ kwargs))].
Proof.
  intros Hobj Hl Hsp Hld Hsev Hmode Hrec Hnz Hl1 Hk.
  pose proof (aggregate_parameters_normal E self answer l ld d sev_name log2 b
                (world_of st) w1 Hsp Hld Hsev Hmode Hrec Hnz) as Hp.
  exact (build_one_aggregate_calls E self answer l attrs attrs1 log2 0 kwargs st
           _ _ Hobj Hl Hp Hl1 Hk).
Qed.

Lemma build_continuous_aggregate_parameters_witness :
  ∃ r st',
    build_one (demo [] ZeroDivisionError) rory built_aggregate true 0 0 []
      built_state = (r, st')
    ∧ calls st'
      = calls built_state
        ++ [Call_update 1
              (UpdateArgs (if (0 =? 0)%Z then self_log2 rory else 0)
                 (round_bucket (demo [] ZeroDivisionError) (1 # 4))
                 (aggregate_keywords rory ++ []))].
Proof.
  apply (build_continuous_aggregate_parameters (demo [] ZeroDivisionError) rory
           built_aggregate 1 0 ∅ ∅
           {[ "sev_name" := VStr "lognorm"; "freq_name" := VStr "poisson" ]}
           (VStr "lognorm") 0 (1 # 4) [] built_state (world_of built_state));
    reflexivity.
Defined.



(** X23: for a Portfolio with no bucket size given, [build] calls update
    with log2 = 13 when the caller gave -1 and with the caller's value
    otherwise (the engine's default log2 is not used, so the default 0 is
    passed on as 0), and with the bucket size the object's [best_bucket]
    gives for that log2. *)
Theorem build_portfolio_parameters (E : collaborators) (self : config)
    (answer : Answer) (l : loc) (attrs attrs1 : gmap string value) (log2 : Z)
    (b : Q) (kwargs : list (string * value)) (st : state) (w1 : world) :
  object answer = VRef l →
  heap (world_of st) !! l = Some (OInstance Portfolio attrs) →
  best_bucket E l (if (log2 =? -1)%Z then 13%Z else log2) (world_of st)
    = (Ok b, w1) →
  Qeq_bool b 0 = false →
  heap w1 !! l = Some (OInstance Portfolio attrs1) →
  keyword_clash ["log2"; "bs"; "remove_fuzz"; "force_severity"; "debug"] kwargs
    = false →
  ∃ r st',
    build_one E self answer true log2 0 kwargs st = (r, st')
    ∧ calls st'
      = calls st
        ++ [Call_update l
              (UpdateArgs (if (log2 =? -1)%Z then 13%Z else log2) b
                 (portfolio_keywords self ++ kwargs))].
Proof.
  intros Hobj Hl Hbest Hnz Hl1 Hk.
  pose proof (portfolio_parameters_best_bucket E answer l log2 b (world_of st)
                w1 Hbest Hnz) as Hp.
  rewrite (build_one_portfolio E self answer l attrs attrs1 log2 0 kwargs st
             _ _ Hobj Hl Hp Hl1 Hk).
  by eexists _, _.
Qed.

Lemma build_portfolio_parameters_witness :
  ∃ r st',
    build_one (demo [] ZeroDivisionError) rory built_portfolio true (-1) 0 []
      built_state = (r, st')
    ∧ calls st'
      = calls built_state
        ++ [Call_update 3
              (UpdateArgs (if (-1 =? -1)%Z then 13%Z else (-1)%Z) (1 # 2)
                 (portfolio_keywords rory ++ []))].
Proof.
  apply (build_portfolio_parameters (demo [] ZeroDivisionError) rory
           built_portfolio 3 ∅ ∅ (-1) (1 # 2) [] built_state
           (world_of built_state)); reflexivity.
Defined.

(** * The interpreter test harness *)

Ltac unfold_x :=
  unfold liftM, note_log, bind, ret, raise, gets, modify, of_result, try_catch,
    liftW, logger, record_call in *.

Section HarnessProps.
Variable E : collaborators.
Implicit Types (s : session) (ans : list (test_name * test_row)).

Lemma dict_set_fresh {K V} `{EqDecision K} (k : K) (v : V) (d : list (K * V)) :
  k ∉ d.*1 → dict_set k v d = d ++ [(k, v)].
Proof.
  induction d as [|[k' v'] d IH]; simpl; [done|].
  rewrite not_elem_of_cons. intros [Hne Hd].
  rewrite decide_False by done. by rewrite IH.
Qed.

(** One test never changes the knowledge. *)
Lemma interpreter_one_knowledge debug program s r s' :
  interpreter_one E debug program s = (r, s') →
  knowledge (engine s') = knowledge (engine s).
Proof.
  unfold interpreter_one. unfold bind at 1.
  destruct program as [p|[|c cols]]; unfold ret at 1, raise at 1;
    [|by intros [= <- <-]|].
  all: match goal with
       | |- context [preprocess E ?x] =>
           destruct (preprocess E x) as [|line [|line2 lines]]
       end.
  all: try (unfold_x; simpl; by intros [= <- <-]).
  all: unfold_x; simpl;
    destruct (parse E _ debug line _) as [[kns|e] w]; simpl;
    [by intros [= <- <-]|].
  all: destruct (is_ValueError e || is_TypeError e); simpl;
    [destruct (first_word line)|]; by intros [= <- <-].
Qed.

Lemma interpreter_loop_spec debug (ps : list test_program) (n : nat) ans s r s' :
  ans.*1 = Name_int <$> seq 0 n →
  interpreter_loop E debug (imap (λ i p, (Name_int (n + i), p)) ps) ans s
    = (r, s') →
  knowledge (engine s') = knowledge (engine s)
  ∧ ∀ rows, r = Ok rows → rows.*1 = Name_int <$> seq 0 (n + length ps).
Proof.
  revert n ans s. induction ps as [|p ps IH]; intros n ans s Hans; simpl.
  - intros [= <- <-]. split; [done|]. intros rows [= <-].
    by rewrite Nat.add_0_r.
  - unfold bind at 1.
    destruct (interpreter_one E debug p s) as [[row|e] s1] eqn:H1.
    + apply interpreter_one_knowledge in H1. intros Hrest.
      rewrite (imap_ext _ (λ i p0, (Name_int (S n + i), p0))) in Hrest
        by (intros i x _; simpl; f_equal; f_equal; lia).
      apply IH in Hrest as [Hk Hrows].
      * split; [congruence|]. intros rows Hr.
        rewrite (Hrows rows Hr). f_equal. f_equal. lia.
      * rewrite Nat.add_0_r, dict_set_fresh.
        -- by rewrite fmap_app, Hans, seq_S, fmap_app.
        -- rewrite Hans. intros (i & [= <-] & Hi%elem_of_seq)%list_elem_of_fmap_1.
           lia.
    + apply interpreter_one_knowledge in H1.
      intros [= <- <-]. split; [done|]. by intros rows.
Qed.
End HarnessProps.

(** X24: [interpreter_list] never stores what it parses: however the run
    ends, the knowledge is the one it started with.  When it returns, it
    returns exactly one row per program of the list, keyed by the position
    0, 1, 2, ... of the program, in that order. *)
Theorem interpreter_list_rows (E : collaborators)
    (program_list : list test_program) (s s' : session)
    (r : result (list (test_name * test_row))) :
  interpreter_list E program_list s = (r, s') →
  knowledge (engine s') = knowledge (engine s)
  ∧ ∀ rows, r = Ok rows →
      rows.*1 = Name_int <$> seq 0 (length program_list).
Proof.
  unfold interpreter_list, _interpreter_work. intros Hrun.
  by apply (interpreter_loop_spec E true program_list 0 [] s r s').
Qed.

Lemma interpreter_list_rows_witness :
  knowledge (engine (interpreter_list (demo [] ZeroDivisionError) three_tests
                       empty_session).2)
  = knowledge (engine empty_session)
  ∧ ∀ rows,
      (interpreter_list (demo [] ZeroDivisionError) three_tests empty_session).1
      = Ok rows →
      rows.*1 = Name_int <$> seq 0 (length three_tests).
Proof.
  apply (interpreter_list_rows (demo [] ZeroDivisionError) three_tests
           empty_session).
  by destruct (interpreter_list _ _ _).
Defined.



(** X26: a test whose text preprocesses to no statement, or to more than
    one, is not parsed: the parser is not called and the engine state is
    untouched.  Its row has kind 'blank' or 'multiline', error 0, no name
    and no output, and carries the list of preprocessed lines and the text
    as given. *)
Theorem interpreter_one_not_parsed (E : collaborators) (debug : bool)
    (program_in : string) (s : session) :
  length (preprocess E program_in) ≠ 1 →
  ∃ extra,
    interpreter_one E debug (Prog_str program_in) s
    = (Ok (TestRow (if bool_decide (preprocess E program_in = [])
                    then "blank" else "multiline")
             0 None VNone (inr (preprocess E program_in)) program_in),
       Session (engine s) (notes s ++ extra)).
Proof.
  intros Hlen. unfold interpreter_one. unfold bind at 1. unfold ret at 1.
  destruct (preprocess E program_in) as [|l1 [|l2 lines]]; [|done|].
  - eexists [_]. unfold_x. simpl. done.
  - eexists [_; _]. unfold_x. simpl. by rewrite <- app_assoc.
Qed.

Lemma interpreter_one_not_parsed_witness :
  ∃ extra,
    interpreter_one (demo [] ZeroDivisionError) true (Prog_str "sev A;agg B")
      empty_session
    = (Ok (TestRow (if bool_decide (preprocess (demo [] ZeroDivisionError)
                                      "sev A;agg B" = [])
                    then "blank" else "multiline")
             0 None VNone
             (inr (preprocess (demo [] ZeroDivisionError) "sev A;agg B"))
             "sev A;agg B"),
       Session (engine empty_session) (notes empty_session ++ extra)).
Proof.
  apply (interpreter_one_not_parsed (demo [] ZeroDivisionError) true
           "sev A;agg B" empty_session).
  vm_compute. lia.
Defined.

(** * The database loader and the constructor *)

Section LoaderProps.
Variable E : collaborators.
Variable self : config.
Variable fs : filesystem.
Implicit Types (s : session) (fn : string).

(** What [read_database] does once the file is found and read. *)
Lemma read_database_found fn db_path text s :
  (let p := if String.eqb (suffix fs fn) EmptyString
            then with_suffix fs fn ".agg" else fn in
   if path_exists fs p then Some p
   else if path_exists fs (joinpath fs (the_site_dir fs) p)
        then Some (joinpath fs (the_site_dir fs) fn)
   else if path_exists fs (joinpath fs (the_default_dir fs) p)
        then Some (joinpath fs (the_default_dir fs) p)
   else None) = Some db_path →
  read_text fs db_path = Ok text →
  read_database E self fs fn s
  = let '(r, st') := interpret_program E self text (engine s) in
    let reading := (length (log (world_of (engine s))), INFO,
                    Note_reading_database fn) in
    match r with
    | Ok _ =>
        (Ok tt,
         Session st'
           (notes s ++ [reading;
                        (length (log (world_of st')), INFO,
                         Note_database_read fn
                           (Z.of_nat (length (knowledge st'))
                            - Z.of_nat (length (knowledge (engine s)))))]))
    | Raise e => (Raise e, Session st' (notes s ++ [reading]))
    end.
Proof.
  intros Hfound Hread. unfold read_database. cbv zeta in Hfound.
  rewrite Hfound, Hread. unfold_x. simpl.
  destruct (interpret_program E self text (engine s)) as [[rv|e] st']; simpl;
    [|done].
  by rewrite <- app_assoc.
Qed.

Lemma read_database_unique fn s r s' :
  read_database E self fs fn s = (r, s') →
  unique_keys (knowledge (engine s)) → unique_keys (knowledge (engine s')).
Proof.
  unfold read_database.
  match goal with |- context [match ?f with Some _ => _ | None => _ end] =>
    destruct f as [db_path|] end.
  - destruct (read_text fs db_path) as [text|e].
    + unfold_x. simpl.
      destruct (interpret_program E self text (engine s)) as [[rv|e] st'] eqn:Hi;
        simpl; intros [= <- <-] Hu; simpl;
        by eapply (interpret_program_keeps_unique E self).
    + unfold_x. by intros [= <- <-].
  - unfold_x. by intros [= <- <-].
Qed.

Lemma read_databases_unique fns s r s' :
  read_databases E self fs fns s = (r, s') →
  unique_keys (knowledge (engine s)) → unique_keys (knowledge (engine s')).
Proof.
  revert s. induction fns as [|fn fns IH]; intros s; simpl.
  - by intros [= <- <-].
  - unfold bind at 1.
    destruct (read_database E self fs fn s) as [[u|e] s1] eqn:H1.
    + intros Hrest Hu. eapply IH; [exact Hrest|].
      by eapply read_database_unique.
    + intros [= <- <-]. by eapply read_database_unique.
Qed.
End LoaderProps.

(** X27: a database that is found neither as given (with .agg added when the
    name has no suffix), nor in the user's directory, nor in the installation
    directory is ignored: [read_database] logs one error naming it and
    returns, leaving the engine as it was. *)
Theorem read_database_not_found (E : collaborators) (self : config)
    (fs : filesystem) (fn : string) (s : session) :
  (let p := if String.eqb (suffix fs fn) EmptyString
            then with_suffix fs fn ".agg" else fn in
   path_exists fs p = false
   ∧ path_exists fs (joinpath fs (the_site_dir fs) p) = false
   ∧ path_exists fs (joinpath fs (the_default_dir fs) p) = false) →
  read_database E self fs fn s
  = (Ok tt,
     Session (engine s)
       (notes s ++ [(length (log (world_of (engine s))), ERROR,
                     Note_database_not_found fn)])).
Proof.
  cbv zeta. intros (H1 & H2 & H3). unfold read_database.
  rewrite H1, H2, H3. done.
Qed.

Lemma read_database_not_found_witness :
  read_database (demo [] ZeroDivisionError) rory demo_fs "nothing" empty_session
  = (Ok tt,
     Session (engine empty_session)
       (notes empty_session
        ++ [(length (log (world_of (engine empty_session))), ERROR,
             Note_database_not_found "nothing")])).
Proof.
  apply read_database_not_found. cbv zeta. split_and!; reflexivity.
Defined.

(** X28: for a name given without suffix that exists (with .agg added) only
    in the user's directory, [read_database] reads the path made of the
    user's directory and the name as given, without the added suffix.  If
    that path cannot be read, the failure is logged under that path's name
    and ignored: nothing is loaded. *)
Theorem read_database_site_path (E : collaborators) (self : config)
    (fs : filesystem) (fn : string) (e : exn) (s : session) :
  suffix fs fn = EmptyString →
  path_exists fs (with_suffix fs fn ".agg") = false →
  path_exists fs (joinpath fs (the_site_dir fs) (with_suffix fs fn ".agg"))
    = true →
  read_text fs (joinpath fs (the_site_dir fs) fn) = Raise e →
  read_database E self fs fn s
  = (Ok tt,
     Session (engine s)
       (notes s ++ [(length (log (world_of (engine s))), ERROR,
                     Note_database_unreadable
                       (basename fs (joinpath fs (the_site_dir fs) fn)))])).
Proof.
  intros Hsuf H1 H2 Hread. unfold read_database.
  rewrite Hsuf. simpl. rewrite H1, H2, Hread. done.
Qed.

Lemma read_database_site_path_witness :
  read_database (demo [] ZeroDivisionError) rory demo_fs "mine" empty_session
  = (Ok tt,
     Session (engine empty_session)
       (notes empty_session
        ++ [(length (log (world_of (engine empty_session))), ERROR,
             Note_database_unreadable
               (basename demo_fs
                  (joinpath demo_fs (the_site_dir demo_fs) "mine")))])).
Proof.
  apply (read_database_site_path (demo [] ZeroDivisionError) rory demo_fs
           "mine" (OtherError "FileNotFoundError") empty_session); reflexivity.
Defined.

(** X29: when the database is found as given and read, [read_database]
    interprets its text like any program.  If the interpreter raises, the
    exception leaves [read_database] with the statements before the failure
    kept; if it returns, the count reported in the final log record is the
    growth of the knowledge, which is never negative and never more than the
    number of statements. *)
Theorem read_database_loads (E : collaborators) (self : config)
    (fs : filesystem) (fn text : string) (s : session)
    (r : result (list Answer)) (st' : state) :
  suffix fs fn ≠ EmptyString →
  path_exists fs fn = true →
  read_text fs fn = Ok text →
  interpret_program E self text (engine s) = (r, st') →
  ∃ n : Z,
    read_database E self fs fn s
    = (match r with Ok _ => Ok tt | Raise e => Raise e end,
       Session st'
         (notes s
          ++ (length (log (world_of (engine s))), INFO,
              Note_reading_database fn)
             :: match r with
                | Ok _ => [(length (log (world_of st')), INFO,
                            Note_database_read fn n)]
                | Raise _ => []
                end))
    ∧ ∀ rv, r = Ok rv →
        n = (Z.of_nat (length (knowledge st'))
             - Z.of_nat (length (knowledge (engine s))))%Z
        ∧ (0 ≤ n ≤ Z.of_nat (length rv))%Z.
Proof.
  intros Hsuf Hex Hread Hrun.
  exists (Z.of_nat (length (knowledge st'))
          - Z.of_nat (length (knowledge (engine s))))%Z.
  split.
  - rewrite (read_database_found E self fs fn fn text s).
    + rewrite Hrun. by destruct r.
    + cbv zeta. apply String.eqb_neq in Hsuf. by rewrite Hsuf, Hex.
    + done.
  - intros rv ->. split; [done|].
    unfold interpret_program in Hrun.
    apply interpret_lines_inv in Hrun as (new & Hnew & _ & -> & _).
    simpl in Hnew. subst new.
    pose proof (length_foldl_record rv (knowledge (engine s))). lia.
Qed.

Lemma read_database_loads_witness :
  ∃ n : Z,
    read_database (demo [] ZeroDivisionError) rory demo_fs "agg/test_suite.agg"
      empty_session
    = (match (Ok two_loaded : result (list Answer)) with
       | Ok _ => Ok tt
       | Raise e => Raise e
       end,
       Session
         (interpret_program (demo [] ZeroDivisionError) rory "sev One;agg A"
            (engine empty_session)).2
         (notes empty_session
          ++ (length (log (world_of (engine empty_session))), INFO,
              Note_reading_database "agg/test_suite.agg")
             :: match (Ok two_loaded : result (list Answer)) with
                | Ok _ =>
                    [(length
                        (log (world_of
                                (interpret_program (demo [] ZeroDivisionError)
                                   rory "sev One;agg A"
                                   (engine empty_session)).2)),
                      INFO, Note_database_read "agg/test_suite.agg" n)]
                | Raise _ => []
                end))
    ∧ ∀ rv, Ok two_loaded = Ok rv →
        n = (Z.of_nat
               (length
                  (knowledge
                     (interpret_program (demo [] ZeroDivisionError) rory
                        "sev One;agg A" (engine empty_session)).2))
             - Z.of_nat (length (knowledge (engine empty_session))))%Z
        ∧ (0 ≤ n ≤ Z.of_nat (length rv))%Z.
Proof.
  apply (read_database_loads (demo [] ZeroDivisionError) rory demo_fs
           "agg/test_suite.agg" "sev One;agg A" empty_session (Ok two_loaded)).
  - discriminate.
  - reflexivity.
  - reflexivity.
  - vm_compute. reflexivity.
Defined.

(** X30: the constructor.  With log2 <= 0 it raises ValueError before any
    directory or file is touched.  However it ends otherwise, the knowledge
    it leaves has unique identifiers; when it returns, the instance carries
    the given name, log2, debug and update settings, and with no databases
    asked for the knowledge is empty. *)
Theorem init_contract (E : collaborators) (fs : filesystem) (name : string)
    (databases : databases_arg) (update debug : bool) (log2 : Z)
    (r : result (string * config)) (s : session) :
  __init__ E fs name databases update log2 debug = (r, s) →
  ((log2 ≤ 0)%Z → (∃ msg, r = Raise (ValueError_msg msg)) ∧ s = new_session)
  ∧ unique_keys (knowledge (engine s))
  ∧ (∀ x, r = Ok x → (0 < log2)%Z ∧ x = (name, Config log2 debug update))
  ∧ (databases = Databases_none → knowledge (engine s) = []).
Proof.
  unfold __init__. destruct (log2 <=? 0)%Z eqn:Hlog.
  - apply Z.leb_le in Hlog. intros [= <- <-]. split_and!.
    + intros _. split; [by eexists|done].
    + apply unique_keys_nil.
    + by intros x.
    + done.
  - apply Z.leb_gt in Hlog. intros Hrun. split; [lia|].
    set (self := Config log2 debug update) in *.
    unfold bind at 1 in Hrun. unfold of_result at 1 in Hrun.
    destruct (mkdir fs (the_site_dir fs)) as [u|e].
    + unfold bind at 1 in Hrun.
      match type of Hrun with
      | context [(if contains_str "default" ?dbs then _ else _) new_session] =>
          set (dbs0 := dbs) in *;
          destruct ((if contains_str "default" dbs0
                     then (let databases0 := remove_first "default" dbs0 in
                           (read_databases E self fs
                              (glob fs (the_default_dir fs) "*.agg");;
                            ret databases0)%se)
                     else ret dbs0) new_session) as [[dbs1|e] s1] eqn:H1
      end.
      * assert (unique_keys (knowledge (engine s1))
                ∧ (databases = Databases_none → s1 = new_session ∧ dbs1 = []))
          as [Hu1 Hnone1].
        { destruct (contains_str "default" dbs0) eqn:Hc.
          - cbv zeta in H1. unfold bind at 1 in H1.
            destruct (read_databases E self fs _ new_session) as [[u1|e1] s2] eqn:H2;
              [|done].
            injection H1 as <- <-. split.
            + eapply read_databases_unique; [exact H2|apply unique_keys_nil].
            + intros ->. subst dbs0. by simpl in Hc.
          - injection H1 as <- <-. split; [apply unique_keys_nil|].
            intros ->. by subst dbs0. }
        unfold bind at 1 in Hrun.
        match type of Hrun with
        | context [read_databases E self fs ?l s1] =>
            destruct (read_databases E self fs l s1) as [[u2|e2] s2] eqn:H2
        end.
        -- injection Hrun as <- <-. split_and!.
           ++ by eapply read_databases_unique.
           ++ by intros x [= <-].
           ++ intros Hd. destruct (Hnone1 Hd) as [-> ->]. simpl in H2.
              unfold ret in H2. by inversion H2.
        -- injection Hrun as <- <-. split_and!.
           ++ by eapply read_databases_unique.
           ++ by intros x.
           ++ intros Hd. destruct (Hnone1 Hd) as [-> ->]. simpl in H2.
              unfold ret in H2. by inversion H2.
      * injection Hrun as <- <-.
        destruct (contains_str "default" dbs0) eqn:Hc.
        -- cbv zeta in H1. unfold bind at 1 in H1.
           destruct (read_databases E self fs _ new_session) as [[u1|e1] s2] eqn:H2;
             [done|].
           injection H1 as <- <-. split_and!.
           ++ eapply read_databases_unique; [exact H2|apply unique_keys_nil].
           ++ by intros x.
           ++ intros ->. subst dbs0. by simpl in Hc.
        -- by inversion H1.
    + injection Hrun as <- <-. split_and!; [apply unique_keys_nil|by intros x|done].
Qed.

Lemma init_contract_witness :
  ((10 ≤ 0)%Z →
   (∃ msg, (__init__ (demo [] ZeroDivisionError) demo_fs "Rory"
              (Databases_str "all") true 10 false).1
           = Raise (ValueError_msg msg))
   ∧ (__init__ (demo [] ZeroDivisionError) demo_fs "Rory"
        (Databases_str "all") true 10 false).2 = new_session)
  ∧ unique_keys
      (knowledge
         (engine (__init__ (demo [] ZeroDivisionError) demo_fs "Rory"
                    (Databases_str "all") true 10 false).2))
  ∧ (∀ x, (__init__ (demo [] ZeroDivisionError) demo_fs "Rory"
             (Databases_str "all") true 10 false).1 = Ok x →
          (0 < 10)%Z ∧ x = ("Rory", Config 10 false true))
  ∧ (Databases_str "all" = Databases_none →
     knowledge
       (engine (__init__ (demo [] ZeroDivisionError) demo_fs "Rory"
                  (Databases_str "all") true 10 false).2) = []).
Proof.
  apply (init_contract (demo [] ZeroDivisionError) demo_fs "Rory"
           (Databases_str "all") true false 10).
  by destruct (__init__ _ _ _ _ _ _ _).
Defined.
